(** * Agentic RAG control loop: a shallow embedding of [agentic_rag.py],
    [minirag.py] and the retrieval half of [vector_store.py].

    Python values are modelled dynamically (type [pyval]); the HTTP
    endpoints, the FAISS index and [repr] are collaborators supplied by
    a record [Externals].  Every call to a collaborator is recorded in
    an event trace, so that statements such as "exactly k gateway calls"
    are statements about the trace of a run.  Logging and [print] are
    left out, except that building the log record of line 111 can raise
    and is modelled for that.

    The later sections embed the rest of the pipeline: the chunking of
    [document_processor.py] over a tokenizer and a PDF reader, the
    index building of [vector_store.py] ([embed_with_retry],
    [build_index]) with its sleeps, and the session loop of [chat.py]
    over a console.  Loops that need not end run on fuel. *)

From Stdlib Require Import String Ascii List ZArith NArith Bool Lia Sorted.
From Stdlib Require DecimalString DecimalZ DecimalPos.
Import ListNotations.

Local Open Scope N_scope.
Set Warnings "-register-all".

(** ** Python strings: sequences of Unicode code points *)

Definition str := list N.

Definition lit (s : string) : str :=
  map N_of_ascii (list_ascii_of_string s).
Arguments lit s%_string.

(** [jq] writes a text that contains double quotes with single quotes;
    it is used for sample inputs only, never for program constants. *)
Definition jq (s : string) : str :=
  map (fun c => if c =? 39 then 34 else c) (lit s).
Arguments jq s%_string.

(** [dq s] is [s] between double quotes. *)
Definition dq (s : str) : str := 34 :: s ++ [34].

Fixpoint str_eqb (a b : str) : bool :=
  match a, b with
  | [], [] => true
  | x :: a', y :: b' => (x =? y) && str_eqb a' b'
  | _, _ => false
  end.

(** [str.isspace] for one code point (CPython's [_PyUnicode_IsWhitespace]). *)
Definition py_isspace (c : N) : bool :=
  ((9 <=? c) && (c <=? 13)) || ((28 <=? c) && (c <=? 32))
  || (c =? 133) || (c =? 160) || (c =? 5760)
  || ((8192 <=? c) && (c <=? 8202))
  || (c =? 8232) || (c =? 8233) || (c =? 8239) || (c =? 8287) || (c =? 12288).

Fixpoint lstrip (s : str) : str :=
  match s with
  | c :: s' => if py_isspace c then lstrip s' else s
  | [] => []
  end.

Definition rstrip (s : str) : str := rev (lstrip (rev s)).

(** [s.strip()] *)
Definition py_strip (s : str) : str := rstrip (lstrip s).

(** [s.startswith(p)] *)
Fixpoint startswith (s p : str) : bool :=
  match p, s with
  | [], _ => true
  | x :: p', y :: s' => (x =? y) && startswith s' p'
  | _ :: _, [] => false
  end.

(** [s.endswith(p)] *)
Definition endswith (s p : str) : bool := startswith (rev s) (rev p).

(** [s[n:]] for a literal [n >= 0] *)
Definition slice_from (n : nat) (s : str) : str := skipn n s.

(** [s[:-n]] for a literal [n > 0] *)
Definition slice_drop_last (n : nat) (s : str) : str :=
  firstn (List.length s - n) s.

(** [sep.join(parts)] *)
Fixpoint join (sep : str) (parts : list str) : str :=
  match parts with
  | [] => []
  | [p] => p
  | p :: ps => p ++ sep ++ join sep ps
  end.

(** [str(z)] for an [int] *)
Definition str_of_Z (z : Z) : str :=
  lit (DecimalString.NilZero.string_of_int (Z.to_int z)).

(** ** Python values as [json] produces them *)

(** A float is kept as the decimal it was read from: [FDec neg m e] is the
    double nearest to [(-1)^neg * m * 10^e]. *)
Inductive pyfloat :=
| FNaN
| FInf (negative : bool)
| FDec (negative : bool) (mantissa : N) (exp10 : Z).

Inductive pyval :=
| PNone
| PBool (b : bool)
| PInt (z : Z)
| PFloat (f : pyfloat)
| PStr (s : str)
| PList (l : list pyval)
| PDict (d : list (str * pyval)).

(** A [dict] with string keys, in insertion order, keys pairwise distinct. *)
Definition dict := list (str * pyval).

Fixpoint dict_lookup (k : str) (d : dict) : option pyval :=
  match d with
  | [] => None
  | (k', v) :: d' => if str_eqb k k' then Some v else dict_lookup k d'
  end.

(** [d[k] = v] *)
Fixpoint dict_set (k : str) (v : pyval) (d : dict) : dict :=
  match d with
  | [] => [(k, v)]
  | (k', v') :: d' =>
      if str_eqb k k' then (k', v) :: d' else (k', v') :: dict_set k v d'
  end.

(** Exceptions the modelled code can raise or let through. *)
Inductive exn :=
| JSONDecodeError (msg : string)
| AttributeError
| TypeError
| KeyError
| IndexError
| ExternalError (code : N).

Definition res (A : Type) : Type := (exn + A)%type.

Definition is_JSONDecodeError (e : exn) : bool :=
  match e with
  | JSONDecodeError _ => true
  | _ => false
  end.

(** Sequencing of code that may raise and touches no collaborator. *)
Definition and_then {A B} (r : res A) (f : A -> res B) : res B :=
  match r with
  | inl e => inl e
  | inr a => f a
  end.

(** [float(x) == 0.0]: the decimal rounds to zero iff it is at most half
    the smallest subnormal double, [2^-1075]. *)
Definition float_is_zero (f : pyfloat) : bool :=
  match f with
  | FNaN | FInf _ => false
  | FDec _ m e =>
      (m =? 0)
      || ((e <? 0)%Z
          && (Z.of_N m * 2 ^ 1075 <=? 10 ^ (- e))%Z)
  end.

(** [bool(v)] *)
Definition py_truthy (v : pyval) : bool :=
  match v with
  | PNone => false
  | PBool b => b
  | PInt z => negb (z =? 0)%Z
  | PFloat f => negb (float_is_zero f)
  | PStr s => match s with [] => false | _ => true end
  | PList l => match l with [] => false | _ => true end
  | PDict d => match d with [] => false | _ => true end
  end.

(** [v == s] for a string literal [s] *)
Definition py_eq_str (v : pyval) (s : str) : bool :=
  match v with
  | PStr s' => str_eqb s' s
  | _ => false
  end.

(** [v.get(k, default)]: only a dict has [get]. *)
Definition py_get (v : pyval) (k : str) (default : pyval) : res pyval :=
  match v with
  | PDict d =>
      match dict_lookup k d with
      | Some x => inr x
      | None => inr default
      end
  | _ => inl AttributeError
  end.

(** [v[k]] for a string literal [k] *)
Definition py_getitem (v : pyval) (k : str) : res pyval :=
  match v with
  | PDict d =>
      match dict_lookup k d with
      | Some x => inr x
      | None => inl KeyError
      end
  | _ => inl TypeError
  end.

(** [len(v)] *)
Definition py_len (v : pyval) : res Z :=
  match v with
  | PStr s => inr (Z.of_nat (List.length s))
  | PList l => inr (Z.of_nat (List.length l))
  | PDict d => inr (Z.of_nat (List.length d))
  | _ => inl TypeError
  end.

(** [v[i]] for an integer [i] (negative indices count from the end) *)
Definition py_getitem_int (v : pyval) (i : Z) : res pyval :=
  let at_index {A} (l : list A) : option A :=
    let n := Z.of_nat (List.length l) in
    let j := (if i <? 0 then i + n else i)%Z in
    if ((0 <=? j) && (j <? n))%Z then nth_error l (Z.to_nat j) else None in
  match v with
  | PList l =>
      match at_index l with Some x => inr x | None => inl IndexError end
  | PStr s =>
      match at_index s with Some c => inr (PStr [c]) | None => inl IndexError end
  | PDict _ => inl KeyError
  | _ => inl TypeError
  end.

(** The values a [for] statement draws from [v] *)
Definition py_iter (v : pyval) : res (list pyval) :=
  match v with
  | PList l => inr l
  | PStr s => inr (map (fun c => PStr [c]) s)
  | PDict d => inr (map (fun kv => PStr (fst kv)) d)
  | _ => inl TypeError
  end.

(** ** [json.loads]

    A model of CPython's [json] decoder with its default settings (the C
    scanner, [strict=True], no hooks).  Interpreter resource limits (the
    recursion limit, the limit on the digits of an [int]) are not
    modelled.  A parser returns the value read and the rest of the input;
    [PFuel] marks an exhausted recursion budget, which [json_loads] never
    runs into (lemma [scan_once_fuel]). *)

Inductive pres (A : Type) :=
| POk (a : A) (rest : str)
| PErr (msg : string)
| PFuel.
Arguments POk {A} a rest.
Arguments PErr {A} msg.
Arguments PFuel {A}.

Definition json_ws (c : N) : bool :=
  (c =? 32) || (c =? 9) || (c =? 10) || (c =? 13).

Fixpoint skip_ws (s : str) : str :=
  match s with
  | c :: s' => if json_ws c then skip_ws s' else s
  | [] => []
  end.

Definition is_digit (c : N) : bool := (48 <=? c) && (c <=? 57).

Definition hex_digit (c : N) : option N :=
  if is_digit c then Some (c - 48)
  else if (97 <=? c) && (c <=? 102) then Some (c - 87)
  else if (65 <=? c) && (c <=? 70) then Some (c - 55)
  else None.

Definition hex4 (a b c d : N) : option N :=
  match hex_digit a, hex_digit b, hex_digit c, hex_digit d with
  | Some x, Some y, Some z, Some t => Some (((x * 16 + y) * 16 + z) * 16 + t)
  | _, _, _, _ => None
  end.

Definition simple_escape (c : N) : option N :=
  if (c =? 34) || (c =? 92) || (c =? 47) then Some c
  else if c =? 98 then Some 8
  else if c =? 102 then Some 12
  else if c =? 110 then Some 10
  else if c =? 114 then Some 13
  else if c =? 116 then Some 9
  else None.

Definition is_high_surrogate (c : N) : bool := (55296 <=? c) && (c <=? 56319).
Definition is_low_surrogate (c : N) : bool := (56320 <=? c) && (c <=? 57343).
Definition join_surrogates (hi lo : N) : N :=
  65536 + ((hi - 55296) * 1024 + (lo - 56320)).

(** [scanstring_unicode]: the input starts just after the opening quote;
    [acc] holds the characters decoded so far, last first. *)
Fixpoint scanstring (s : str) (acc : str) : pres str :=
  match s with
  | [] => PErr "Unterminated string starting at"
  | c :: rest =>
      if c =? 34 then POk (rev acc) rest
      else if c =? 92 then
        match rest with
        | [] => PErr "Unterminated string starting at"
        | e :: rest1 =>
            if e =? 117 then
              match rest1 with
              | h1 :: h2 :: h3 :: h4 :: ((_ :: _) as rest2) =>
                  match hex4 h1 h2 h3 h4 with
                  | None => PErr "Invalid \uXXXX escape"
                  | Some cp =>
                      match rest2 with
                      | b :: u :: l1 :: l2 :: l3 :: l4 :: ((_ :: _) as rest3) =>
                          if is_high_surrogate cp && (b =? 92) && (u =? 117) then
                            match hex4 l1 l2 l3 l4 with
                            | None => PErr "Invalid \uXXXX escape"
                            | Some lo =>
                                if is_low_surrogate lo
                                then scanstring rest3 (join_surrogates cp lo :: acc)
                                else scanstring rest2 (cp :: acc)
                            end
                          else scanstring rest2 (cp :: acc)
                      | _ => scanstring rest2 (cp :: acc)
                      end
                  end
              | _ => PErr "Invalid \uXXXX escape"
              end
            else
              match simple_escape e with
              | Some ch => scanstring rest1 (ch :: acc)
              | None => PErr "Invalid \escape"
              end
        end
      else if c <=? 31 then PErr "Invalid control character at"
      else scanstring rest (c :: acc)
  end.

(** The longest prefix of digits, and what follows it *)
Fixpoint span_digits (s : str) : str * str :=
  match s with
  | c :: s' =>
      if is_digit c then let (ds, r) := span_digits s' in (c :: ds, r)
      else ([], s)
  | [] => ([], [])
  end.

Definition N_of_digits (ds : str) : N :=
  fold_left (fun n c => n * 10 + (c - 48)) ds 0.

(** The parts of [_match_number_unicode]: an optional minus sign, *)
Definition read_sign (s : str) : bool * str :=
  match s with
  | c :: s' => if c =? 45 then (true, s') else (false, s)
  | [] => (false, s)
  end.

(** the integer digits ([0], or a digit from 1 to 9 and more digits), *)
Definition read_int (s : str) : option (str * str) :=
  match s with
  | [] => None
  | c :: s' =>
      if (49 <=? c) && (c <=? 57)
      then let (ds, r) := span_digits s' in Some (c :: ds, r)
      else if c =? 48 then Some ([c], s')
      else None
  end.

(** a fraction, read only when a digit follows the point, *)
Definition read_frac (s : str) : str * str :=
  match s with
  | p :: d :: _ =>
      if (p =? 46) && is_digit d then span_digits (tl s) else ([], s)
  | _ => ([], s)
  end.

(** and an exponent, given up when no digit follows [e] and the sign. *)
Definition read_exp (s : str) : option Z * str :=
  match s with
  | e :: r =>
      if (e =? 101) || (e =? 69) then
        let (negative, r') :=
          match r with
          | g :: r'' =>
              if g =? 45 then (true, r'')
              else if g =? 43 then (false, r'')
              else (false, r)
          | [] => (false, r)
          end in
        match span_digits r' with
        | ([], _) => (None, s)
        | (ds, rest) =>
            let n := Z.of_N (N_of_digits ds) in
            (Some (if negative then (- n)%Z else n), rest)
        end
      else (None, s)
  | [] => (None, s)
  end.

(** [_match_number_unicode]; [None] is the C code's [StopIteration]. *)
Definition match_number (s : str) : option (pyval * str) :=
  let (neg, s1) := read_sign s in
  match read_int s1 with
  | None => None
  | Some (ints, r1) =>
      let (frac, r2) := read_frac r1 in
      let (expo, r3) := read_exp r2 in
      match frac, expo with
      | [], None =>
          let n := Z.of_N (N_of_digits ints) in
          Some (PInt (if neg then (- n)%Z else n), r3)
      | _, _ =>
          let e := match expo with Some e => e | None => 0%Z end in
          Some (PFloat (FDec neg (N_of_digits (ints ++ frac))
                             (e - Z.of_nat (List.length frac))), r3)
      end
  end.

(** The members of an array after [[]; [scan] reads one value. *)
Fixpoint array_items (scan : str -> pres pyval) (n : nat)
  (acc : list pyval) (s : str) : pres pyval :=
  match n with
  | O => PFuel
  | S n' =>
      match scan s with
      | PFuel => PFuel
      | PErr m => PErr m
      | POk v r =>
          match skip_ws r with
          | c :: r' =>
              if c =? 93 then POk (PList (rev (v :: acc))) r'
              else if c =? 44 then array_items scan n' (v :: acc) (skip_ws r')
              else PErr "Expecting ',' delimiter"
          | [] => PErr "Expecting ',' delimiter"
          end
      end
  end.

(** [_parse_array_unicode]: the input starts just after [[]. *)
Definition parse_array (scan : str -> pres pyval) (n : nat) (s : str)
  : pres pyval :=
  match skip_ws s with
  | c :: r => if c =? 93 then POk (PList []) r
              else array_items scan n [] (skip_ws s)
  | [] => array_items scan n [] []
  end.

(** The members of an object, from a key on; a repeated key keeps its
    first position and takes the last value, as [PyDict_SetItem] does. *)
Fixpoint object_members (scan : str -> pres pyval) (n : nat)
  (acc : dict) (s : str) : pres pyval :=
  match n with
  | O => PFuel
  | S n' =>
      match s with
      | q :: s1 =>
          if q =? 34 then
            match scanstring s1 [] with
            | PFuel => PFuel
            | PErr m => PErr m
            | POk key r =>
                match skip_ws r with
                | c :: r1 =>
                    if c =? 58 then
                      match scan (skip_ws r1) with
                      | PFuel => PFuel
                      | PErr m => PErr m
                      | POk v r2 =>
                          let acc' := dict_set key v acc in
                          match skip_ws r2 with
                          | c2 :: r3 =>
                              if c2 =? 125 then POk (PDict acc') r3
                              else if c2 =? 44
                              then object_members scan n' acc' (skip_ws r3)
                              else PErr "Expecting ',' delimiter"
                          | [] => PErr "Expecting ',' delimiter"
                          end
                      end
                    else PErr "Expecting ':' delimiter"
                | [] => PErr "Expecting ':' delimiter"
                end
            end
          else PErr "Expecting property name enclosed in double quotes"
      | [] => PErr "Expecting property name enclosed in double quotes"
      end
  end.

(** [_parse_object_unicode]: the input starts just after the brace. *)
Definition parse_object (scan : str -> pres pyval) (n : nat) (s : str)
  : pres pyval :=
  match skip_ws s with
  | c :: r => if c =? 125 then POk (PDict []) r
              else object_members scan n [] (skip_ws s)
  | [] => object_members scan n [] []
  end.

(** [scan_once_unicode] *)
Fixpoint scan_once (fuel : nat) (s : str) {struct fuel} : pres pyval :=
  match fuel with
  | O => PFuel
  | S fuel' =>
      match s with
      | [] => PErr "Expecting value"
      | c :: rest =>
          if c =? 34 then
            match scanstring rest [] with
            | POk k r => POk (PStr k) r
            | PErr m => PErr m
            | PFuel => PFuel
            end
          else if c =? 123 then parse_object (scan_once fuel') fuel' rest
          else if c =? 91 then parse_array (scan_once fuel') fuel' rest
          else if startswith s (lit "null") then POk PNone (skipn 4 s)
          else if startswith s (lit "true") then POk (PBool true) (skipn 4 s)
          else if startswith s (lit "false") then POk (PBool false) (skipn 5 s)
          else if startswith s (lit "NaN") then POk (PFloat FNaN) (skipn 3 s)
          else if startswith s (lit "Infinity")
          then POk (PFloat (FInf false)) (skipn 8 s)
          else if startswith s (lit "-Infinity")
          then POk (PFloat (FInf true)) (skipn 9 s)
          else
            match match_number s with
            | Some (v, r) => POk v r
            | None => PErr "Expecting value"
            end
      end
  end.

(** [json.loads(s)] for a [str]: a value or a [JSONDecodeError]. *)
Definition json_loads (s : str) : res pyval :=
  if startswith s [65279] then
    inl (JSONDecodeError "Unexpected UTF-8 BOM (decode using utf-8-sig)")
  else
    match scan_once (S (List.length s)) (skip_ws s) with
    | POk v r =>
        match skip_ws r with
        | [] => inr v
        | _ :: _ => inl (JSONDecodeError "Extra data")
        end
    | PErr m => inl (JSONDecodeError m)
    | PFuel => inl (JSONDecodeError "Expecting value")
    end.


(** Relations between an input and what a parser leaves of it. *)

(** [r] is [s] or what is left of it after a prefix. *)
Definition tail_of (s r : str) : Prop := exists c, s = c ++ r.

(** [r] is what is left of [s] after a non-empty prefix. *)
Definition rest_of (s r : str) : Prop := exists c, c <> [] /\ s = c ++ r.

Definition json_space (w : str) : Prop := Forall (fun c => json_ws c = true) w.

Definition all_space (w : str) : Prop := Forall (fun c => py_isspace c = true) w.

(** What a parser of one value guarantees. *)
Definition scans (scan : str -> pres pyval) : Prop :=
  forall s v r, scan s = POk v r ->
    rest_of s r
    /\ forall d, v = PDict d -> exists body, s = 123 :: body ++ 125 :: r.

(** [r] is what is left of [s] after a prefix that ends with the closing
    brace. *)
Definition closed_before (s r : str) : Prop := exists c, s = c ++ 125 :: r.

(** [scan] does not run out of fuel on inputs shorter than [bound]. *)
Definition fueled (scan : str -> pres pyval) (bound : nat) : Prop :=
  forall s, (List.length s < bound)%nat -> scan s <> PFuel.

(** ** Collaborators and effects *)

(** What the program reaches outside itself.  A [world] is the state of
    everything external; each collaborator answers from it and may change
    it. *)
Class Externals := {
  world : Type;
  faiss_index : Type;
  (** [requests.post(CHAT_URL, headers=HEADERS, json=body)], then
      [raise_for_status()] and [resp.json()] *)
  post_chat : pyval -> world -> res pyval * world;
  (** the same for [EMBED_URL] *)
  post_embed : pyval -> world -> res pyval * world;
  (** [faiss.read_index(INDEX_PATH)] and [json.load] of the metadata file *)
  read_index_files : world -> res (faiss_index * pyval) * world;
  (** [np.array([query_embedding], dtype=np.float32)] and
      [index.search(query_np, top_k)]: row 0 of the labels and distances *)
  index_search : faiss_index -> pyval -> pyval -> world
                 -> res (list (Z * pyfloat)) * world;
  (** [repr] of a float, a list or a dict *)
  py_repr : pyval -> str
}.

(** One entry of the trace per call to a collaborator. *)
Inductive event :=
| EvChatPost (body : pyval) (reply : res pyval)
| EvEmbedPost (body : pyval) (reply : res pyval)
| EvReadIndex (loaded : bool)
| EvSearch (query_embedding top_k : pyval) (rows : res (list (Z * pyfloat))).

Section Program.
Context {E : Externals}.

(** The state a run threads: the world and the module globals [_index],
    [_metadata] of [agentic_rag.py]. *)
Record state := {
  st_world : world;
  st_index : option (faiss_index * pyval)
}.

(** A computation returns a value or raises, leaves a state, and emits
    the events of its collaborator calls in order. *)
Definition M (A : Type) : Type := state -> res A * state * list event.

Definition ret {A} (a : A) : M A := fun s => (inr a, s, []).

Definition lift {A} (r : res A) : M A := fun s => (r, s, []).

Definition bind {A B} (m : M A) (f : A -> M B) : M B :=
  fun s =>
    match m s with
    | (inl e, s1, t1) => (inl e, s1, t1)
    | (inr a, s1, t1) =>
        match f a s1 with
        | (r, s2, t2) => (r, s2, t1 ++ t2)
        end
    end.

Definition with_world (s : state) (w : world) : state :=
  {| st_world := w; st_index := st_index s |}.

(** A call to a collaborator that works on the world. *)
Definition call {A} (f : world -> res A * world)
  (ev : res A -> event) : M A :=
  fun s =>
    match f (st_world s) with
    | (r, w') => (r, with_world s w', [ev r])
    end.

Definition get_global_index : M (option (faiss_index * pyval)) :=
  fun s => (inr (st_index s), s, []).

Definition set_global_index (im : faiss_index * pyval) : M unit :=
  fun s => (inr tt, {| st_world := st_world s; st_index := Some im |}, []).

End Program.

Declare Scope py_scope.
Delimit Scope py_scope with py.
Notation "x <- m ;; k" := (bind m (fun x => k))
  (at level 61, m at next level, right associativity) : py_scope.
Notation "' p <- m ;; k" := (bind m (fun x => match x with p => k end))
  (at level 61, p pattern, m at next level, right associativity) : py_scope.
Local Open Scope py_scope.

(** The value an f-string inserts for [{v}]. *)
Definition py_str `{Externals} (v : pyval) : str :=
  match v with
  | PStr s => s
  | PNone => lit "None"
  | PBool true => lit "True"
  | PBool false => lit "False"
  | PInt z => str_of_Z z
  | _ => py_repr v
  end.

(** [v.strip()]: only a string has [strip]. *)
Definition py_strip_method (v : pyval) : res str :=
  match v with
  | PStr s => inr (py_strip s)
  | _ => inl AttributeError
  end.

(** [v[:n]]; of the values [json] produces, strings and lists can be
    sliced (a dict raises [TypeError] up to Python 3.11 and [KeyError]
    from 3.12 on; the model says [TypeError]). *)
Definition py_slice_to (n : nat) (v : pyval) : res pyval :=
  match v with
  | PStr s => inr (PStr (firstn n s))
  | PList l => inr (PList (firstn n l))
  | _ => inl TypeError
  end.

(** [json.loads(v)] *)
Definition py_json_loads (v : pyval) : res pyval :=
  match v with
  | PStr s => json_loads s
  | _ => inl TypeError
  end.

(** ** [minirag.py] *)

Section Minirag.
Context {E : Externals}.

Definition message (role : string) (content : pyval) : pyval :=
  PDict [(lit "role", PStr (lit role)); (lit "content", content)].

(** [data[k1][0][k2]] *)
Definition first_of (data : pyval) (k1 k2 : string) : res pyval :=
  and_then (py_getitem data (lit k1)) (fun xs =>
  and_then (py_getitem_int xs 0) (fun x =>
  py_getitem x (lit k2))).

(** [data["choices"][0]["message"]] *)
Definition chat_message (data : pyval) : res pyval :=
  first_of data "choices" "message".

(** [data["choices"][0]["message"]["content"]] *)
Definition chat_content (data : pyval) : res pyval :=
  and_then (chat_message data) (fun msg => py_getitem msg (lit "content")).

(** The request body [azure_chat] builds. *)
Definition chat_body (prompt system_prompt : str) : pyval :=
  PDict [(lit "messages",
          PList [message "system" (PStr system_prompt);
                 message "user" (PStr prompt)])].

Definition azure_chat (prompt system_prompt : str) : M pyval :=
  let body := chat_body prompt system_prompt in
  data <- call (post_chat body) (EvChatPost body) ;;
  lift (chat_content data).

(** The request body [azure_chat_with_tools] builds. *)
Definition tools_body (messages : list pyval) (tools : pyval)
  (system_prompt : str) : pyval :=
  let full_messages := message "system" (PStr system_prompt) :: messages in
  let body := [(lit "messages", PList full_messages)] in
  PDict (if py_truthy tools
         then dict_set (lit "tool_choice") (PStr (lit "auto"))
                (dict_set (lit "tools") tools body)
         else body).

Definition azure_chat_with_tools (messages : list pyval) (tools : pyval)
  (system_prompt : str) : M pyval :=
  let body := tools_body messages tools system_prompt in
  data <- call (post_chat body) (EvChatPost body) ;;
  lift (chat_message data).

Definition azure_embed (text : pyval) : M pyval :=
  let body := PDict [(lit "input", text)] in
  data <- call (post_embed body) (EvEmbedPost body) ;;
  lift (first_of data "data" "embedding").

End Minirag.

(** ** [vector_store.py]: retrieval *)

Section VectorStore.
Context {E : Externals}.

Definition load_index : M (faiss_index * pyval) :=
  call read_index_files
       (fun r => EvReadIndex (match r with inr _ => true | inl _ => false end)).

(** The loop of [retrieve] over [enumerate(indices[0])]; each row pairs
    the label [idx] with [distances[0][i]]. *)
Fixpoint collect_results (metadata : pyval) (rows : list (Z * pyfloat))
  (results : list pyval) : M (list pyval) :=
  match rows with
  | [] => ret results
  | (idx, distance) :: rows' =>
      skip <- (if (idx <? 0)%Z then ret true
               else n <- lift (py_len metadata) ;; ret (n <=? idx)%Z) ;;
      if (skip : bool) then collect_results metadata rows' results
      else
        chunk_meta <- lift (py_getitem_int metadata idx) ;;
        chunk_id <- lift (py_getitem chunk_meta (lit "chunk_id")) ;;
        filename <- lift (py_getitem chunk_meta (lit "filename")) ;;
        page_num <- lift (py_getitem chunk_meta (lit "page_num")) ;;
        text <- lift (py_getitem chunk_meta (lit "text")) ;;
        let citation :=
          lit "[" ++ py_str filename ++ lit ", Page " ++ py_str page_num
          ++ lit "]" in
        collect_results metadata rows'
          (results ++ [PDict [(lit "chunk_id", chunk_id);
                              (lit "filename", filename);
                              (lit "page_num", page_num);
                              (lit "text", text);
                              (lit "score", PFloat distance);
                              (lit "citation", PStr citation)]])
  end.

Definition retrieve (query top_k : pyval) (index : option faiss_index)
  (metadata : pyval) : M (list pyval) :=
  '(index, metadata) <-
     match index, metadata with
     | None, _ | _, PNone => load_index
     | Some i, _ => ret (i, metadata)
     end ;;
  query_embedding <- azure_embed query ;;
  rows <- call (index_search index query_embedding top_k)
               (EvSearch query_embedding top_k) ;;
  collect_results metadata rows [].

(** The loop of [format_context] over [enumerate(results, 1)] *)
Fixpoint context_parts (i : Z) (results : list pyval) : res (list str) :=
  match results with
  | [] => inr []
  | r :: rs =>
      match py_getitem r (lit "citation") with
      | inl e => inl e
      | inr citation =>
          match py_getitem r (lit "text") with
          | inl e => inl e
          | inr text =>
              match context_parts (i + 1) rs with
              | inl e => inl e
              | inr parts =>
                  inr ((lit "[Source " ++ str_of_Z i ++ lit "] "
                        ++ py_str citation ++ [10] ++ py_str text ++ [10])
                       :: parts)
              end
          end
      end
  end.

Definition format_context (results : list pyval) : res str :=
  match results with
  | [] => inr (lit "No relevant information found.")
  | _ :: _ =>
      match context_parts 1 results with
      | inl e => inl e
      | inr parts => inr (join ([10] ++ lit "---" ++ [10]) parts)
      end
  end.

End VectorStore.

(** ** [agentic_rag.py] *)

Definition SEARCH_NIST_TOOL : pyval :=
  PDict [
    (lit "type", PStr (lit "function"));
    (lit "function", PDict [
      (lit "name", PStr (lit "search_nist_knowledge"));
      (lit "description", PStr (lit "Search the NIST cybersecurity publications knowledge base to find relevant information about security frameworks, access control, cryptography, zero trust, PKI, and other cybersecurity topics."));
      (lit "parameters", PDict [
        (lit "type", PStr (lit "object"));
        (lit "properties", PDict [
          (lit "query", PDict [
            (lit "type", PStr (lit "string"));
            (lit "description", PStr (lit "The search query to find relevant NIST publications and guidelines and extract useful information."))]);
          (lit "top_k", PDict [
            (lit "type", PStr (lit "integer"));
            (lit "description", PStr (lit "Number of results to return (default: 5)"));
            (lit "default", PInt 5)])]);
        (lit "required", PList [PStr (lit "query")])])])].

Definition TOOLS : pyval := PList [SEARCH_NIST_TOOL].

Definition CRITIC_SYSTEM_PROMPT : str :=
  lit "You are a critic agent that evaluates whether retrieved context is sufficient to answer a user's question.

Analyze the query and retrieved context, then respond with a JSON object:
{
    " ++ dq (lit "decision") ++ lit ": " ++ dq (lit "sufficient")
  ++ lit " | " ++ dq (lit "insufficient")
  ++ lit " | " ++ dq (lit "needs_refinement") ++ lit ",
    " ++ dq (lit "reasoning") ++ lit ": "
  ++ dq (lit "Brief explanation of your decision") ++ lit ",
    " ++ dq (lit "refined_query") ++ lit ": "
  ++ dq (lit "If needs_refinement, provide an improved search query, otherwise null")
  ++ lit "
}

Guidelines:
- " ++ dq (lit "sufficient")
  ++ lit ": Context directly addresses the query with relevant, specific information
- " ++ dq (lit "insufficient")
  ++ lit ": Context is completely unrelated or missing critical information
- " ++ dq (lit "needs_refinement")
  ++ lit ": Context is partially relevant but a better search query could improve results".

Definition AGENT_SYSTEM_PROMPT : str :=
  lit "You are a knowledgeable assistant specializing in NIST cybersecurity publications and guidelines.

When answering questions:
1. Use the search_nist_knowledge tool to find relevant information from NIST publications
2. Synthesize information from multiple sources when appropriate
3. Always cite your sources using the format [Source Name, Page X]
4. If information is not found, clearly state that

Be accurate, thorough, and cite specific documents when possible.".

Section AgenticRag.
Context {E : Externals}.

Definition get_index : M (faiss_index * pyval) :=
  cached <- get_global_index ;;
  match cached with
  | None =>
      im <- load_index ;;
      _ <- set_global_index im ;;
      ret im
  | Some im => ret im
  end.

Definition execute_tool (tool_name arguments : pyval) : M str :=
  if py_eq_str tool_name (lit "search_nist_knowledge") then
    query <- lift (py_get arguments (lit "query") (PStr [])) ;;
    top_k <- lift (py_get arguments (lit "top_k") (PInt 5)) ;;
    '(index, metadata) <- get_index ;;
    results <- retrieve query top_k (Some index) metadata ;;
    lift (format_context results)
  else
    ret (lit "Unknown tool: " ++ py_str tool_name).

(** The verdict [critic_evaluate] falls back to. *)
Definition parse_error_fallback : pyval :=
  PDict [(lit "decision", PStr (lit "sufficient"));
         (lit "reasoning", PStr (lit "Parse error fallback"));
         (lit "refined_query", PNone)].

(** Lines 96-107: the text handed to [json.loads]. *)
Definition clean_response (response : pyval) : res str :=
  and_then (py_strip_method response) (fun cleaned_response =>
  let cleaned_response :=
    if startswith cleaned_response (lit "```json")
    then slice_from 7 cleaned_response
    else if startswith cleaned_response (lit "```")
    then slice_from 3 cleaned_response
    else cleaned_response in
  let cleaned_response :=
    if endswith cleaned_response (lit "```")
    then slice_drop_last 3 cleaned_response
    else cleaned_response in
  inr (py_strip cleaned_response)).

(** Line 111: the log record is built from [result.get('decision')] and
    [result.get('reasoning', '')[:100]], which can raise. *)
Definition critic_log_record (result : pyval) : res unit :=
  and_then (py_get result (lit "decision") PNone) (fun _ =>
  and_then (py_get result (lit "reasoning") (PStr [])) (fun reasoning =>
  and_then (py_slice_to 100 reasoning) (fun _ =>
  inr tt))).

(** Lines 95-112: the body of the [try] statement.  It calls no
    collaborator, so it is a function of [response]. *)
Definition critic_try (response : pyval) : res pyval :=
  and_then (clean_response response) (fun cleaned_response =>
  and_then (json_loads cleaned_response) (fun result =>
  and_then (critic_log_record result) (fun _ =>
  inr result))).

(** Lines 94-117: the [try] statement with its handler for
    [json.JSONDecodeError]. *)
Definition critic_verdict (response : pyval) : res pyval :=
  match critic_try response with
  | inl e => if is_JSONDecodeError e then inr parse_error_fallback else inl e
  | inr result => inr result
  end.

Definition critic_prompt (query context : str) : str :=
  lit "User Query: " ++ query ++ [10; 10] ++ lit "Retrieved Context:" ++ [10]
  ++ context ++ [10; 10]
  ++ lit "Evaluate if this context sufficiently answers the query. Respond with JSON only.".

Definition critic_evaluate (query context : str) : M pyval :=
  let prompt := critic_prompt query context in
  response <- azure_chat prompt CRITIC_SYSTEM_PROMPT ;;
  lift (critic_verdict response).

(** Lines 152-172: the [for] loop over the tool calls of one response.
    It returns the grown [messages] and the [context] it leaves. *)
Fixpoint run_tool_calls (tool_calls : list pyval) (messages : list pyval)
  (context : option str) : M (list pyval * option str) :=
  match tool_calls with
  | [] => ret (messages, context)
  | tool_call :: rest =>
      fn <- lift (py_getitem tool_call (lit "function")) ;;
      tool_name <- lift (py_getitem fn (lit "name")) ;;
      payload <- lift (py_getitem fn (lit "arguments")) ;;
      arguments <- lift (py_json_loads payload) ;;
      tool_result <- execute_tool tool_name arguments ;;
      let context := Some tool_result in
      let messages :=
        messages ++ [PDict [(lit "role", PStr (lit "assistant"));
                            (lit "content", PNone);
                            (lit "tool_calls", PList [tool_call])]] in
      tool_call_id <- lift (py_getitem tool_call (lit "id")) ;;
      let messages :=
        messages ++ [PDict [(lit "role", PStr (lit "tool"));
                            (lit "tool_call_id", tool_call_id);
                            (lit "content", PStr tool_result)]] in
      run_tool_calls rest messages context
  end.

(** How one round of the [while] loop ends. *)
Inductive round_exit :=
| Continue (messages : list pyval) (context : option str)
| Break (messages : list pyval) (context : option str)
| Return (value : pyval).

(** Lines 145-202: the body of the [while] loop after the counter is
    incremented. *)
Definition agent_round (user_query : str) (messages : list pyval)
  (context : option str) : M round_exit :=
  response <- azure_chat_with_tools messages TOOLS AGENT_SYSTEM_PROMPT ;;
  tool_calls <- lift (py_get response (lit "tool_calls") (PList [])) ;;
  if py_truthy tool_calls then
    calls <- lift (py_iter tool_calls) ;;
    '(messages, context) <- run_tool_calls calls messages context ;;
    match context with
    | Some ((_ :: _) as ctx) =>
        critic_result <- critic_evaluate user_query ctx ;;
        decision <- lift (py_get critic_result (lit "decision")
                            (PStr (lit "sufficient"))) ;;
        if py_eq_str decision (lit "sufficient") then
          ret (Break messages context)
        else
          refine <-
            (if py_eq_str decision (lit "needs_refinement")
             then refined <- lift (py_get critic_result (lit "refined_query")
                                     PNone) ;;
                  ret (py_truthy refined)
             else ret false) ;;
          if (refine : bool) then
            refined_query <- lift (py_getitem critic_result (lit "refined_query")) ;;
            ret (Continue
                   (messages ++ [message "user" (PStr (
                      lit "The previous search wasn't quite right. Please search again with this refined query: "
                      ++ py_str refined_query))])
                   context)
          else
            ret (Continue
                   (messages ++ [message "user" (PStr (
                      lit "The retrieved information wasn't sufficient. Please try a broader or different search."))])
                   context)
    | _ => ret (Continue messages context)
    end
  else
    value <- lift (py_get response (lit "content")
                     (PStr (lit "I couldn't find relevant information."))) ;;
    ret (Return value).

(** How the [while] loop is left: by [break] or its test, or by the
    [return] inside it. *)
Inductive loop_exit :=
| LoopDone (messages : list pyval) (context : option str)
| LoopReturn (value : pyval).

(** Lines 140-202.  The loop runs while [iteration < max_iterations] and
    adds one to [iteration] per round, so it is written by recursion on
    the rounds left, [Z.to_nat (max_iterations - iteration)]. *)
Fixpoint agent_loop (rounds_left : nat) (user_query : str)
  (iteration : Z) (messages : list pyval) (context : option str)
  : M loop_exit :=
  match rounds_left with
  | O => ret (LoopDone messages context)
  | S rounds_left' =>
      let iteration := (iteration + 1)%Z in
      out <- agent_round user_query messages context ;;
      match out with
      | Continue messages context =>
          agent_loop rounds_left' user_query iteration messages context
      | Break messages context => ret (LoopDone messages context)
      | Return value => ret (LoopReturn value)
      end
  end.

Definition final_prompt (user_query : str) (context : option str) : str :=
  lit "Based on the retrieved information, provide a comprehensive answer to the user's question."
  ++ [10] ++ lit "    " ++ [10]
  ++ lit "User Question: " ++ user_query ++ [10; 10]
  ++ lit "Retrieved Context:" ++ [10]
  ++ (match context with
      | Some ((_ :: _) as ctx) => ctx
      | _ => lit "No context retrieved."
      end)
  ++ [10; 10] ++ lit "Provide a detailed answer with proper citations.".

Definition agentic_rag (user_query : str) (max_iterations : Z) : M pyval :=
  let messages := [message "user" (PStr user_query)] in
  let context := None in
  let iteration := 0%Z in
  out <- agent_loop (Z.to_nat (max_iterations - iteration)) user_query
           iteration messages context ;;
  match out with
  | LoopReturn value => ret value
  | LoopDone messages context =>
      final_response <-
        azure_chat_with_tools
          (messages ++ [message "user" (PStr (final_prompt user_query context))])
          PNone AGENT_SYSTEM_PROMPT ;;
      lift (py_get final_response (lit "content")
              (PStr (lit "Unable to generate response.")))
  end.

End AgenticRag.

(** ** Reading a trace *)

(** The three uses of the chat endpoint: a round of the loop sends the
    tool schema, the critic sends its own system prompt, and the final
    synthesis sends neither. *)
Inductive chat_kind := ToolRound | CriticCall | SynthesisCall.

Definition has_tools (body : pyval) : bool :=
  match body with
  | PDict d => match dict_lookup (lit "tools") d with
               | Some _ => true
               | None => false
               end
  | _ => false
  end.

Definition system_prompt_of (body : pyval) : option str :=
  match body with
  | PDict d =>
      match dict_lookup (lit "messages") d with
      | Some (PList (PDict m :: _)) =>
          match dict_lookup (lit "content") m with
          | Some (PStr p) => Some p
          | _ => None
          end
      | _ => None
      end
  | _ => None
  end.

Definition chat_kind_of (body : pyval) : chat_kind :=
  if has_tools body then ToolRound
  else match system_prompt_of body with
       | Some p => if str_eqb p CRITIC_SYSTEM_PROMPT then CriticCall
                   else SynthesisCall
       | None => SynthesisCall
       end.

Definition is_critic_call (body : pyval) : bool :=
  match chat_kind_of body with
  | CriticCall => true
  | _ => false
  end.

(** The posts to the chat endpoint, in order, each with its reply. *)
Fixpoint chat_posts (t : list event) : list (pyval * res pyval) :=
  match t with
  | [] => []
  | EvChatPost body reply :: t' => (body, reply) :: chat_posts t'
  | _ :: t' => chat_posts t'
  end.

Definition chat_kinds (t : list event) : list chat_kind :=
  map (fun p => chat_kind_of (fst p)) (chat_posts t).

(** What [critic_evaluate] makes of the endpoint's reply. *)
Definition critic_outcome (reply : res pyval) : res pyval :=
  and_then reply (fun data =>
  and_then (chat_content data) critic_verdict).

(** The replies to the critic's posts, in order. *)
Definition critic_replies (t : list event) : list (res pyval) :=
  map snd (filter (fun p => is_critic_call (fst p)) (chat_posts t)).

(** The outcomes of the critic evaluations of a run, in order. *)
Definition critic_outcomes (t : list event) : list (res pyval) :=
  map critic_outcome (critic_replies t).

(** A computation that never posts to the chat endpoint. *)
Definition quiet `{Externals} {A} (m : M A) : Prop :=
  forall s r s' t, m s = (r, s', t) -> chat_posts t = [].

(** A computation all of whose events satisfy [P]. *)
Definition emits `{Externals} {A} (P : event -> Prop) (m : M A) : Prop :=
  forall s r s' t, m s = (r, s', t) -> Forall P t.

(** The events of a retrieval for [query] bounded by [top_k]: the index
    files may be read, the text embedded is [query], and the index is
    searched for [top_k] neighbours. *)
Definition retrieval_event (query top_k : pyval) (ev : event) : Prop :=
  match ev with
  | EvChatPost _ _ => False
  | EvEmbedPost body _ => body = PDict [(lit "input", query)]
  | EvReadIndex _ => True
  | EvSearch _ k _ => k = top_k
  end.

(** [latest] is what [execute_tool] returned for [tool_call], run in
    some state. *)
Definition result_of_call `{Externals} (tool_call : pyval) (latest : str)
  : Prop :=
  exists fn name payload arguments s s' t,
    py_getitem tool_call (lit "function") = inr fn
    /\ py_getitem fn (lit "name") = inr name
    /\ py_getitem fn (lit "arguments") = inr payload
    /\ py_json_loads payload = inr arguments
    /\ execute_tool name arguments s = (inr latest, s', t).

(** The tool-role message line 168 appends. *)
Definition tool_message (tool_call_id : pyval) (tool_result : str) : pyval :=
  PDict [(lit "role", PStr (lit "tool"));
         (lit "tool_call_id", tool_call_id);
         (lit "content", PStr tool_result)].

(** The orchestrator reads a verdict as approval when its [decision] is
    ["sufficient"] or is missing (line 177). *)
Definition approves (verdict : pyval) : bool :=
  match py_get verdict (lit "decision") (PStr (lit "sufficient")) with
  | inr decision => py_eq_str decision (lit "sufficient")
  | inl _ => false
  end.


(** [n] rounds in which the critic was consulted. *)
Fixpoint rounds (n : nat) : list chat_kind :=
  match n with
  | O => []
  | S n' => ToolRound :: CriticCall :: rounds n'
  end.

(** What [agentic_rag] returns from the reply to the synthesis call. *)
Definition synthesis_result (reply : res pyval) : res pyval :=
  and_then reply (fun data =>
  and_then (chat_message data) (fun final_response =>
  py_get final_response (lit "content")
         (PStr (lit "Unable to generate response.")))).

(** ** A scripted world for sample runs

    The endpoints answer from fixed lists, one reply per call, whatever
    they are sent; the index answers every search with the same rows. *)

Record script := {
  chat_replies : list (res pyval);
  embed_replies : list (res pyval);
  index_files : res (unit * pyval);
  search_rows : res (list (Z * pyfloat))
}.

Definition scripted : Externals := {|
  world := script;
  faiss_index := unit;
  post_chat := fun _ w =>
    match chat_replies w with
    | r :: rs => (r, {| chat_replies := rs; embed_replies := embed_replies w;
                        index_files := index_files w;
                        search_rows := search_rows w |})
    | [] => (inl (ExternalError 500), w)
    end;
  post_embed := fun _ w =>
    match embed_replies w with
    | r :: rs => (r, {| chat_replies := chat_replies w; embed_replies := rs;
                        index_files := index_files w;
                        search_rows := search_rows w |})
    | [] => (inl (ExternalError 500), w)
    end;
  read_index_files := fun w => (index_files w, w);
  index_search := fun _ _ _ w => (search_rows w, w);
  py_repr := fun _ => lit "<repr>"
|}.

(** The endpoint's reply carrying one assistant message. *)
Definition reply_with (msg : pyval) : res pyval :=
  inr (PDict [(lit "choices", PList [PDict [(lit "message", msg)]])]).

Definition says (content : str) : res pyval :=
  reply_with (PDict [(lit "role", PStr (lit "assistant"));
                     (lit "content", PStr content)]).

Definition tool_call (id name arguments : str) : pyval :=
  PDict [(lit "id", PStr id);
         (lit "type", PStr (lit "function"));
         (lit "function", PDict [(lit "name", PStr name);
                                 (lit "arguments", PStr arguments)])].

Definition asks_tools (calls : list pyval) : res pyval :=
  reply_with (PDict [(lit "role", PStr (lit "assistant"));
                     (lit "content", PNone);
                     (lit "tool_calls", PList calls)]).

Definition embedding_reply : res pyval :=
  inr (PDict [(lit "data",
               PList [PDict [(lit "embedding",
                              PList [PFloat (FDec false 25 (-2))])]])]).

Definition chunk (id filename : str) (page : Z) (text : str) : pyval :=
  PDict [(lit "chunk_id", PStr id); (lit "filename", PStr filename);
         (lit "page_num", PInt page); (lit "text", PStr text)].

Definition sample_metadata : pyval :=
  PList [chunk (lit "c0") (lit "sp800-207.pdf") 3
           (lit "Zero trust assumes no implicit trust.");
         chunk (lit "c1") (lit "sp800-207.pdf") 7
           (lit "Access is granted per session.")].

Definition sample_script (chat : list (res pyval)) : script := {|
  chat_replies := chat;
  embed_replies := [embedding_reply; embedding_reply; embedding_reply];
  index_files := inr (tt, sample_metadata);
  search_rows := inr [(0%Z, FDec false 12 (-2)); (1%Z, FDec false 34 (-2));
                      ((-1)%Z, FInf false)]
|}.

Definition start (w : script) : @state scripted :=
  @Build_state scripted w None.

Definition search_call (id : str) : pyval :=
  tool_call id (lit "search_nist_knowledge")
            (jq "{'query': 'zero trust architecture'}").

(** Sample verdicts of the critic. *)
Definition verdict_sufficient : res pyval :=
  says (jq "{'decision': 'sufficient', 'reasoning': 'covers the question', 'refined_query': null}").

Definition verdict_insufficient : res pyval :=
  says (jq "{'decision': 'insufficient', 'reasoning': 'off topic', 'refined_query': null}").

Definition verdict_refine : res pyval :=
  says (jq "```json
{'decision': 'needs_refinement', 'reasoning': 'too broad', 'refined_query': 'zero trust tenets'}
```").


(** The gateway asks for a search in each of two rounds, the critic
    approves neither. *)
Definition never_approved : @state scripted :=
  start (sample_script
           [asks_tools [search_call (lit "call_1")]; verdict_insufficient;
            asks_tools [search_call (lit "call_2")]; verdict_refine;
            says (lit "Best effort answer")]).


(** The gateway asks for one search; the critic answers [judgement]. *)
Definition judged (judgement : str) : @state scripted :=
  start (sample_script
           [asks_tools [search_call (lit "call_1")]; says judgement;
            says (lit "Final answer")]).



(** ** Further observations *)

(** A state whose module globals hold a loaded index with metadata. *)
Definition warm `{Externals} (s : state) : Prop :=
  exists index metadata,
    st_index s = Some (index, metadata) /\ metadata <> PNone.

Definition reads_index (ev : event) : bool :=
  match ev with
  | EvReadIndex _ => true
  | _ => false
  end.

(** A computation that keeps the globals of a state satisfying [P] as
    they are (so [P] goes on holding) and emits only events
    satisfying [Q]. *)
Definition keeps `{Externals} {A} (P : state -> Prop) (Q : event -> Prop)
  (m : M A) : Prop :=
  forall s r s' t,
    P s -> m s = (r, s', t) -> st_index s' = st_index s /\ Forall Q t.

(** A call to a collaborator that failed. *)
Definition failed_event (ev : event) : bool :=
  match ev with
  | EvChatPost _ (inl _) | EvEmbedPost _ (inl _) | EvSearch _ _ (inl _)
  | EvReadIndex false => true
  | _ => false
  end.

(** The exception a failed call recorded, where the event keeps it. *)
Definition event_error (ev : event) : option exn :=
  match ev with
  | EvChatPost _ (inl e) | EvEmbedPost _ (inl e) | EvSearch _ _ (inl e) => Some e
  | _ => None
  end.

(** A computation that stops at the first failed call: no failed call is
    followed by another event, a failed call makes the computation raise
    (the recorded exception, where there is one), and a computation that
    returns has seen no failed call. *)
Definition fail_stop `{Externals} {A} (m : M A) : Prop :=
  forall s r s' t,
    m s = (r, s', t) ->
    Forall (fun ev => failed_event ev = false) (removelast t)
    /\ (forall a, r = inr a -> Forall (fun ev => failed_event ev = false) t)
    /\ (forall before ev,
          t = before ++ [ev] -> failed_event ev = true ->
          exists e, r = inl e
                    /\ (forall e', event_error ev = Some e' -> e' = e)).

Definition quiet_index (ev : event) : Prop := reads_index ev = false.

(** The sample world after the index has been loaded once. *)
Definition warmed (chat : list (res pyval)) : @state scripted :=
  @Build_state scripted (sample_script chat) (Some (tt, sample_metadata)).

(** A chunk record with the four fields [retrieve] reads. *)
Definition chunk_record (c : pyval) : Prop :=
  exists d chunk_id filename page_num text,
    c = PDict d
    /\ dict_lookup (lit "chunk_id") d = Some chunk_id
    /\ dict_lookup (lit "filename") d = Some filename
    /\ dict_lookup (lit "page_num") d = Some page_num
    /\ dict_lookup (lit "text") d = Some text.



(** A world whose index has no neighbour to offer: every label of a
    search is the padding [-1]. *)
Definition finds_nothing : script := {|
  chat_replies := [];
  embed_replies := [embedding_reply];
  index_files := inr (tt, sample_metadata);
  search_rows := inr [((-1)%Z, FInf false); ((-1)%Z, FInf false)]
|}.

(** The decision the orchestrator reads off a verdict (line 177). *)
Definition decision_of (verdict : dict) : pyval :=
  match dict_lookup (lit "decision") verdict with
  | Some decision => decision
  | None => PStr (lit "sufficient")
  end.

(** The two messages one tool call adds to the conversation
    (lines 161-172). *)
Definition call_messages (tool_call tool_call_id : pyval) (tool_result : str)
  : list pyval :=
  [PDict [(lit "role", PStr (lit "assistant"));
          (lit "content", PNone);
          (lit "tool_calls", PList [tool_call])];
   tool_message tool_call_id tool_result].

(** [pair] is what the loop over the tool calls appends for
    [tool_call]: the call's own id and the result of executing it. *)
Definition answers_call `{Externals} (tool_call : pyval) (pair : list pyval)
  : Prop :=
  exists tool_call_id tool_result,
    py_getitem tool_call (lit "id") = inr tool_call_id
    /\ result_of_call tool_call tool_result
    /\ pair = call_messages tool_call tool_call_id tool_result.

(** The conversation a request body carries after its system message. *)
Definition posted_messages (body : pyval) : list pyval :=
  match body with
  | PDict d =>
      match dict_lookup (lit "messages") d with
      | Some (PList (_ :: messages)) => messages
      | _ => []
      end
  | _ => []
  end.

(** The conversations sent to the model by the orchestrator (the rounds
    and the synthesis; the critic's posts carry no conversation), in
    order. *)
Definition conversations (t : list event) : list (list pyval) :=
  map (fun p => posted_messages (fst p))
      (filter (fun p => negb (is_critic_call (fst p))) (chat_posts t)).

Definition extends {A} (shorter longer : list A) : Prop :=
  exists more, longer = shorter ++ more.

(** ** [document_processor.py]: pages and chunks

    The tokenizer [enc] (tiktoken's [cl100k_base]) and the PDF reader
    (PyMuPDF) are collaborators that only read; they are functions of
    what they are given. *)

Class Documents := {
  token : Type;
  (** [enc.encode(text)] *)
  encode : str -> res (list token);
  (** [enc.decode(tokens)] *)
  decode : list token -> str;
  pdf_dir : Type;
  pdf_path : Type;
  (** [pdf_path.name] and [pdf_path.stem] *)
  path_name : pdf_path -> str;
  path_stem : pdf_path -> str;
  (** [fitz.open(str(pdf_path))] and then, page by page,
      [doc[page_num].get_text("text")] *)
  read_pages : pdf_path -> res (list (res str));
  (** [sorted(pdf_dir.glob("*.pdf"))] *)
  sorted_pdfs : pdf_dir -> list pdf_path
}.

Definition CHUNK_SIZE : Z := 750.
Definition CHUNK_OVERLAP : Z := 100.

(** [l[start:stop]] for integers (a negative bound counts from the end,
    and bounds are clipped to the list). *)
Definition py_slice {A} (l : list A) (start stop : Z) : list A :=
  let n := Z.of_nat (List.length l) in
  let clip (i : Z) : Z :=
    let i := (if i <? 0 then i + n else i)%Z in
    (if i <? 0 then 0 else if n <? i then n else i)%Z in
  let lo := clip start in
  let hi := clip stop in
  firstn (Z.to_nat (hi - lo)) (skipn (Z.to_nat lo) l).

Section DocumentProcessor.
Context {D : Documents}.

(** Lines 22-31: the loop of [extract_text_from_pdf] over the pages;
    [page_num] counts from 0. *)
Fixpoint extract_pages (name : str) (page_num : Z) (texts : list (res str))
  (pages : list pyval) : res (list pyval) :=
  match texts with
  | [] => inr pages
  | inl e :: _ => inl e
  | inr text :: texts' =>
      extract_pages name (page_num + 1) texts'
        (if py_truthy (PStr (py_strip text))
         then pages ++ [PDict [(lit "filename", PStr name);
                               (lit "page_num", PInt (page_num + 1));
                               (lit "text", PStr (py_strip text))]]
         else pages)
  end.

Definition extract_text_from_pdf (path : pdf_path) : res (list pyval) :=
  and_then (read_pages path) (fun texts =>
  extract_pages (path_name path) 0 texts []).

Definition count_tokens (text : str) : res Z :=
  and_then (encode text) (fun tokens => inr (Z.of_nat (List.length tokens))).

(** Lines 50-60: the [while] loop of [chunk_text].  The loop need not
    end, so it runs on [fuel]; [None] says the fuel ran out. *)
Fixpoint chunk_loop (fuel : nat) (tokens : list token)
  (chunk_size overlap start : Z) (chunks : list str) : option (list str) :=
  match fuel with
  | O => None
  | S fuel' =>
      let n := Z.of_nat (List.length tokens) in
      if (start <? n)%Z then
        let stop := Z.min (start + chunk_size) n in
        let chunk_tokens := py_slice tokens start stop in
        let chunks := chunks ++ [decode chunk_tokens] in
        let start := (start + (chunk_size - overlap))%Z in
        if (n <=? start)%Z then Some chunks
        else chunk_loop fuel' tokens chunk_size overlap start chunks
      else Some chunks
  end.

Definition chunk_text (fuel : nat) (text : str) (chunk_size overlap : Z)
  : option (res (list str)) :=
  match encode text with
  | inl e => Some (inl e)
  | inr tokens =>
      if (Z.of_nat (List.length tokens) <=? chunk_size)%Z
      then Some (inr [text])
      else
        match chunk_loop fuel tokens chunk_size overlap 0 [] with
        | Some chunks => Some (inr chunks)
        | None => None
        end
  end.

(** Lines 73-81: the loop of [process_pdf] over the chunks of one page.
    It returns the grown list and the next [chunk_id]. *)
Fixpoint add_chunks (stem : str) (page : pyval) (page_chunks : list str)
  (chunk_id : Z) (chunks : list pyval) : res (list pyval * Z) :=
  match page_chunks with
  | [] => inr (chunks, chunk_id)
  | chunk_text_content :: rest =>
      and_then (py_getitem page (lit "filename")) (fun filename =>
      and_then (py_getitem page (lit "page_num")) (fun page_num =>
      and_then (count_tokens chunk_text_content) (fun token_count =>
      add_chunks stem page rest (chunk_id + 1)
        (chunks ++ [PDict [(lit "chunk_id",
                            PStr (stem ++ lit "_chunk_" ++ str_of_Z chunk_id));
                           (lit "filename", filename);
                           (lit "page_num", page_num);
                           (lit "text", PStr chunk_text_content);
                           (lit "token_count", PInt token_count)]]))))
  end.

(** Lines 70-81: the loop of [process_pdf] over the pages. *)
Fixpoint chunk_pages (fuel : nat) (stem : str) (pages : list pyval)
  (chunk_id : Z) (chunks : list pyval) : option (res (list pyval)) :=
  match pages with
  | [] => Some (inr chunks)
  | page :: rest =>
      match py_getitem page (lit "text") with
      | inl e => Some (inl e)
      | inr (PStr text) =>
          match chunk_text fuel text CHUNK_SIZE CHUNK_OVERLAP with
          | None => None
          | Some (inl e) => Some (inl e)
          | Some (inr page_chunks) =>
              match add_chunks stem page page_chunks chunk_id chunks with
              | inl e => Some (inl e)
              | inr (chunks, chunk_id) =>
                  chunk_pages fuel stem rest chunk_id chunks
              end
          end
      | inr _ => Some (inl TypeError)
      end
  end.

Definition process_pdf (fuel : nat) (path : pdf_path)
  : option (res (list pyval)) :=
  match extract_text_from_pdf path with
  | inl e => Some (inl e)
  | inr pages => chunk_pages fuel (path_stem path) pages 0 []
  end.

(** Lines 92-98: the loop of [process_all_pdfs]; whatever [process_pdf]
    raises is caught and the file is left out. *)
Fixpoint process_files (fuel : nat) (pdf_files : list pdf_path)
  (all_chunks : list pyval) : option (list pyval) :=
  match pdf_files with
  | [] => Some all_chunks
  | path :: rest =>
      match process_pdf fuel path with
      | None => None
      | Some (inl _) => process_files fuel rest all_chunks
      | Some (inr chunks) => process_files fuel rest (all_chunks ++ chunks)
      end
  end.

Definition process_all_pdfs (fuel : nat) (dir : pdf_dir)
  : option (list pyval) :=
  process_files fuel (sorted_pdfs dir) [].

End DocumentProcessor.

(** The windows of [size] tokens taken every [step] tokens. *)
Definition windows {A} (l : list A) (size step : nat) : list (list A) :=
  map (fun k => firstn size (skipn (k * step) l))
      (seq 0 (Nat.div (List.length l + step - 1) step)).

(** A sample tokenizer and file system: one token per code point; a
    file is its stem and what reading it gives; a directory is the
    sorted list of its files. *)
Definition sample_documents : Documents := {|
  token := N;
  encode := fun text => inr text;
  decode := fun tokens => tokens;
  pdf_dir := list (str * res (list (res str)));
  pdf_path := str * res (list (res str));
  path_name := fun p => fst p ++ lit ".pdf";
  path_stem := fun p => fst p;
  read_pages := fun p => snd p;
  sorted_pdfs := fun dir => dir
|}.

(** The record [extract_text_from_pdf] builds for the page at position
    [i] (from 0) of a document. *)
Definition page_record (name : str) (i : nat) (text : str) : pyval :=
  PDict [(lit "filename", PStr name);
         (lit "page_num", PInt (Z.of_nat i + 1));
         (lit "text", PStr (py_strip text))].

(** A sample file of three pages, the second one blank. *)
Definition sample_pdf : str * res (list (res str)) :=
  (lit "sp800-207",
   inr [inr (lit " Zero trust "); inr (lit "  "); inr (lit "Tenets")]).

Definition broken_pdf : str * res (list (res str)) :=
  (lit "broken", inl (ExternalError 2)).

(** The record [process_pdf] builds for the chunk numbered [n] of the
    file with stem [stem] and name [name]. *)
Definition chunk_numbered `{Documents} (stem name : str) (n : nat)
  (chunk : pyval) : Prop :=
  exists page_num text token_count,
    chunk = PDict [(lit "chunk_id",
                    PStr (stem ++ lit "_chunk_" ++ str_of_Z (Z.of_nat n)));
                   (lit "filename", PStr name);
                   (lit "page_num", PInt page_num);
                   (lit "text", PStr text);
                   (lit "token_count", PInt token_count)]
    /\ (1 <= page_num)%Z
    /\ count_tokens text = inr token_count.

(** The [chunk_id] field of each record. *)
Definition chunk_ids (chunks : list pyval) : list (res pyval) :=
  map (fun chunk => py_getitem chunk (lit "chunk_id")) chunks.

Definition is_page (name : str) (page : pyval) : Prop :=
  exists i text, page = page_record name i text.

(** What [process_all_pdfs] adds for one file: the chunks of a file that
    [process_pdf] handles, nothing for a file on which it raises. *)
Definition file_chunks `{Documents} (fuel : nat) (path : pdf_path)
  (chunks : list pyval) : Prop :=
  process_pdf fuel path = Some (inr chunks)
  \/ ((exists e, process_pdf fuel path = Some (inl e)) /\ chunks = []).

(** ** [vector_store.py]: building the index

    Building sleeps between calls, so its trace interleaves the events
    of the gateway with the sleeps; an exception raised while the
    handler of [embed_with_retry] runs is not caught by it. *)

Class Builder `{Externals} := {
  (** [time.sleep(seconds)] *)
  sleep : pyfloat -> world -> res unit * world;
  (** [np.array(embeddings, dtype=np.float32)], then
      [faiss.IndexFlatL2(EMBEDDING_DIM)] and [index.add] *)
  new_index : list pyval -> world -> res faiss_index * world
}.

Inductive build_exn :=
| Raised (e : exn)
| OverflowError.

Inductive build_event :=
| Gateway (ev : event)
| Slept (seconds : pyfloat) (outcome : res unit)
| IndexBuilt (embeddings : list pyval) (built : bool).

Definition BATCH_DELAY : pyfloat := FDec false 1 (-1).

Section Build.
Context {E : Externals} {BE : Builder}.

Definition B (A : Type) : Type :=
  state -> (build_exn + A) * state * list build_event.

Definition bret {A} (a : A) : B A := fun s => (inr a, s, []).

Definition bbind {A C} (m : B A) (f : A -> B C) : B C :=
  fun s =>
    match m s with
    | (inl e, s1, t1) => (inl e, s1, t1)
    | (inr a, s1, t1) =>
        match f a s1 with
        | (r, s2, t2) => (r, s2, t1 ++ t2)
        end
    end.

(** Code that may raise and touches no collaborator. *)
Definition blift {A} (r : res A) : B A :=
  fun s => (match r with inl e => inl (Raised e) | inr a => inr a end, s, []).

(** A call to a collaborator of the build. *)
Definition bcall {A} (f : world -> res A * world)
  (ev : res A -> build_event) : B A :=
  fun s =>
    match f (st_world s) with
    | (r, w') =>
        (match r with inl e => inl (Raised e) | inr a => inr a end,
         with_world s w', [ev r])
    end.

(** [(2 ** attempt) * 1.0]: the power of two is exact in a double up to
    [2 ** 1023]; beyond it the conversion raises. *)
Definition backoff (attempt : Z) : build_exn + pyfloat :=
  if (attempt <? 1024)%Z then inr (FDec false (2 ^ Z.to_N attempt) 0)
  else inl OverflowError.

(** Lines 26-36: the [for] loop of [embed_with_retry] over
    [range(max_retries)], [remaining] values from [attempt] on.  A value
    of [None] is [PNone]. *)
Fixpoint embed_attempts (remaining : nat) (attempt : Z) (text : pyval)
  (max_retries : Z) : B pyval :=
  match remaining with
  | O => bret PNone
  | S remaining' =>
      fun s =>
        match azure_embed text s with
        | (inr embedding, s1, t1) => (inr embedding, s1, map Gateway t1)
        | (inl _, s1, t1) =>
            match
              (if (attempt <? max_retries - 1)%Z then
                 match backoff attempt with
                 | inl e => fun s => (inl e, s, [])
                 | inr wait_time =>
                     bbind (bcall (sleep wait_time) (Slept wait_time))
                       (fun _ =>
                          embed_attempts remaining' (attempt + 1) text
                            max_retries)
                 end
               else bret PNone) s1
            with
            | (r, s2, t2) => (r, s2, map Gateway t1 ++ t2)
            end
        end
  end.

Definition embed_with_retry (text : pyval) (max_retries : Z) : B pyval :=
  embed_attempts (Z.to_nat max_retries) 0 text max_retries.

(** Lines 46-64: the loop of [build_index] over the chunks. *)
Fixpoint embed_chunks (chunks : list pyval)
  (embeddings metadata : list pyval) : B (list pyval * list pyval) :=
  match chunks with
  | [] => bret (embeddings, metadata)
  | chunk :: rest =>
      bbind (blift (py_getitem chunk (lit "text"))) (fun text =>
      bbind (embed_with_retry text 3) (fun embedding =>
      match embedding with
      | PNone => embed_chunks rest embeddings metadata
      | _ =>
          let embeddings := embeddings ++ [embedding] in
          bbind (blift (py_getitem chunk (lit "chunk_id"))) (fun chunk_id =>
          bbind (blift (py_getitem chunk (lit "filename"))) (fun filename =>
          bbind (blift (py_getitem chunk (lit "page_num"))) (fun page_num =>
          bbind (blift (py_getitem chunk (lit "text"))) (fun text =>
          let metadata :=
            metadata ++ [PDict [(lit "chunk_id", chunk_id);
                                (lit "filename", filename);
                                (lit "page_num", page_num);
                                (lit "text", text)]] in
          bbind (bcall (sleep BATCH_DELAY) (Slept BATCH_DELAY)) (fun _ =>
          embed_chunks rest embeddings metadata)))))
      end))
  end.

Definition build_index (chunks : list pyval) : B (faiss_index * list pyval) :=
  bbind (embed_chunks chunks [] []) (fun em =>
  bbind (bcall (new_index (fst em))
               (fun r => IndexBuilt (fst em)
                           (match r with inr _ => true | inl _ => false end)))
        (fun index =>
  bret (index, snd em))).

End Build.

(** The requests for an embedding in a trace of a build, each with its
    reply, and the sleeps. *)
Fixpoint embed_posts (t : list build_event) : list (pyval * res pyval) :=
  match t with
  | [] => []
  | Gateway (EvEmbedPost body reply) :: t' => (body, reply) :: embed_posts t'
  | _ :: t' => embed_posts t'
  end.

Fixpoint sleeps_of (t : list build_event) : list pyfloat :=
  match t with
  | [] => []
  | Slept seconds _ :: t' => seconds :: sleeps_of t'
  | _ :: t' => sleeps_of t'
  end.

(** What [azure_embed] makes of the endpoint's reply. *)
Definition embedding_of (reply : res pyval) : res pyval :=
  and_then reply (fun data => first_of data "data" "embedding").

Definition attempt_failed (post : pyval * res pyval) : Prop :=
  exists e, embedding_of (snd post) = inl e.

(** The build collaborators of the scripted world: sleeping and building
    the index always work. *)
Definition scripted_builder : @Builder scripted := {|
  sleep := fun _ w => (inr tt, w);
  new_index := fun _ w => (@inr exn (@faiss_index scripted) tt, w)
|}.

(** A world whose embedding endpoint fails twice before it answers. *)
Definition flaky_script : script := {|
  chat_replies := [];
  embed_replies := [inl (ExternalError 429); inl (ExternalError 429);
                    embedding_reply];
  index_files := inr (tt, sample_metadata);
  search_rows := inr []
|}.

(** A world whose embedding endpoint is down. *)
Definition down_script : script := {|
  chat_replies := [];
  embed_replies := [];
  index_files := inr (tt, sample_metadata);
  search_rows := inr []
|}.

(** Vector [embedding] is what the endpoint returned, in the trace [t],
    for the text of [record], and [record] copies the four fields of one
    of [chunks]. *)
Definition aligned (t : list build_event) (chunks : list pyval)
  (embedding record : pyval) : Prop :=
  chunk_record record
  /\ (exists text reply,
        py_getitem record (lit "text") = inr text
        /\ In (Gateway (EvEmbedPost (PDict [(lit "input", text)]) reply)) t
        /\ embedding_of reply = inr embedding)
  /\ (exists chunk chunk_id filename page_num text,
        In chunk chunks
        /\ py_getitem chunk (lit "chunk_id") = inr chunk_id
        /\ py_getitem chunk (lit "filename") = inr filename
        /\ py_getitem chunk (lit "page_num") = inr page_num
        /\ py_getitem chunk (lit "text") = inr text
        /\ record = PDict [(lit "chunk_id", chunk_id);
                           (lit "filename", filename);
                           (lit "page_num", page_num);
                           (lit "text", text)]).

(** ** [chat.py]: the interactive session

    [input] either returns the line typed, or raises [EOFError] at the
    end of the input, or is interrupted ([KeyboardInterrupt], which is
    not an [Exception]).  [print] is recorded for the answers and the
    error reports only. *)

Inductive input_outcome :=
| Typed (line : str)
| EndOfInput
| Interrupted.

Class Console `{Externals} := {
  (** [input("\n[You]: ")] *)
  read_input : world -> input_outcome * world;
  (** [str.lower] *)
  lower : str -> str;
  (** [isinstance(e, FileNotFoundError)] *)
  file_not_found : exn -> bool
}.

(** What the handler of line 45 reports. *)
Inductive reported :=
| AgentError (e : exn)
| EOFError.

Inductive chat_event :=
| Agent (ev : event)
| Asked (outcome : input_outcome)
| Answered (answer : pyval)
| Reported (e : reported).

(** How [main] ends. *)
Inductive main_exit :=
| Goodbye
| SystemExit (code : Z)
| Uncaught (e : exn).

Inductive turn_exit := Stop | Again.

Section Chat.
Context {E : Externals} {C : Console}.

Definition is_exit_command (user_input : str) : bool :=
  let lowered := lower user_input in
  str_eqb lowered (lit "quit") || str_eqb lowered (lit "exit")
  || str_eqb lowered (lit "q").

(** Lines 23-47: one round of the [while True] loop. *)
Definition chat_turn (s : state) : turn_exit * state * list chat_event :=
  match read_input (st_world s) with
  | (Interrupted, w) => (Stop, with_world s w, [Asked Interrupted])
  | (EndOfInput, w) =>
      (Again, with_world s w, [Asked EndOfInput; Reported EOFError])
  | (Typed line, w) =>
      let s1 := with_world s w in
      let user_input := py_strip line in
      if is_exit_command user_input then (Stop, s1, [Asked (Typed line)])
      else
        match user_input with
        | [] => (Again, s1, [Asked (Typed line)])
        | _ :: _ =>
            match agentic_rag user_input 3 s1 with
            | (inr answer, s2, t) =>
                (Again, s2, Asked (Typed line) :: map Agent t ++ [Answered answer])
            | (inl e, s2, t) =>
                (Again, s2,
                 Asked (Typed line) :: map Agent t ++ [Reported (AgentError e)])
            end
        end
  end.

(** Lines 22-47.  The loop ends only on an exit command or an
    interrupt, so it runs on [fuel], one unit per round; [None] says the
    fuel ran out. *)
Fixpoint chat_loop (fuel : nat) (s : state)
  : option (state * list chat_event) :=
  match fuel with
  | O => None
  | S fuel' =>
      match chat_turn s with
      | (Stop, s1, t1) => Some (s1, t1)
      | (Again, s1, t1) =>
          match chat_loop fuel' s1 with
          | Some (s2, t2) => Some (s2, t1 ++ t2)
          | None => None
          end
      end
  end.

Definition main (fuel : nat) (s : state)
  : option (main_exit * state * list chat_event) :=
  match load_index s with
  | (inl e, s1, t) =>
      Some (if file_not_found e then SystemExit 1 else Uncaught e,
            s1, map Agent t)
  | (inr (index, metadata), s1, t) =>
      match py_len metadata with
      | inl e => Some (Uncaught e, s1, map Agent t)
      | inr _ =>
          match chat_loop fuel s1 with
          | Some (s2, t2) => Some (Goodbye, s2, map Agent t ++ t2)
          | None => None
          end
      end
  end.

End Chat.



(** The events of the agent in a session. *)
Fixpoint agent_events (t : list chat_event) : list event :=
  match t with
  | [] => []
  | Agent ev :: t' => ev :: agent_events t'
  | _ :: t' => agent_events t'
  end.



(** The scripted world with a console: the lines still to be typed are
    part of the world; after the last one the input is at its end. *)
Definition session : Externals := {|
  world := script * list input_outcome;
  faiss_index := unit;
  post_chat := fun body (w : script * list input_outcome) =>
    let '(r, w') := @post_chat scripted body (fst w) in (r, (w', snd w));
  post_embed := fun body (w : script * list input_outcome) =>
    let '(r, w') := @post_embed scripted body (fst w) in (r, (w', snd w));
  read_index_files := fun (w : script * list input_outcome) =>
    (index_files (fst w), w);
  index_search := fun _ _ _ (w : script * list input_outcome) =>
    (search_rows (fst w), w);
  py_repr := fun _ => lit "<repr>"
|}.

Definition ascii_lower (s : str) : str :=
  map (fun c => if (65 <=? c) && (c <=? 90) then c + 32 else c) s.

Definition session_read (w : script * list input_outcome)
  : input_outcome * (script * list input_outcome) :=
  match snd w with
  | outcome :: rest => (outcome, (fst w, rest))
  | [] => (EndOfInput, w)
  end.

Definition session_console : @Console session :=
  @Build_Console session session_read ascii_lower
    (fun e => match e with
              | ExternalError 2 => true
              | _ => false
              end).

Definition session_start (chat : list (res pyval))
  (inputs : list input_outcome) : @state session :=
  @Build_state session (sample_script chat, inputs) None.


Definition warm_session (chat : list (res pyval))
  (inputs : list input_outcome) : @state session :=
  @Build_state session (sample_script chat, inputs)
    (Some (tt, sample_metadata)).

(** The successful readings of the index files in a trace, and the
    searches. *)
Definition loaded_index (ev : event) : bool :=
  match ev with
  | EvReadIndex true => true
  | _ => false
  end.

Definition loads (t : list event) : nat :=
  List.length (filter loaded_index t).

Definition searches (ev : event) : bool :=
  match ev with
  | EvSearch _ _ _ => true
  | _ => false
  end.

(** A computation that, started with the module globals unset, reads
    the index files before it searches the index or sets the globals. *)
Definition reloads `{Externals} {A} (m : M A) : Prop :=
  forall s r s' t,
    m s = (r, s', t) ->
    st_index s = None ->
    st_index s' <> None \/ existsb searches t = true ->
    (1 <= loads t)%nat.

(** * Properties *)

(** ** Sample runs of the JSON decoder *)

Example json_loads_verdict :
  json_loads (jq "{'decision': 'needs_refinement', 'reasoning': 'partial', 'refined_query': 'zero trust tenets'}")
  = inr (PDict [(lit "decision", PStr (lit "needs_refinement"));
                (lit "reasoning", PStr (lit "partial"));
                (lit "refined_query", PStr (lit "zero trust tenets"))]).
Proof. vm_compute. reflexivity. Qed.

Example json_loads_misc :
  json_loads (jq " [1, -2.50e1, true, null, {'a': 'x\n', 'a': []}] ")
  = inr (PList [PInt 1; PFloat (FDec true 250 (-1)); PBool true; PNone;
                PDict [(lit "a", PList [])]]).
Proof. vm_compute. reflexivity. Qed.

Example json_loads_truncated :
  json_loads (jq "{'decision': 'suff")
  = inl (JSONDecodeError "Unterminated string starting at").
Proof. vm_compute. reflexivity. Qed.

(** ** Sample runs of the orchestrator *)

Example run_end_to_end :
  let '(r, _, t) :=
    @agentic_rag scripted
      (lit "What is zero trust architecture according to NIST?") 3
      (start (sample_script
                [asks_tools [search_call (lit "call_1")];
                 says (jq "{'decision': 'sufficient', 'reasoning': 'ok', 'refined_query': null}");
                 says (lit "Zero trust is ... [sp800-207.pdf, Page 3]")])) in
  r = inr (PStr (lit "Zero trust is ... [sp800-207.pdf, Page 3]"))
  /\ chat_kinds t = [ToolRound; CriticCall; SynthesisCall].
Proof. vm_compute. split; reflexivity. Qed.

Example loads_then_truthy :
  map py_truthy [PFloat (FDec false 0 (-1)); PFloat (FDec false 1 (-400));
                 PFloat (FDec false 5 (-324)); PStr []; PList []; PInt 0;
                 PStr (lit "0"); PNone]
  = [false; false; true; false; false; false; true; false].
Proof. vm_compute. reflexivity. Qed.

Example clean_fenced_reply :
  clean_response (PStr (jq "  ```json
{'decision': 'sufficient'}
```
"))
  = inr (jq "{'decision': 'sufficient'}").
Proof. vm_compute. reflexivity. Qed.

Example format_no_results :
  @format_context scripted [] = inr (lit "No relevant information found.").
Proof. reflexivity. Qed.

(** The counting loop: [rounds_left] is zero exactly when the test of the
    [while] statement fails, and a round takes one off. *)
Lemma rounds_left_test (max_iterations iteration : Z) :
  (iteration <? max_iterations)%Z
  = negb (Nat.eqb (Z.to_nat (max_iterations - iteration)) 0).
Proof.
  destruct (Z.ltb_spec iteration max_iterations) as [Hlt|Hge].
  - destruct (Z.to_nat (max_iterations - iteration)) eqn:Hn; [lia|reflexivity].
  - now replace (Z.to_nat (max_iterations - iteration)) with 0%nat by lia.
Qed.

Lemma rounds_left_step (max_iterations iteration : Z) :
  (iteration < max_iterations)%Z ->
  Z.to_nat (max_iterations - iteration)
  = S (Z.to_nat (max_iterations - (iteration + 1))).
Proof. lia. Qed.

(** ** Strings *)

Lemma str_eqb_refl (a : str) : str_eqb a a = true.
Proof.
  induction a as [|x a IH]; simpl; [reflexivity|].
  now rewrite N.eqb_refl, IH.
Qed.

Lemma str_eqb_eq (a b : str) : str_eqb a b = true <-> a = b.
Proof.
  split; [|intros ->; apply str_eqb_refl].
  revert b; induction a as [|x a IH]; intros [|y b]; simpl; try discriminate;
    [reflexivity|].
  intros H; apply andb_true_iff in H as [Hx Hr].
  apply N.eqb_eq in Hx; subst; f_equal; auto.
Qed.

Lemma str_eqb_neq (a b : str) : a <> b -> str_eqb a b = false.
Proof.
  intros Hne; destruct (str_eqb a b) eqn:Heq; [|reflexivity].
  now apply str_eqb_eq in Heq.
Qed.

(** ** Running computations *)

Section Running.
Context {E : Externals}.

Lemma bind_ret {A B} (a : A) (f : A -> M B) (s : state) :
  bind (ret a) f s = f a s.
Proof. unfold bind, ret. now destruct (f a s) as [[r s2] t2]. Qed.

Lemma bind_lift_ok {A B} (a : A) (f : A -> M B) (s : state) :
  bind (lift (inr a)) f s = f a s.
Proof. unfold bind, lift. now destruct (f a s) as [[r s2] t2]. Qed.


Lemma bind_assoc {A B C} (m : M A) (f : A -> M B) (g : B -> M C) (s : state) :
  bind (bind m f) g s = bind m (fun a => bind (f a) g) s.
Proof.
  unfold bind. destruct (m s) as [[[e|a] s1] t1]; [reflexivity|].
  destruct (f a s1) as [[[e|b] s2] t2]; [reflexivity|].
  destruct (g b s2) as [[r s3] t3]. now rewrite app_assoc.
Qed.

End Running.


(** ** The gateway functions *)

Section Gateway.
Context {E : Externals}.

Lemma azure_chat_run (prompt system_prompt : str) (s : state) :
  azure_chat prompt system_prompt s =
  let body := chat_body prompt system_prompt in
  let '(reply, w') := post_chat body (st_world s) in
  (and_then reply chat_content, with_world s w', [EvChatPost body reply]).
Proof.
  unfold azure_chat, bind, call, lift; simpl.
  now destruct (post_chat _ _) as [[e|data] w'].
Qed.

Lemma azure_chat_with_tools_run (messages : list pyval) (tools : pyval)
  (system_prompt : str) (s : state) :
  azure_chat_with_tools messages tools system_prompt s =
  let body := tools_body messages tools system_prompt in
  let '(reply, w') := post_chat body (st_world s) in
  (and_then reply chat_message, with_world s w', [EvChatPost body reply]).
Proof.
  unfold azure_chat_with_tools, bind, call, lift; simpl.
  now destruct (post_chat _ _) as [[e|data] w'].
Qed.

Lemma critic_evaluate_run (query context : str) (s : state) :
  critic_evaluate query context s =
  let body := chat_body (critic_prompt query context) CRITIC_SYSTEM_PROMPT in
  let '(reply, w') := post_chat body (st_world s) in
  (critic_outcome reply, with_world s w', [EvChatPost body reply]).
Proof.
  unfold critic_evaluate, bind. rewrite azure_chat_run. simpl.
  destruct (post_chat _ _) as [[e|data] w']; simpl; [reflexivity|].
  unfold critic_outcome; simpl.
  now destruct (chat_content data) as [e|response].
Qed.

Lemma kind_of_critic_body (prompt : str) :
  chat_kind_of (chat_body prompt CRITIC_SYSTEM_PROMPT) = CriticCall.
Proof.
  unfold chat_kind_of, chat_body.
  change (has_tools _) with false.
  change (system_prompt_of _) with (Some CRITIC_SYSTEM_PROMPT).
  cbv beta iota. now rewrite str_eqb_refl.
Qed.

Lemma kind_of_round_body (messages : list pyval) :
  chat_kind_of (tools_body messages TOOLS AGENT_SYSTEM_PROMPT) = ToolRound.
Proof. reflexivity. Qed.

Lemma kind_of_synthesis_body (messages : list pyval) :
  chat_kind_of (tools_body messages PNone AGENT_SYSTEM_PROMPT) = SynthesisCall.
Proof.
  unfold chat_kind_of, tools_body.
  change (has_tools _) with false.
  change (system_prompt_of _) with (Some AGENT_SYSTEM_PROMPT).
  cbv beta iota.
  now replace (str_eqb AGENT_SYSTEM_PROMPT CRITIC_SYSTEM_PROMPT) with false
    by (vm_compute; reflexivity).
Qed.

End Gateway.

(** ** Traces *)

Lemma chat_posts_app (t1 t2 : list event) :
  chat_posts (t1 ++ t2) = chat_posts t1 ++ chat_posts t2.
Proof.
  induction t1 as [|ev t1 IH]; simpl; [reflexivity|].
  destruct ev; simpl; now rewrite ?IH.
Qed.

Lemma chat_kinds_app (t1 t2 : list event) :
  chat_kinds (t1 ++ t2) = chat_kinds t1 ++ chat_kinds t2.
Proof. unfold chat_kinds. now rewrite chat_posts_app, map_app. Qed.

Lemma critic_outcomes_app (t1 t2 : list event) :
  critic_outcomes (t1 ++ t2) = critic_outcomes t1 ++ critic_outcomes t2.
Proof.
  unfold critic_outcomes, critic_replies.
  now rewrite chat_posts_app, filter_app, !map_app.
Qed.

Lemma chat_kinds_quiet (t : list event) : chat_posts t = [] -> chat_kinds t = [].
Proof. unfold chat_kinds. now intros ->. Qed.

Lemma critic_outcomes_quiet (t : list event) :
  chat_posts t = [] -> critic_outcomes t = [].
Proof. unfold critic_outcomes, critic_replies. now intros ->. Qed.

Section Quiet.
Context {E : Externals}.

Lemma bind_inv {A B} (m : M A) (f : A -> M B) (s : state) r s' t :
  bind m f s = (r, s', t) ->
  (exists e, m s = (inl e, s', t) /\ r = inl e)
  \/ (exists a s1 t1 t2,
        m s = (inr a, s1, t1) /\ f a s1 = (r, s', t2) /\ t = t1 ++ t2).
Proof.
  unfold bind. destruct (m s) as [[[e|a] s1] t1].
  - intros [= <- <- <-]. left. now exists e.
  - destruct (f a s1) as [[r2 s2] t2] eqn:Hf. intros [= <- <- <-].
    right. now exists a, s1, t1, t2.
Qed.

Lemma quiet_ret {A} (a : A) : quiet (ret a).
Proof. now intros s r s' t [= <- <- <-]. Qed.

Lemma quiet_lift {A} (x : res A) : quiet (lift x).
Proof. now intros s r s' t [= <- <- <-]. Qed.

Lemma quiet_bind {A B} (m : M A) (f : A -> M B) :
  quiet m -> (forall a, quiet (f a)) -> quiet (bind m f).
Proof.
  intros Hm Hf s r s' t Hrun.
  apply bind_inv in Hrun as [(e & Hms & _)|(a & s1 & t1 & t2 & Hms & Hfs & ->)].
  - eapply Hm; eauto.
  - rewrite chat_posts_app. erewrite Hm, Hf; eauto.
Qed.

Lemma quiet_call {A} (f : world -> res A * world) (ev : res A -> event) :
  (forall r, chat_posts [ev r] = []) -> quiet (call f ev).
Proof.
  intros Hev s r s' t. unfold call.
  destruct (f (st_world s)) as [r0 w']. intros [= <- <- <-]. apply Hev.
Qed.

Ltac quiet_steps :=
  repeat first
    [ apply quiet_ret
    | apply quiet_lift
    | apply quiet_call; reflexivity
    | apply quiet_bind; [|intros ?] ].

Lemma quiet_load_index : quiet load_index.
Proof. unfold load_index. quiet_steps. Qed.

Lemma quiet_get_index : quiet get_index.
Proof.
  unfold get_index. apply quiet_bind.
  - now intros s r s' t [= <- <- <-].
  - intros [im|]; [apply quiet_ret|].
    apply quiet_bind; [apply quiet_load_index|intros im].
    apply quiet_bind; [|intros ?; apply quiet_ret].
    now intros s r s' t [= <- <- <-].
Qed.

Lemma quiet_azure_embed (text : pyval) : quiet (azure_embed text).
Proof. unfold azure_embed. quiet_steps. Qed.

Lemma quiet_collect_results (metadata : pyval) rows results :
  quiet (collect_results metadata rows results).
Proof.
  revert results. induction rows as [|[idx distance] rows IH]; intros results;
    simpl; [apply quiet_ret|].
  apply quiet_bind.
  - destruct (idx <? 0)%Z; quiet_steps.
  - intros [|]; [apply IH|]. quiet_steps. apply IH.
Qed.

Lemma quiet_retrieve query top_k index metadata :
  quiet (retrieve query top_k index metadata).
Proof.
  unfold retrieve. apply quiet_bind.
  - destruct index, metadata; first [apply quiet_load_index | apply quiet_ret].
  - intros [i m]. apply quiet_bind; [apply quiet_azure_embed|intros emb].
    apply quiet_bind; [apply quiet_call; reflexivity|intros rows].
    apply quiet_collect_results.
Qed.

Lemma quiet_execute_tool (tool_name arguments : pyval) :
  quiet (execute_tool tool_name arguments).
Proof.
  unfold execute_tool. destruct (py_eq_str _ _); [|apply quiet_ret].
  apply quiet_bind; [apply quiet_lift|intros query].
  apply quiet_bind; [apply quiet_lift|intros top_k].
  apply quiet_bind; [apply quiet_get_index|intros [index metadata]].
  apply quiet_bind; [apply quiet_retrieve|intros results].
  apply quiet_lift.
Qed.

Lemma quiet_run_tool_calls calls messages context :
  quiet (run_tool_calls calls messages context).
Proof.
  revert messages context.
  induction calls as [|tool_call rest IH]; intros messages context; simpl;
    [apply quiet_ret|].
  do 4 (apply quiet_bind; [apply quiet_lift|intros ?]).
  apply quiet_bind; [apply quiet_execute_tool|intros tool_result].
  apply quiet_bind; [apply quiet_lift|intros tool_call_id].
  apply IH.
Qed.

End Quiet.

(** ** Tool results are never empty *)

Section ToolResults.
Context {E : Externals}.

Lemma format_context_nonempty (results : list pyval) (c : str) :
  format_context results = inr c -> c <> [].
Proof.
  unfold format_context. destruct results as [|r rs]; [now intros [= <-]|].
  cbn [context_parts].
  destruct (py_getitem r (lit "citation")) as [e|citation]; [discriminate|].
  destruct (py_getitem r (lit "text")) as [e|text]; [discriminate|].
  destruct (context_parts _ rs) as [e|parts]; [discriminate|].
  intros [= <-]. destruct parts; discriminate.
Qed.

Lemma execute_tool_nonempty tool_name arguments (s : state) c s' t :
  execute_tool tool_name arguments s = (inr c, s', t) -> c <> [].
Proof.
  unfold execute_tool. destruct (py_eq_str _ _).
  - intros H.
    apply bind_inv in H as [(e & _ & [=])|(query & s1 & t1 & t2 & _ & H & _)].
    apply bind_inv in H as [(e & _ & [=])|(top_k & s2 & t3 & t4 & _ & H & _)].
    apply bind_inv in H as [(e & _ & [=])|([index metadata] & s3 & t5 & t6 & _ & H & _)].
    apply bind_inv in H as [(e & _ & [=])|(results & s4 & t7 & t8 & _ & H & _)].
    unfold lift in H. injection H as H _ _.
    now apply format_context_nonempty in H.
  - intros [= <- _ _]. discriminate.
Qed.

Lemma run_tool_calls_context calls messages context (s : state)
  messages' context' s' t :
  run_tool_calls calls messages context s = (inr (messages', context'), s', t) ->
  (calls = [] /\ context' = context)
  \/ (exists c cs, context' = Some (c :: cs)).
Proof.
  revert messages context s t.
  induction calls as [|tool_call rest IH]; intros messages context s t; simpl.
  - intros [= <- <- <- <-]. now left.
  - intros H. right.
    apply bind_inv in H as [(e & _ & [=])|(fn & s1 & t1 & t2 & _ & H & _)].
    apply bind_inv in H as [(e & _ & [=])|(name & s2 & t3 & t4 & _ & H & _)].
    apply bind_inv in H as [(e & _ & [=])|(payload & s3 & t5 & t6 & _ & H & _)].
    apply bind_inv in H as [(e & _ & [=])|(arguments & s4 & t7 & t8 & _ & H & _)].
    apply bind_inv in H as [(e & _ & [=])|(tool_result & s5 & t9 & t10 & Hx & H & _)].
    apply bind_inv in H as [(e & _ & [=])|(id & s6 & t11 & t12 & _ & H & _)].
    apply execute_tool_nonempty in Hx.
    apply IH in H as [[_ ->]|Hne]; [|assumption].
    destruct tool_result as [|c cs]; [contradiction|]. now exists c, cs.
Qed.

End ToolResults.

(** ** What the critic returns is a dict *)

Lemma critic_log_record_dict (result : pyval) :
  critic_log_record result = inr tt -> exists d, result = PDict d.
Proof.
  unfold critic_log_record. destruct result; simpl; try discriminate.
  intros _. now eexists.
Qed.

Lemma critic_verdict_dict (response verdict : pyval) :
  critic_verdict response = inr verdict -> exists d, verdict = PDict d.
Proof.
  unfold critic_verdict, critic_try.
  destruct (clean_response response) as [e|cleaned]; simpl.
  { destruct (is_JSONDecodeError e); [|discriminate].
    intros [= <-]. now eexists. }
  destruct (json_loads cleaned) as [e|result]; simpl.
  { destruct (is_JSONDecodeError e); [|discriminate].
    intros [= <-]. now eexists. }
  destruct (critic_log_record result) as [e|[]] eqn:Hlog; simpl.
  { destruct (is_JSONDecodeError e); [|discriminate].
    intros [= <-]. now eexists. }
  intros [= <-]. now apply critic_log_record_dict.
Qed.

Lemma critic_outcome_dict (reply : res pyval) (verdict : pyval) :
  critic_outcome reply = inr verdict -> exists d, verdict = PDict d.
Proof.
  unfold critic_outcome. destruct reply as [e|data]; simpl; [discriminate|].
  destruct (chat_content data) as [e|response]; simpl; [discriminate|].
  apply critic_verdict_dict.
Qed.

(** ** Python values *)

Lemma py_get_dict (d : dict) (k : str) (default : pyval) :
  py_get (PDict d) k default
  = inr (match dict_lookup k d with Some x => x | None => default end).
Proof. unfold py_get. now destruct (dict_lookup k d). Qed.

Lemma py_iter_truthy (v : pyval) (calls : list pyval) :
  py_truthy v = true -> py_iter v = inr calls -> calls <> [].
Proof.
  destruct v as [| | | |s|l|d]; simpl; try discriminate.
  - destruct s; [discriminate|]. now intros _ [= <-].
  - destruct l; [discriminate|]. now intros _ [= <-].
  - destruct d; [discriminate|]. now intros _ [= <-].
Qed.
(** ** One round of the loop *)

Section Round.
Context {E : Externals}.

Lemma round_post (messages : list pyval) (reply : res pyval) :
  let t := [EvChatPost (tools_body messages TOOLS AGENT_SYSTEM_PROMPT) reply] in
  chat_kinds t = [ToolRound] /\ critic_outcomes t = [].
Proof. split; reflexivity. Qed.

Lemma critic_post (prompt : str) (reply : res pyval) :
  let t := [EvChatPost (chat_body prompt CRITIC_SYSTEM_PROMPT) reply] in
  chat_kinds t = [CriticCall] /\ critic_outcomes t = [critic_outcome reply].
Proof.
  unfold chat_kinds, critic_outcomes, critic_replies, is_critic_call; simpl.
  now rewrite kind_of_critic_body.
Qed.

Lemma synthesis_post (messages : list pyval) (reply : res pyval) :
  let t := [EvChatPost (tools_body messages PNone AGENT_SYSTEM_PROMPT) reply] in
  chat_kinds t = [SynthesisCall] /\ critic_outcomes t = [].
Proof.
  unfold chat_kinds, critic_outcomes, critic_replies, is_critic_call; simpl.
  now rewrite kind_of_synthesis_body.
Qed.

Lemma agent_round_cases user_query messages context (s : state) r s' t :
  agent_round user_query messages context s = (r, s', t) ->
  (chat_kinds t = [ToolRound] /\ critic_outcomes t = []
   /\ ((exists e, r = inl e) \/ (exists v, r = inr (Return v))))
  \/ (exists o,
        chat_kinds t = [ToolRound; CriticCall] /\ critic_outcomes t = [o]
        /\ match o with
           | inl e => r = inl e
           | inr v => if approves v
                      then exists m c, r = inr (Break m c)
                      else exists m c, r = inr (Continue m c)
           end).
Proof.
  unfold agent_round. intros H.
  apply bind_inv in H as [(e & H & ->)|(response & s1 & t1 & t2 & H1 & H & ->)].
  { rewrite azure_chat_with_tools_run in H. simpl in H.
    destruct (post_chat _ _) as [reply w']. injection H as _ _ <-.
    left. destruct (round_post messages reply) as [-> ->]. eauto 6. }
  rewrite azure_chat_with_tools_run in H1. simpl in H1.
  destruct (post_chat _ _) as [reply w']. injection H1 as _ _ <-.
  rewrite chat_kinds_app, critic_outcomes_app.
  destruct (round_post messages reply) as [-> ->]. simpl.
  clear reply.
  apply bind_inv in H as [(e & H & ->)|(tool_calls & s2 & t3 & t4 & H2 & H & ->)].
  { injection H as _ _ <-. left. eauto 6. }
  injection H2 as _ _ <-. simpl.
  destruct (py_truthy tool_calls) eqn:Htruthy.
  2:{ apply bind_inv in H as [(e & H & ->)|(v & s3 & t5 & t6 & H3 & H & ->)].
      - injection H as _ _ <-. left; eauto 6.
      - injection H3 as _ _ <-. injection H as <- _ <-. left; eauto 6. }
  apply bind_inv in H as [(e & H & ->)|(calls & s3 & t5 & t6 & H3 & H & ->)].
  { injection H as _ _ <-. left; eauto 6. }
  injection H3 as Hiter _ <-. simpl.
  apply bind_inv in H as [(e & H & ->)|([msgs ctx] & s4 & t7 & t8 & H4 & H & ->)].
  { apply quiet_run_tool_calls in H. left.
    rewrite (chat_kinds_quiet _ H), (critic_outcomes_quiet _ H). eauto 6. }
  pose proof (quiet_run_tool_calls _ _ _ _ _ _ _ H4) as Hq.
  rewrite chat_kinds_app, critic_outcomes_app.
  rewrite (chat_kinds_quiet _ Hq), (critic_outcomes_quiet _ Hq). simpl.
  apply run_tool_calls_context in H4 as [[-> _]|(c & cs & ->)].
  { now apply py_iter_truthy in Hiter. }
  clear Hq Hiter Htruthy.
  apply bind_inv in H as [(e & H & ->)|(verdict & s5 & t9 & t10 & H5 & H & ->)].
  { rewrite critic_evaluate_run in H. simpl in H.
    destruct (post_chat _ _) as [reply w'']. injection H as Ho _ <-.
    right. exists (critic_outcome reply).
    destruct (critic_post (critic_prompt user_query (c :: cs)) reply) as [-> ->].
    rewrite Ho. auto. }
  rewrite critic_evaluate_run in H5. simpl in H5.
  destruct (post_chat _ _) as [reply w'']. injection H5 as Ho _ <-.
  right. exists (critic_outcome reply).
  rewrite chat_kinds_app, critic_outcomes_app.
  destruct (critic_post (critic_prompt user_query (c :: cs)) reply) as [-> ->].
  rewrite Ho.
  destruct (critic_outcome_dict _ _ Ho) as [d ->]. clear Ho.
  unfold approves. rewrite py_get_dict in *. rewrite bind_lift_ok in H.
  destruct (py_eq_str _ (lit "sufficient")).
  { injection H as <- _ <-. simpl. eauto. }
  destruct (py_eq_str _ (lit "needs_refinement")).
  - rewrite bind_assoc, py_get_dict, bind_lift_ok, bind_ret in H.
    unfold py_getitem in H.
    destruct (dict_lookup (lit "refined_query") d) as [x|]; simpl in H.
    + destruct (py_truthy x).
      * rewrite bind_lift_ok in H. injection H as <- _ <-. simpl. eauto.
      * injection H as <- _ <-. simpl. eauto.
    + injection H as <- _ <-. simpl. eauto.
  - rewrite bind_ret in H. injection H as <- _ <-. simpl. eauto.
Qed.

End Round.

(** ** The loop *)

Section Loop.
Context {E : Externals}.

Lemma agent_loop_approved n user_query iteration messages context
  (s : state) r s' t i v :
  agent_loop n user_query iteration messages context s = (r, s', t) ->
  nth_error (critic_outcomes t) i = Some (inr v) ->
  approves v = true ->
  chat_kinds t = rounds (S i)
  /\ (exists m c, r = inr (LoopDone m c))
  /\ (S i <= n)%nat.
Proof.
  revert iteration messages context s t i.
  induction n as [|n IH]; intros iteration messages context s t i; simpl.
  { intros [= <- <- <-]. now destruct i. }
  intros H Hi Hv.
  apply bind_inv in H as [(e & H & ->)|(out & s1 & t1 & t2 & H1 & H & ->)].
  - apply agent_round_cases in H
      as [(_ & Ho & _)|(o & _ & Ho & Hr)]; rewrite Ho in Hi.
    + now destruct i.
    + destruct i as [|i]; [|now destruct i]. injection Hi as ->.
      rewrite Hv in Hr. now destruct Hr as (m & c & [=]).
  - rewrite critic_outcomes_app in Hi. rewrite chat_kinds_app.
    apply agent_round_cases in H1
      as [(_ & Ho & [[e [=]]|[x [= ->]]])|(o & -> & Ho & Hr)]; rewrite Ho in Hi.
    + injection H as <- _ <-. now destruct i.
    + destruct i as [|i]; simpl in Hi.
      * injection Hi as ->. rewrite Hv in Hr. destruct Hr as (m & c & [= ->]).
        injection H as <- _ <-. simpl. repeat split; eauto. lia.
      * destruct o as [e|v0]; [discriminate|].
        destruct (approves v0); destruct Hr as (m & c & [= ->]).
        { injection H as _ _ <-. now destruct i. }
        apply IH with (i := i) in H as (-> & Hd & Hle); auto.
        repeat split; auto. lia.
Qed.

Lemma agent_loop_critic_raises n user_query iteration messages context
  (s : state) r s' t i e :
  agent_loop n user_query iteration messages context s = (r, s', t) ->
  nth_error (critic_outcomes t) i = Some (inl e) ->
  chat_kinds t = rounds (S i) /\ r = inl e.
Proof.
  revert iteration messages context s t i.
  induction n as [|n IH]; intros iteration messages context s t i; simpl.
  { intros [= <- <- <-]. now destruct i. }
  intros H Hi.
  apply bind_inv in H as [(e0 & H & ->)|(out & s1 & t1 & t2 & H1 & H & ->)].
  - apply agent_round_cases in H
      as [(_ & Ho & _)|(o & Hk & Ho & Hr)]; rewrite Ho in Hi.
    + now destruct i.
    + destruct i as [|i]; [|now destruct i]. injection Hi as ->.
      now injection Hr as ->.
  - rewrite critic_outcomes_app in Hi. rewrite chat_kinds_app.
    apply agent_round_cases in H1
      as [(_ & Ho & [[e0 [=]]|[x [= ->]]])|(o & -> & Ho & Hr)]; rewrite Ho in Hi.
    + injection H as <- _ <-. now destruct i.
    + destruct i as [|i]; simpl in Hi.
      * injection Hi as ->. discriminate.
      * destruct o as [e0|v0]; [discriminate|].
        destruct (approves v0); destruct Hr as (m & c & [= ->]).
        { injection H as _ _ <-. now destruct i. }
        apply IH with (i := i) in H as (-> & ->); auto.
Qed.


(** How a run of [agentic_rag] splits into its loop and its synthesis. *)
Lemma agentic_rag_split user_query max_iterations (s : state) r s' t :
  agentic_rag user_query max_iterations s = (r, s', t) ->
  exists r1 s1 t1,
    agent_loop (Z.to_nat max_iterations) user_query 0
      [message "user" (PStr user_query)] None s = (r1, s1, t1)
    /\ match r1 with
       | inl e => r = inl e /\ t = t1
       | inr (LoopReturn value) => r = inr value /\ t = t1
       | inr (LoopDone messages context) =>
           exists reply,
             t = t1 ++ [EvChatPost
                          (tools_body
                             (messages ++ [message "user"
                                (PStr (final_prompt user_query context))])
                             PNone AGENT_SYSTEM_PROMPT) reply]
             /\ r = synthesis_result reply
       end.
Proof.
  unfold agentic_rag. rewrite Z.sub_0_r. intros H.
  apply bind_inv in H as [(e & H & ->)|(out & s1 & t1 & t2 & H1 & H & ->)].
  { exists (inl e), s', t. auto. }
  exists (inr out), s1, t1. split; [assumption|].
  destruct out as [messages context|value].
  - apply bind_inv in H as [(e & H & ->)|(resp & s2 & t3 & t4 & H2 & H & ->)].
    + rewrite azure_chat_with_tools_run in H. simpl in H.
      destruct (post_chat _ _) as [reply w']. injection H as Hr _ <-.
      exists reply. split; [reflexivity|].
      unfold synthesis_result. destruct reply as [e0|data]; simpl in *;
        [congruence|]. now rewrite Hr.
    + rewrite azure_chat_with_tools_run in H2. simpl in H2.
      destruct (post_chat _ _) as [reply w']. injection H2 as Hr _ <-.
      injection H as <- _ <-. exists reply. rewrite app_nil_r.
      split; [reflexivity|].
      unfold synthesis_result. destruct reply as [e0|data]; simpl in *;
        [discriminate|]. now rewrite Hr.
  - injection H as <- _ <-. now rewrite app_nil_r.
Qed.

Lemma run_critic_outcomes user_query (t t1 : list event) (r : res pyval)
  (r1 : res loop_exit) :
  match r1 with
  | inl e => r = inl e /\ t = t1
  | inr (LoopReturn value) => r = inr value /\ t = t1
  | inr (LoopDone messages context) =>
      exists reply,
        t = t1 ++ [EvChatPost
                     (tools_body
                        (messages ++ [message "user"
                           (PStr (final_prompt user_query context))])
                        PNone AGENT_SYSTEM_PROMPT) reply]
        /\ r = synthesis_result reply
  end ->
  critic_outcomes t = critic_outcomes t1.
Proof.
  destruct r1 as [e|[messages context|value]].
  - now intros [_ ->].
  - intros (reply & -> & _). rewrite critic_outcomes_app.
    destruct (synthesis_post (messages ++
      [message "user" (PStr (final_prompt user_query context))]) reply)
      as [_ ->]. apply app_nil_r.
  - now intros [_ ->].
Qed.

Lemma run_approved user_query max_iterations (s : state) r s' t i v :
  agentic_rag user_query max_iterations s = (r, s', t) ->
  nth_error (critic_outcomes t) i = Some (inr v) ->
  approves v = true ->
  chat_kinds t = rounds (S i) ++ [SynthesisCall]
  /\ (Z.of_nat (S i) <= max_iterations)%Z
  /\ exists t0 body reply,
       t = t0 ++ [EvChatPost body reply] /\ r = synthesis_result reply.
Proof.
  intros H Hi Hv.
  apply agentic_rag_split in H as (r1 & s1 & t1 & Hloop & Hrest).
  pose proof (run_critic_outcomes _ _ _ _ _ Hrest) as Ht.
  rewrite Ht in Hi.
  destruct (agent_loop_approved _ _ _ _ _ _ _ _ _ _ _ Hloop Hi Hv)
    as (Hk & (m & c & ->) & Hle).
  destruct Hrest as (reply & -> & ->). rewrite chat_kinds_app, Hk.
  destruct (synthesis_post (m ++
    [message "user" (PStr (final_prompt user_query c))]) reply) as [-> _].
  repeat split; [lia|]. eauto.
Qed.

Lemma run_critic_raises user_query max_iterations (s : state) r s' t i e :
  agentic_rag user_query max_iterations s = (r, s', t) ->
  nth_error (critic_outcomes t) i = Some (inl e) ->
  chat_kinds t = rounds (S i) /\ r = inl e.
Proof.
  intros H Hi.
  apply agentic_rag_split in H as (r1 & s1 & t1 & Hloop & Hrest).
  pose proof (run_critic_outcomes _ _ _ _ _ Hrest) as Ht.
  rewrite Ht in Hi.
  destruct (agent_loop_critic_raises _ _ _ _ _ _ _ _ _ _ _ Hloop Hi)
    as (Hk & ->).
  now destruct Hrest as [-> ->].
Qed.


End Loop.

(** ** Verdicts *)

Lemma approves_sufficient (verdict : pyval) :
  py_getitem verdict (lit "decision") = inr (PStr (lit "sufficient")) ->
  approves verdict = true.
Proof.
  unfold approves, py_getitem, py_get. destruct verdict; try discriminate.
  destruct (dict_lookup _ d); [|discriminate]. now intros [= ->].
Qed.

Lemma approves_missing (verdict : pyval) :
  py_getitem verdict (lit "decision") = inl KeyError ->
  approves verdict = true.
Proof.
  unfold approves, py_getitem, py_get. destruct verdict; try discriminate.
  now destruct (dict_lookup _ d).
Qed.



(** * The claims *)

Section Claims.
Context {E : Externals}.


End Claims.



Section DirectAnswer.
Context {E : Externals}.



End DirectAnswer.




Lemma nth_critic_outcome (t : list event) (k : nat) (reply : res pyval) :
  nth_error (critic_replies t) k = Some reply ->
  nth_error (critic_outcomes t) k = Some (critic_outcome reply).
Proof. unfold critic_outcomes. apply map_nth_error. Qed.

Section Critic.
Context {E : Externals}.


(** C8.  When the text cleaned from the critic's reply is well-formed
    JSON but not an object, [critic_evaluate] raises [AttributeError]
    (from [result.get] on line 111) instead of returning a verdict; the
    handler for [JSONDecodeError] does not catch it, and a run of
    [agentic_rag] in which this happens ends with that exception, without
    a synthesis call. *)
Theorem critic_non_object_raises
  (query context : str) (s : state) data w' response cleaned result :
  post_chat (chat_body (critic_prompt query context) CRITIC_SYSTEM_PROMPT)
            (st_world s) = (inr data, w') ->
  chat_content data = inr response ->
  clean_response response = inr cleaned ->
  json_loads cleaned = inr result ->
  (forall d, result <> PDict d) ->
  critic_evaluate query context s
  = (inl AttributeError, with_world s w',
     [EvChatPost (chat_body (critic_prompt query context) CRITIC_SYSTEM_PROMPT)
                 (inr data)])
  /\ forall user_query max_iterations (s0 : state) r s1 t k,
       agentic_rag user_query max_iterations s0 = (r, s1, t) ->
       nth_error (critic_replies t) k = Some (inr data) ->
       r = inl AttributeError /\ chat_kinds t = rounds (S k).
Proof.
  intros Hpost Hcontent Hclean Hjson Hshape.
  assert (Hout : critic_outcome (inr data) = inl AttributeError).
  { unfold critic_outcome, critic_verdict, critic_try; simpl.
    rewrite Hcontent; simpl. rewrite Hclean; simpl. rewrite Hjson; simpl.
    destruct result; try reflexivity. now destruct (Hshape d). }
  split.
  - rewrite critic_evaluate_run. cbv zeta. now rewrite Hpost, Hout.
  - intros user_query max_iterations s0 r s1 t k Hrun Hnth.
    apply nth_critic_outcome in Hnth. rewrite Hout in Hnth.
    destruct (run_critic_raises _ _ _ _ _ _ _ _ Hrun Hnth) as (Hkinds & Hr).
    now split.
Qed.

(** C10.  In every run of [agentic_rag], when the critic's evaluation
    number [k + 1] returns a dict without a ["decision"] key, the loop
    ends in that round and the synthesis call follows; the calls made
    are the ones made when the decision is ["sufficient"]. *)
Theorem missing_decision_is_approval
  (user_query : str) (max_iterations : Z) (s : state) r s' t k verdict :
  agentic_rag user_query max_iterations s = (r, s', t) ->
  nth_error (critic_outcomes t) k = Some (inr verdict) ->
  py_getitem verdict (lit "decision") = inl KeyError ->
  approves verdict = true
  /\ chat_kinds t = rounds (S k) ++ [SynthesisCall]
  /\ (exists t0 body reply,
        t = t0 ++ [EvChatPost body reply] /\ r = synthesis_result reply)
  /\ forall (s0 : state) r0 s1 t0 approved,
       agentic_rag user_query max_iterations s0 = (r0, s1, t0) ->
       nth_error (critic_outcomes t0) k = Some (inr approved) ->
       py_getitem approved (lit "decision") = inr (PStr (lit "sufficient")) ->
       chat_kinds t0 = chat_kinds t.
Proof.
  intros Hrun Hnth Hmissing. apply approves_missing in Hmissing.
  destruct (run_approved _ _ _ _ _ _ _ _ Hrun Hnth Hmissing)
    as (Hkinds & _ & Hlast).
  repeat split; try assumption.
  intros s0 r0 s1 t0 approved Hrun0 Hnth0 Hd. apply approves_sufficient in Hd.
  destruct (run_approved _ _ _ _ _ _ _ _ Hrun0 Hnth0 Hd) as (Hkinds0 & _).
  congruence.
Qed.

End Critic.


Lemma critic_non_object_raises_witness :
  (exists s' t,
     @critic_evaluate scripted (lit "What is zero trust?") (lit "some context")
       (start (sample_script [says (lit "[1, 2]")]))
     = (inl AttributeError, s', t))
  /\ (exists s' t,
        @agentic_rag scripted (lit "What is zero trust?") 3
          (judged (lit "[1, 2]")) = (inl AttributeError, s', t)).
Proof.
  destruct (@critic_non_object_raises scripted
              (lit "What is zero trust?") (lit "some context")
              (start (sample_script [says (lit "[1, 2]")]))
              _ _ _ _ _
              ltac:(vm_compute; reflexivity) ltac:(vm_compute; reflexivity)
              ltac:(vm_compute; reflexivity) ltac:(vm_compute; reflexivity)
              ltac:(discriminate))
    as [Hcritic Hrun].
  split.
  - eexists _, _. exact Hcritic.
  - destruct (Hrun (lit "What is zero trust?") 3%Z (judged (lit "[1, 2]"))
                   _ _ _ 0%nat
                   ltac:(vm_compute; reflexivity) ltac:(vm_compute; reflexivity))
      as [Hr _].
    eexists _, _. vm_compute. reflexivity.
Defined.

Lemma missing_decision_is_approval_witness :
  exists r s' t,
    @agentic_rag scripted (lit "What is zero trust?") 3
      (judged (jq "{'reasoning': 'looks fine'}")) = (r, s', t)
    /\ chat_kinds t = rounds 1 ++ [SynthesisCall].
Proof.
  eexists _, _, _. split; [vm_compute; reflexivity|].
  eapply (@missing_decision_is_approval scripted (lit "What is zero trust?") 3
            (judged (jq "{'reasoning': 'looks fine'}")) _ _ _ 0%nat).
  - vm_compute. reflexivity.
  - vm_compute. reflexivity.
  - vm_compute. reflexivity.
Defined.

Section Dispatcher.
Context {E : Externals}.

(** C5.  For a tool name other than ["search_nist_knowledge"] and any
    arguments, [execute_tool] returns ["Unknown tool: <name>"], raises
    nothing, calls no collaborator and leaves the state as it is.  In
    the loop over the tool calls such a call (with a JSON payload and an
    id) only appends its two messages and makes the diagnostic the
    context; the loop goes on with the remaining calls. *)
Theorem execute_tool_unknown (name : str) :
  name <> lit "search_nist_knowledge" ->
  (forall (arguments : pyval) (s : state),
     execute_tool (PStr name) arguments s
     = (inr (lit "Unknown tool: " ++ name), s, []))
  /\ (forall tool_call fn payload arguments tool_call_id rest messages
             context (s : state),
        py_getitem tool_call (lit "function") = inr fn ->
        py_getitem fn (lit "name") = inr (PStr name) ->
        py_getitem fn (lit "arguments") = inr payload ->
        py_json_loads payload = inr arguments ->
        py_getitem tool_call (lit "id") = inr tool_call_id ->
        run_tool_calls (tool_call :: rest) messages context s
        = run_tool_calls rest
            (messages
             ++ [PDict [(lit "role", PStr (lit "assistant"));
                        (lit "content", PNone);
                        (lit "tool_calls", PList [tool_call])]]
             ++ [PDict [(lit "role", PStr (lit "tool"));
                        (lit "tool_call_id", tool_call_id);
                        (lit "content", PStr (lit "Unknown tool: " ++ name))]])
            (Some (lit "Unknown tool: " ++ name)) s).
Proof.
  intros Hname.
  assert (Hexec : forall (arguments : pyval) (s : state),
            execute_tool (PStr name) arguments s
            = (inr (lit "Unknown tool: " ++ name), s, [])).
  { intros arguments s. unfold execute_tool, py_eq_str.
    now rewrite (str_eqb_neq _ _ Hname). }
  split; [exact Hexec|].
  intros tool_call fn payload arguments tool_call_id rest messages context s
         Hfn Hn Hp Hargs Hid.
  cbn [run_tool_calls].
  rewrite Hfn, bind_lift_ok, Hn, bind_lift_ok, Hp, bind_lift_ok,
          Hargs, bind_lift_ok.
  unfold bind at 1. rewrite Hexec.
  rewrite Hid, bind_lift_ok, <- app_assoc.
  now destruct (run_tool_calls rest _ _ s) as [[r s1] t1].
Qed.

End Dispatcher.

Lemma execute_tool_unknown_witness :
  lit "does_not_exist" <> lit "search_nist_knowledge"
  /\ @execute_tool scripted (PStr (lit "does_not_exist"))
       (PDict [(lit "query", PStr (lit "anything"))])
       (start (sample_script []))
     = (inr (lit "Unknown tool: does_not_exist"),
        start (sample_script []), []).
Proof.
  split; [vm_compute; discriminate|].
  apply (@execute_tool_unknown scripted (lit "does_not_exist")
           ltac:(vm_compute; discriminate)).
Defined.

Section ToolCalls.
Context {E : Externals}.

Lemma bind_ext {A B} (m : M A) (f g : A -> M B) (s : state) :
  (forall a s1, f a s1 = g a s1) -> bind m f s = bind m g s.
Proof.
  intros Hfg. unfold bind. destruct (m s) as [[[e|a] s1] t1]; [reflexivity|].
  now rewrite Hfg.
Qed.




End ToolCalls.


Section Retrieval.
Context {E : Externals}.

Lemma emits_ret {A} P (a : A) : emits P (ret a).
Proof. intros s r s' t [= <- <- <-]. constructor. Qed.

Lemma emits_lift {A} P (x : res A) : emits P (lift x).
Proof. intros s r s' t [= <- <- <-]. constructor. Qed.

Lemma emits_bind {A B} P (m : M A) (f : A -> M B) :
  emits P m -> (forall a, emits P (f a)) -> emits P (bind m f).
Proof.
  intros Hm Hf s r s' t Hrun.
  apply bind_inv in Hrun as [(e & Hms & _)|(a & s1 & t1 & t2 & Hms & Hfs & ->)].
  - eapply Hm; eauto.
  - apply Forall_app. split; [eapply Hm|eapply Hf]; eauto.
Qed.

Lemma emits_call {A} P (f : world -> res A * world) (ev : res A -> event) :
  (forall r, P (ev r)) -> emits P (call f ev).
Proof.
  intros Hev s r s' t. unfold call.
  destruct (f (st_world s)) as [r0 w']. intros [= <- <- <-].
  constructor; [apply Hev|constructor].
Qed.

Lemma emits_load_index query top_k :
  emits (retrieval_event query top_k) load_index.
Proof. apply emits_call. now intros r. Qed.

Lemma emits_get_index query top_k :
  emits (retrieval_event query top_k) get_index.
Proof.
  unfold get_index. apply emits_bind.
  - intros s r s' t [= <- <- <-]. constructor.
  - intros [im|]; [apply emits_ret|].
    apply emits_bind; [apply emits_load_index|intros im].
    apply emits_bind; [|intros ?; apply emits_ret].
    intros s r s' t [= <- <- <-]. constructor.
Qed.

Lemma emits_collect_results P metadata rows results :
  emits P (collect_results metadata rows results).
Proof.
  revert results. induction rows as [|[idx distance] rows IH]; intros results;
    simpl; [apply emits_ret|].
  apply emits_bind.
  - destruct (idx <? 0)%Z; [apply emits_ret|].
    apply emits_bind; [apply emits_lift|intros ?; apply emits_ret].
  - intros [|]; [apply IH|].
    do 5 (apply emits_bind; [apply emits_lift|intros ?]). apply IH.
Qed.

Lemma emits_retrieve query top_k index metadata :
  emits (retrieval_event query top_k) (retrieve query top_k index metadata).
Proof.
  unfold retrieve. apply emits_bind.
  - destruct index, metadata;
      first [apply emits_load_index | apply emits_ret].
  - intros [i m]. apply emits_bind.
    + unfold azure_embed. apply emits_bind; [|intros ?; apply emits_lift].
      apply emits_call. now intros r.
    + intros emb. apply emits_bind; [|intros ?; apply emits_collect_results].
      apply emits_call. now intros r.
Qed.

Lemma collect_results_length metadata rows results (s : state) found s' t :
  collect_results metadata rows results s = (inr found, s', t) ->
  (List.length found <= List.length results + List.length rows)%nat.
Proof.
  revert results s t.
  induction rows as [|[idx distance] rows IH]; intros results s t; simpl.
  - intros [= <- _ _]. lia.
  - intros H.
    apply bind_inv in H as [(e & _ & [=])|(skip & s1 & t1 & t2 & _ & H & _)].
    destruct skip.
    + apply IH in H. lia.
    + apply bind_inv in H as [(e & _ & [=])|(? & ? & ? & ? & _ & H & _)].
      apply bind_inv in H as [(e & _ & [=])|(? & ? & ? & ? & _ & H & _)].
      apply bind_inv in H as [(e & _ & [=])|(? & ? & ? & ? & _ & H & _)].
      apply bind_inv in H as [(e & _ & [=])|(? & ? & ? & ? & _ & H & _)].
      apply bind_inv in H as [(e & _ & [=])|(? & ? & ? & ? & _ & H & _)].
      apply IH in H. rewrite length_app in H. simpl in H. lia.
Qed.

Lemma retrieve_bounded query top_k index metadata (s : state) found s' t :
  retrieve query top_k index metadata s = (inr found, s', t) ->
  exists embedding rows,
    In (EvSearch embedding top_k (inr rows)) t
    /\ (List.length found <= List.length rows)%nat.
Proof.
  unfold retrieve. intros H.
  apply bind_inv in H as [(e & _ & [=])|([i m] & s1 & t1 & t2 & _ & H & ->)].
  apply bind_inv in H as [(e & _ & [=])|(emb & s2 & t3 & t4 & _ & H & ->)].
  apply bind_inv in H as [(e & _ & [=])|(rows & s3 & t5 & t6 & Hs & H & ->)].
  unfold call in Hs. destruct (index_search _ _ _ _) as [r0 w'].
  injection Hs as -> _ <-.
  apply collect_results_length in H. simpl in H.
  exists emb, rows. split; [|assumption].
  apply in_or_app. right. apply in_or_app. right. now left.
Qed.

End Retrieval.

Section SearchTool.
Context {E : Externals}.

Lemma execute_tool_search (arguments : dict) (s : state) :
  execute_tool (PStr (lit "search_nist_knowledge")) (PDict arguments) s
  = (let query := match dict_lookup (lit "query") arguments with
                  | Some q => q
                  | None => PStr []
                  end in
     let top_k := match dict_lookup (lit "top_k") arguments with
                  | Some k => k
                  | None => PInt 5
                  end in
     im <- get_index ;;
     results <- retrieve query top_k (Some (fst im)) (snd im) ;;
     lift (format_context results)) s.
Proof.
  unfold execute_tool.
  replace (py_eq_str (PStr (lit "search_nist_knowledge"))
                     (lit "search_nist_knowledge")) with true
    by (vm_compute; reflexivity).
  rewrite !py_get_dict, bind_lift_ok, bind_lift_ok. cbv zeta.
  apply bind_ext. now intros [index metadata] s1.
Qed.

(** C7.  For the tool ["search_nist_knowledge"] and any dict of
    arguments, the dispatcher reads [query] with default [""] and
    [top_k] with default [5], without raising on a missing field: the
    run is the run on the arguments with both fields filled in.  Every
    embedding request of the run carries that query, every index search
    asks for that [top_k], and a context is only returned after such a
    search, from at most as many passages as the search returned rows. *)
Theorem search_tool_defaults (arguments : dict) (s : state) r s' t :
  execute_tool (PStr (lit "search_nist_knowledge")) (PDict arguments) s
    = (r, s', t) ->
  let query := match dict_lookup (lit "query") arguments with
               | Some q => q
               | None => PStr []
               end in
  let top_k := match dict_lookup (lit "top_k") arguments with
               | Some k => k
               | None => PInt 5
               end in
  execute_tool (PStr (lit "search_nist_knowledge"))
    (PDict [(lit "query", query); (lit "top_k", top_k)]) s = (r, s', t)
  /\ Forall (retrieval_event query top_k) t
  /\ (forall context,
        r = inr context ->
        exists embedding rows results,
          In (EvSearch embedding top_k (inr rows)) t
          /\ format_context results = inr context
          /\ (List.length results <= List.length rows)%nat).
Proof.
  intros Hrun query top_k. split; [|split].
  - rewrite execute_tool_search in *. exact Hrun.
  - rewrite execute_tool_search in Hrun. revert Hrun. cbv zeta.
    fold query top_k. revert s r s' t.
    change (emits (retrieval_event query top_k)
              (im <- get_index ;;
               results <- retrieve query top_k (Some (fst im)) (snd im) ;;
               lift (format_context results))).
    apply emits_bind; [apply emits_get_index|intros im].
    apply emits_bind; [apply emits_retrieve|intros ?; apply emits_lift].
  - intros context ->. rewrite execute_tool_search in Hrun. cbv zeta in Hrun.
    fold query top_k in Hrun.
    apply bind_inv in Hrun
      as [(e & _ & [=])|(im & s1 & t1 & t2 & _ & Hrun & ->)].
    apply bind_inv in Hrun
      as [(e & _ & [=])|(results & s2 & t3 & t4 & Hret & Hfmt & ->)].
    injection Hfmt as Hfmt _ <-.
    apply retrieve_bounded in Hret as (embedding & rows & Hin & Hlen).
    exists embedding, rows, results. repeat split; [|assumption..].
    apply in_or_app. right. apply in_or_app. now left.
Qed.

End SearchTool.

Lemma search_tool_defaults_witness :
  exists context s' embedding rows,
    @execute_tool scripted (PStr (lit "search_nist_knowledge")) (PDict [])
      (start (sample_script []))
    = (inr context, s',
       [EvReadIndex true;
        EvEmbedPost (PDict [(lit "input", PStr [])]) embedding_reply;
        EvSearch embedding (PInt 5) (inr rows)])
    /\ @execute_tool scripted (PStr (lit "search_nist_knowledge"))
         (PDict [(lit "query", PStr []); (lit "top_k", PInt 5)])
         (start (sample_script []))
       = (inr context, s',
          [EvReadIndex true;
           EvEmbedPost (PDict [(lit "input", PStr [])]) embedding_reply;
           EvSearch embedding (PInt 5) (inr rows)]).
Proof.
  eexists _, _, _, _. split; [vm_compute; reflexivity|].
  apply (@search_tool_defaults scripted [] (start (sample_script []))).
  vm_compute. reflexivity.
Defined.

Section CurrentContext.
Context {E : Externals}.

Lemma lift_inv {A} (x : res A) (s : state) r s' t :
  lift x s = (r, s', t) -> r = x /\ s' = s /\ t = [].
Proof. now intros [= <- <- <-]. Qed.


Lemma critic_replies_app (t1 t2 : list event) :
  critic_replies (t1 ++ t2) = critic_replies t1 ++ critic_replies t2.
Proof.
  unfold critic_replies. now rewrite chat_posts_app, filter_app, map_app.
Qed.

Lemma critic_replies_quiet (t : list event) :
  chat_posts t = [] -> critic_replies t = [].
Proof. unfold critic_replies. now intros ->. Qed.

Lemma critic_replies_round messages reply0 (t : list event) :
  critic_replies
    (EvChatPost (tools_body messages TOOLS AGENT_SYSTEM_PROMPT) reply0 :: t)
  = critic_replies t.
Proof. reflexivity. Qed.

Lemma critic_replies_critic prompt reply :
  critic_replies [EvChatPost (chat_body prompt CRITIC_SYSTEM_PROMPT) reply]
  = [reply].
Proof.
  unfold critic_replies. cbn [chat_posts filter fst]. unfold is_critic_call.
  now rewrite kind_of_critic_body.
Qed.



End CurrentContext.


(** ** The JSON decoder *)

Lemma rest_of_cons (x : N) (s r : str) : rest_of s r -> rest_of (x :: s) r.
Proof. intros (c & _ & ->). exists (x :: c). split; [discriminate|reflexivity]. Qed.
Lemma rest_of_tail (x : N) (s : str) : rest_of (x :: s) s.
Proof. exists [x]. split; [discriminate|reflexivity]. Qed.
Lemma tail_of_refl s : tail_of s s.
Proof. now exists []. Qed.
Lemma tail_of_cons x s r : tail_of s r -> tail_of (x :: s) r.
Proof. intros (c & ->). now exists (x :: c). Qed.
Lemma tail_of_trans s r q : tail_of s r -> tail_of r q -> tail_of s q.
Proof. intros (c1 & ->) (c2 & ->). exists (c1 ++ c2). now rewrite app_assoc. Qed.
Lemma rest_tail s r q : rest_of s r -> tail_of r q -> rest_of s q.
Proof.
  intros (c1 & H1 & ->) (c2 & ->). exists (c1 ++ c2). split.
  - destruct c1; [contradiction|discriminate].
  - now rewrite app_assoc.
Qed.
Lemma tail_rest s r q : tail_of s r -> rest_of r q -> rest_of s q.
Proof.
  intros (c1 & ->) (c2 & H2 & ->). exists (c1 ++ c2). split.
  - destruct c1; [assumption|discriminate].
  - now rewrite app_assoc.
Qed.
Lemma rest_of_trans (s r q : str) : rest_of s r -> rest_of r q -> rest_of s q.
Proof. intros H1 (c & _ & ->). eapply rest_tail; [exact H1|]. now exists c. Qed.

Lemma span_digits_split (s : str) : s = fst (span_digits s) ++ snd (span_digits s).
Proof.
  induction s as [|c s IH]; simpl; [reflexivity|].
  destruct (is_digit c); [|reflexivity].
  destruct (span_digits s) as [ds r]. simpl in *. now f_equal.
Qed.

Lemma span_digits_tail (s : str) : tail_of s (snd (span_digits s)).
Proof. exists (fst (span_digits s)). apply span_digits_split. Qed.

Lemma read_sign_tail s : tail_of s (snd (read_sign s)).
Proof.
  unfold read_sign. destruct s as [|c s']; [apply tail_of_refl|].
  destruct (c =? 45); [apply tail_of_cons|]; apply tail_of_refl.
Qed.

Lemma read_int_rest s ints r : read_int s = Some (ints, r) -> rest_of s r.
Proof.
  unfold read_int. destruct s as [|c s']; [discriminate|].
  destruct ((49 <=? c) && (c <=? 57)).
  - pose proof (span_digits_tail s') as Ht.
    destruct (span_digits s') as [ds r0]. intros [= _ <-].
    eapply rest_tail; [apply rest_of_tail|exact Ht].
  - destruct (c =? 48); [|discriminate]. intros [= _ <-]. apply rest_of_tail.
Qed.

Lemma read_frac_tail s : tail_of s (snd (read_frac s)).
Proof.
  unfold read_frac. destruct s as [|p [|d s']]; try apply tail_of_refl.
  destruct ((p =? 46) && is_digit d); [|apply tail_of_refl].
  simpl tl. apply tail_of_cons, span_digits_tail.
Qed.

Lemma read_exp_tail s : tail_of s (snd (read_exp s)).
Proof.
  unfold read_exp. destruct s as [|e r]; [apply tail_of_refl|].
  destruct ((e =? 101) || (e =? 69)); [|apply tail_of_refl].
  assert (Hsg : forall b r', (match r with
                | g :: r'' => if g =? 45 then (true, r'')
                              else if g =? 43 then (false, r'') else (false, r)
                | [] => (false, r) end) = (b, r') -> tail_of r r').
  { intros b r'. destruct r as [|g r'']; [intros [= _ <-]; apply tail_of_refl|].
    destruct (g =? 45); [intros [= _ <-]; apply tail_of_cons, tail_of_refl|].
    destruct (g =? 43); intros [= _ <-];
      [apply tail_of_cons, tail_of_refl|apply tail_of_refl]. }
  destruct (match r with | [] => _ | _ => _ end) as [b r'].
  specialize (Hsg _ _ eq_refl).
  pose proof (span_digits_tail r') as Hd.
  destruct (span_digits r') as [[|d0 ds] rest]; [apply tail_of_refl|].
  simpl in *. apply tail_of_cons. eapply tail_of_trans; eauto.
Qed.

Lemma match_number_rest (s : str) v r :
  match_number s = Some (v, r) ->
  rest_of s r /\ (forall d, v <> PDict d).
Proof.
  unfold match_number.
  pose proof (read_sign_tail s) as Hsign.
  destruct (read_sign s) as [neg s1]. simpl in Hsign.
  destruct (read_int s1) as [[ints r1]|] eqn:Hint; [|discriminate].
  apply read_int_rest in Hint.
  pose proof (read_frac_tail r1) as Hfr.
  destruct (read_frac r1) as [frac r2]. simpl in Hfr.
  pose proof (read_exp_tail r2) as Hex.
  destruct (read_exp r2) as [expo r3]. simpl in Hex.
  assert (Hrest : rest_of s r3).
  { eapply tail_rest; [exact Hsign|].
    eapply rest_tail; [|exact Hex]. eapply rest_tail; [|exact Hfr]. exact Hint. }
  destruct frac, expo; intros [= <- <-]; (split; [exact Hrest|discriminate]).
Qed.

Lemma skip_ws_split (s : str) : exists w, json_space w /\ s = w ++ skip_ws s.
Proof.
  induction s as [|c s (w & Hw & IH)]; simpl.
  - exists []. split; [constructor|reflexivity].
  - destruct (json_ws c) eqn:Hc.
    + exists (c :: w). split; [now constructor|]. simpl. now f_equal.
    + exists []. split; [constructor|reflexivity].
Qed.


Lemma scanstring_rest (n : nat) : forall (s acc : str) k r,
  (List.length s <= n)%nat ->
  scanstring s acc = POk k r -> rest_of s r.
Proof.
  induction n as [|n IH]; intros s acc k r Hlen.
  { destruct s; [discriminate|simpl in Hlen; lia]. }
  destruct s as [|c rest]; [discriminate|]. simpl in Hlen.
  cbn [scanstring].
  destruct (c =? 34). { intros [= _ <-]. apply rest_of_tail. }
  destruct (c =? 92).
  2:{ destruct (c <=? 31); [discriminate|]. intros H.
      apply rest_of_cons. eapply IH; [|exact H]. lia. }
  destruct rest as [|e rest1]; [discriminate|]. simpl in Hlen.
  destruct (e =? 117).
  2:{ destruct (simple_escape e); [|discriminate]. intros H.
      do 2 apply rest_of_cons. eapply IH; [|exact H]. lia. }
  destruct rest1 as [|h1 [|h2 [|h3 [|h4 [|x rest2]]]]]; try discriminate.
  simpl in Hlen.
  destruct (hex4 h1 h2 h3 h4) as [cp|]; [|discriminate].
  assert (Hplain : forall acc', scanstring (x :: rest2) acc' = POk k r ->
                     rest_of (c :: e :: h1 :: h2 :: h3 :: h4 :: x :: rest2) r).
  { intros acc' H. do 6 apply rest_of_cons. eapply IH; [|exact H]. simpl. lia. }
  destruct rest2 as [|u [|l1 [|l2 [|l3 [|l4 [|y rest3]]]]]];
    try (now apply Hplain).
  destruct (is_high_surrogate cp && (x =? 92) && (u =? 117));
    [|now apply Hplain].
  destruct (hex4 l1 l2 l3 l4) as [lo|]; [|discriminate].
  destruct (is_low_surrogate lo); [|now apply Hplain].
  intros H. do 12 apply rest_of_cons. eapply IH; [|exact H].
  simpl in *. lia.
Qed.

Lemma skip_ws_tail s : tail_of s (skip_ws s).
Proof. destruct (skip_ws_split s) as (w & _ & H). now exists w. Qed.

Lemma skipn_tail (n : nat) (s : str) : tail_of s (skipn n s).
Proof. exists (firstn n s). symmetry. apply firstn_skipn. Qed.

Lemma skipn_rest (n : nat) (c : N) (s : str) : rest_of (c :: s) (skipn (S n) (c :: s)).
Proof. simpl. eapply rest_tail; [apply rest_of_tail|apply skipn_tail]. Qed.


Lemma array_items_rest scan n : scans scan -> forall acc s v r,
  array_items scan n acc s = POk v r ->
  tail_of s r /\ exists l, v = PList l.
Proof.
  intros Hscan. induction n as [|n IH]; intros acc s v r; simpl; [discriminate|].
  destruct (scan s) as [x r0|m|] eqn:Hx; try discriminate.
  apply Hscan in Hx as [(c0 & _ & ->) _].
  pose proof (skip_ws_tail r0) as Hws.
  destruct (skip_ws r0) as [|c r'] eqn:Hr0; [discriminate|].
  destruct (c =? 93).
  { intros [= <- <-]. split; [|eauto].
    eapply tail_of_trans; [now exists c0|].
    eapply tail_of_trans; [exact Hws|]. apply tail_of_cons, tail_of_refl. }
  destruct (c =? 44); [|discriminate]. intros H.
  apply IH in H as [Ht Hl]. split; [|exact Hl].
  eapply tail_of_trans; [now exists c0|].
  eapply tail_of_trans; [exact Hws|]. apply tail_of_cons.
  eapply tail_of_trans; [apply skip_ws_tail|exact Ht].
Qed.

Lemma parse_array_rest scan n : scans scan -> forall s v r,
  parse_array scan n s = POk v r ->
  tail_of s r /\ exists l, v = PList l.
Proof.
  intros Hscan s v r. unfold parse_array.
  pose proof (skip_ws_tail s) as Hws.
  destruct (skip_ws s) as [|c r0] eqn:Hs.
  - intros H. apply array_items_rest in H as [Ht Hl]; [|assumption].
    split; [|exact Hl]. eapply tail_of_trans; eauto.
  - destruct (c =? 93).
    + intros [= <- <-]. split; [|eauto].
      eapply tail_of_trans; [exact Hws|]. apply tail_of_cons, tail_of_refl.
    + intros H. apply array_items_rest in H as [Ht Hl]; [|assumption].
      split; [|exact Hl]. eapply tail_of_trans; eauto.
Qed.


Lemma closed_before_tail s q r : tail_of s q -> closed_before q r -> closed_before s r.
Proof. intros (c1 & ->) (c2 & ->). exists (c1 ++ c2). now rewrite app_assoc. Qed.

Lemma object_members_rest scan n : scans scan -> forall acc s v r,
  object_members scan n acc s = POk v r ->
  closed_before s r /\ exists d, v = PDict d.
Proof.
  intros Hscan. induction n as [|n IH]; intros acc s v r; simpl; [discriminate|].
  destruct s as [|q s1]; [discriminate|].
  destruct (q =? 34); [|discriminate].
  destruct (scanstring s1 []) as [key r0|m|] eqn:Hkey; try discriminate.
  apply (scanstring_rest _ _ _ _ _ (le_n _)) in Hkey as (c0 & _ & ->).
  pose proof (skip_ws_tail r0) as Hws0.
  destruct (skip_ws r0) as [|c r1]; [discriminate|].
  destruct (c =? 58); [|discriminate].
  pose proof (skip_ws_tail r1) as Hws1.
  destruct (scan (skip_ws r1)) as [x r2|m|] eqn:Hx; try discriminate.
  apply Hscan in Hx as [(c1 & _ & Hc1) _].
  pose proof (skip_ws_tail r2) as Hws2.
  destruct (skip_ws r2) as [|c2 r3]; [discriminate|].
  assert (Hpre : tail_of (q :: c0 ++ r0) (c2 :: r3)).
  { apply tail_of_cons. eapply tail_of_trans; [now exists c0|].
    eapply tail_of_trans; [exact Hws0|]. apply tail_of_cons.
    eapply tail_of_trans; [exact Hws1|]. rewrite Hc1.
    eapply tail_of_trans; [now exists c1|]. exact Hws2. }
  destruct (c2 =? 125) eqn:Hbrace.
  { intros [= <- <-]. split; [|eauto]. apply N.eqb_eq in Hbrace. subst c2.
    eapply closed_before_tail; [exact Hpre|]. now exists []. }
  destruct (c2 =? 44); [|discriminate]. intros H.
  apply IH in H as [Hc Hd]. split; [|exact Hd].
  eapply closed_before_tail; [exact Hpre|].
  eapply closed_before_tail; [apply tail_of_cons, skip_ws_tail|]. exact Hc.
Qed.

Lemma parse_object_rest scan n : scans scan -> forall s v r,
  parse_object scan n s = POk v r ->
  closed_before s r /\ exists d, v = PDict d.
Proof.
  intros Hscan s v r. unfold parse_object.
  pose proof (skip_ws_tail s) as Hws.
  destruct (skip_ws s) as [|c r0] eqn:Hs.
  - intros H. apply object_members_rest in H as [Ht Hl]; [|assumption].
    split; [|exact Hl]. eapply closed_before_tail; eauto.
  - destruct (c =? 125) eqn:Hbrace.
    + intros [= <- <-]. split; [|eauto]. apply N.eqb_eq in Hbrace. subst c.
      eapply closed_before_tail; [exact Hws|]. now exists [].
    + intros H. apply object_members_rest in H as [Ht Hl]; [|assumption].
      split; [|exact Hl]. eapply closed_before_tail; eauto.
Qed.

Lemma scan_once_scans fuel : scans (scan_once fuel).
Proof.
  induction fuel as [|fuel IH]; intros s v r; cbn [scan_once]; [discriminate|].
  destruct s as [|c rest]; [discriminate|].
  destruct (c =? 34).
  { destruct (scanstring rest []) as [k r0|m|] eqn:Hk; try discriminate.
    intros [= <- <-]. split; [|discriminate].
    apply rest_of_cons. eapply scanstring_rest; [apply le_n|exact Hk]. }
  destruct (c =? 123) eqn:Hbrace.
  { intros H. apply parse_object_rest in H as [(c0 & ->) _]; [|assumption].
    apply N.eqb_eq in Hbrace. subst c. split.
    - exists (123 :: c0 ++ [125]). split; [discriminate|].
      simpl. now rewrite <- app_assoc.
    - intros d _. now exists c0. }
  destruct (c =? 91).
  { intros H. apply parse_array_rest in H as [Ht (l & ->)]; [|assumption].
    split; [|discriminate]. eapply rest_tail; [apply rest_of_tail|exact Ht]. }
  destruct (startswith _ (lit "null")).
  { intros [= <- <-]. split; [exact (skipn_rest 3 c rest)|discriminate]. }
  destruct (startswith _ (lit "true")).
  { intros [= <- <-]. split; [exact (skipn_rest 3 c rest)|discriminate]. }
  destruct (startswith _ (lit "false")).
  { intros [= <- <-]. split; [exact (skipn_rest 4 c rest)|discriminate]. }
  destruct (startswith _ (lit "NaN")).
  { intros [= <- <-]. split; [exact (skipn_rest 2 c rest)|discriminate]. }
  destruct (startswith _ (lit "Infinity")).
  { intros [= <- <-]. split; [exact (skipn_rest 7 c rest)|discriminate]. }
  destruct (startswith _ (lit "-Infinity")).
  { intros [= <- <-]. split; [exact (skipn_rest 8 c rest)|discriminate]. }
  destruct (match_number (c :: rest)) as [[x r0]|] eqn:Hnum; [|discriminate].
  intros [= <- <-]. apply match_number_rest in Hnum as [Hr Hd].
  split; [exact Hr|]. intros d ->. now destruct (Hd d).
Qed.

(** A text that [json.loads] reads as an object is an opening brace, a
    body and a closing brace, between JSON whitespace. *)
Lemma json_object_shape (j : str) (d : dict) :
  json_loads j = inr (PDict d) ->
  exists lead body trail,
    j = lead ++ (123 :: body ++ [125]) ++ trail
    /\ json_space lead /\ json_space trail.
Proof.
  unfold json_loads. destruct (startswith j [65279]); [discriminate|].
  destruct (skip_ws_split j) as (lead & Hlead & Hj).
  destruct (scan_once _ (skip_ws j)) as [v r|m|] eqn:Hscan; try discriminate.
  destruct (skip_ws_split r) as (trail & Htrail & Hr).
  destruct (skip_ws r); [|discriminate]. intros [= ->].
  apply scan_once_scans in Hscan as [_ Hshape].
  destruct (Hshape d eq_refl) as (body & Hbody).
  exists lead, body, trail. repeat split; try assumption.
  rewrite Hj at 1. rewrite Hbody, Hr, app_nil_r. f_equal. simpl.
  now rewrite <- app_assoc.
Qed.

Lemma tail_of_length s r : tail_of s r -> (List.length r <= List.length s)%nat.
Proof. intros (c & ->). rewrite length_app. lia. Qed.

Lemma rest_of_length s r : rest_of s r -> (List.length r < List.length s)%nat.
Proof.
  intros (c & Hc & ->). rewrite length_app.
  destruct c; [contradiction|simpl; lia].
Qed.

Lemma scanstring_fuel (n : nat) : forall (s acc : str),
  (List.length s <= n)%nat -> scanstring s acc <> PFuel.
Proof.
  induction n as [|n IH]; intros s acc Hlen.
  { destruct s; [discriminate|simpl in Hlen; lia]. }
  destruct s as [|c rest]; [discriminate|]. simpl in Hlen.
  cbn [scanstring].
  destruct (c =? 34); [discriminate|].
  destruct (c =? 92).
  2:{ destruct (c <=? 31); [discriminate|]. apply IH. lia. }
  destruct rest as [|e rest1]; [discriminate|]. simpl in Hlen.
  destruct (e =? 117).
  2:{ destruct (simple_escape e); [|discriminate]. apply IH. lia. }
  destruct rest1 as [|h1 [|h2 [|h3 [|h4 [|x rest2]]]]]; try discriminate.
  simpl in Hlen.
  destruct (hex4 h1 h2 h3 h4) as [cp|]; [|discriminate].
  assert (Hplain : forall acc', scanstring (x :: rest2) acc' <> PFuel).
  { intros acc'. apply IH. simpl. lia. }
  destruct rest2 as [|u [|l1 [|l2 [|l3 [|l4 [|y rest3]]]]]];
    try (now apply Hplain).
  destruct (is_high_surrogate cp && (x =? 92) && (u =? 117));
    [|now apply Hplain].
  destruct (hex4 l1 l2 l3 l4) as [lo|]; [|discriminate].
  destruct (is_low_surrogate lo); [|now apply Hplain].
  apply IH. simpl in *. lia.
Qed.


Lemma array_items_fuel scan bound : scans scan -> fueled scan bound ->
  forall n acc s,
    (List.length s < n)%nat -> (List.length s < bound)%nat ->
    array_items scan n acc s <> PFuel.
Proof.
  intros Hscan Hfuel. induction n as [|n IH]; intros acc s Hn Hb; [lia|].
  cbn [array_items].
  destruct (scan s) as [x r0|m|] eqn:Hx; [|discriminate|now apply Hfuel in Hx].
  apply Hscan in Hx as [Hrest _]. apply rest_of_length in Hrest.
  pose proof (tail_of_length _ _ (skip_ws_tail r0)) as Hws.
  destruct (skip_ws r0) as [|c r']; [discriminate|]. simpl in Hws.
  destruct (c =? 93); [discriminate|].
  destruct (c =? 44); [|discriminate].
  pose proof (tail_of_length _ _ (skip_ws_tail r')) as Hws'.
  apply IH; lia.
Qed.

Lemma object_members_fuel scan bound : scans scan -> fueled scan bound ->
  forall n acc s,
    (List.length s < n)%nat -> (List.length s < bound)%nat ->
    object_members scan n acc s <> PFuel.
Proof.
  intros Hscan Hfuel. induction n as [|n IH]; intros acc s Hn Hb; [lia|].
  cbn [object_members].
  destruct s as [|q s1]; [discriminate|]. simpl in Hn, Hb.
  destruct (q =? 34); [|discriminate].
  destruct (scanstring s1 []) as [key r0|m|] eqn:Hkey;
    [|discriminate|now apply (scanstring_fuel _ _ _ (le_n _)) in Hkey].
  apply (scanstring_rest _ _ _ _ _ (le_n _)) in Hkey.
  apply rest_of_length in Hkey.
  pose proof (tail_of_length _ _ (skip_ws_tail r0)) as Hws0.
  destruct (skip_ws r0) as [|c r1]; [discriminate|]. simpl in Hws0.
  destruct (c =? 58); [|discriminate].
  pose proof (tail_of_length _ _ (skip_ws_tail r1)) as Hws1.
  destruct (scan (skip_ws r1)) as [x r2|m|] eqn:Hx;
    [|discriminate|apply Hfuel in Hx; [contradiction|lia]].
  apply Hscan in Hx as [Hrest _]. apply rest_of_length in Hrest.
  pose proof (tail_of_length _ _ (skip_ws_tail r2)) as Hws2.
  destruct (skip_ws r2) as [|c2 r3]; [discriminate|]. simpl in Hws2.
  destruct (c2 =? 125); [discriminate|].
  destruct (c2 =? 44); [|discriminate].
  pose proof (tail_of_length _ _ (skip_ws_tail r3)) as Hws3.
  apply IH; lia.
Qed.

(** The fuel [json_loads] gives is never used up. *)
Lemma scan_once_fuel fuel : fueled (scan_once fuel) fuel.
Proof.
  induction fuel as [|fuel IH]; intros s Hlen; [lia|].
  cbn [scan_once].
  destruct s as [|c rest]; [discriminate|]. simpl in Hlen.
  destruct (c =? 34).
  { destruct (scanstring rest []) as [k r0|m|] eqn:Hk; try discriminate.
    now apply (scanstring_fuel _ _ _ (le_n _)) in Hk. }
  pose proof (tail_of_length _ _ (skip_ws_tail rest)) as Hws.
  destruct (c =? 123).
  { unfold parse_object. destruct (skip_ws rest) as [|c0 r0] eqn:Hs.
    - apply object_members_fuel with (bound := fuel);
        [apply scan_once_scans|exact IH|simpl; lia..].
    - destruct (c0 =? 125); [discriminate|].
      apply object_members_fuel with (bound := fuel);
        [apply scan_once_scans|exact IH|simpl in *; lia..]. }
  destruct (c =? 91).
  { unfold parse_array. destruct (skip_ws rest) as [|c0 r0] eqn:Hs.
    - apply array_items_fuel with (bound := fuel);
        [apply scan_once_scans|exact IH|simpl; lia..].
    - destruct (c0 =? 93); [discriminate|].
      apply array_items_fuel with (bound := fuel);
        [apply scan_once_scans|exact IH|simpl in *; lia..]. }
  repeat (destruct (startswith _ _); [discriminate|]).
  destruct (match_number (c :: rest)) as [[x r0]|]; discriminate.
Qed.

Lemma json_loads_fuel (s : str) :
  scan_once (S (List.length s)) (skip_ws s) <> PFuel.
Proof.
  apply scan_once_fuel.
  pose proof (tail_of_length _ _ (skip_ws_tail s)). lia.
Qed.

(** ** Stripping spaces and fences *)

Lemma lstrip_space_app (w s : str) : all_space w -> lstrip (w ++ s) = lstrip s.
Proof.
  induction 1 as [|c w Hc _ IH]; simpl; [reflexivity|]. now rewrite Hc.
Qed.

Lemma lstrip_head (c : N) (s : str) : py_isspace c = false -> lstrip (c :: s) = c :: s.
Proof. intros Hc. simpl. now rewrite Hc. Qed.

Lemma all_space_rev (w : str) : all_space w -> all_space (rev w).
Proof. apply Forall_rev. Qed.

Lemma rstrip_app_space (s w : str) : all_space w -> rstrip (s ++ w) = rstrip s.
Proof.
  intros Hw. unfold rstrip. rewrite rev_app_distr.
  now rewrite lstrip_space_app by now apply all_space_rev.
Qed.

Lemma rstrip_last (s : str) (c : N) :
  py_isspace c = false -> rstrip (s ++ [c]) = s ++ [c].
Proof.
  intros Hc. unfold rstrip. rewrite rev_app_distr. simpl. rewrite Hc.
  simpl. now rewrite rev_involutive.
Qed.

(** A text that starts and ends with characters that are not spaces. *)
Lemma py_strip_padded (w1 w2 body : str) (a b : N) :
  all_space w1 -> all_space w2 ->
  py_isspace a = false -> py_isspace b = false ->
  py_strip (w1 ++ (a :: body ++ [b]) ++ w2) = a :: body ++ [b].
Proof.
  intros H1 H2 Ha Hb. unfold py_strip.
  rewrite lstrip_space_app by assumption.
  cbn [app]. rewrite lstrip_head by assumption.
  change (a :: (body ++ [b]) ++ w2) with ((a :: body ++ [b]) ++ w2).
  rewrite rstrip_app_space by assumption.
  change (a :: body ++ [b]) with ((a :: body) ++ [b]).
  now rewrite rstrip_last.
Qed.

Lemma startswith_app (p s : str) : startswith (p ++ s) p = true.
Proof.
  induction p as [|c p IH]; simpl; [now destruct s|].
  now rewrite N.eqb_refl.
Qed.

Lemma endswith_app (s p : str) : endswith (s ++ p) p = true.
Proof. unfold endswith. rewrite rev_app_distr. apply startswith_app. Qed.

Lemma slice_from_app (p s : str) : slice_from (List.length p) (p ++ s) = s.
Proof.
  unfold slice_from. induction p; simpl; auto.
Qed.

Lemma slice_drop_last_app (s p : str) :
  slice_drop_last (List.length p) (s ++ p) = s.
Proof.
  unfold slice_drop_last. rewrite length_app, Nat.add_sub.
  rewrite firstn_app, Nat.sub_diag, firstn_all. simpl. apply app_nil_r.
Qed.

Lemma startswith_head (c x : N) (s p : str) :
  c <> x -> startswith (c :: s) (x :: p) = false.
Proof.
  intros Hne. simpl. apply N.eqb_neq in Hne. rewrite N.eqb_sym in Hne.
  now rewrite Hne.
Qed.

Lemma endswith_last (s p : str) (c x : N) :
  c <> x -> endswith (s ++ [c]) (p ++ [x]) = false.
Proof.
  intros Hne. unfold endswith. rewrite !rev_app_distr. simpl.
  apply N.eqb_neq in Hne. rewrite N.eqb_sym in Hne. now rewrite Hne.
Qed.

Lemma json_ws_isspace (c : N) : json_ws c = true -> py_isspace c = true.
Proof.
  unfold json_ws. intros H.
  repeat (apply orb_true_iff in H as [H|H]);
    apply N.eqb_eq in H; subst c; reflexivity.
Qed.

Lemma json_space_all_space (w : str) : json_space w -> all_space w.
Proof. apply Forall_impl, json_ws_isspace. Qed.

Lemma all_space_app (w1 w2 : str) : all_space w1 -> all_space w2 -> all_space (w1 ++ w2).
Proof. intros H1 H2. apply Forall_app. now split. Qed.

(** The text of an object between spaces strips to the object. *)
Lemma py_strip_object (w1 w2 body : str) :
  all_space w1 -> all_space w2 ->
  py_strip (w1 ++ (123 :: body ++ [125]) ++ w2) = 123 :: body ++ [125].
Proof. intros H1 H2. now apply py_strip_padded. Qed.

Lemma py_strip_object_only (body : str) :
  py_strip (123 :: body ++ [125]) = 123 :: body ++ [125].
Proof.
  pose proof (py_strip_object [] [] body (Forall_nil _) (Forall_nil _)) as H.
  cbn [app] in H. now rewrite app_nil_r in H.
Qed.

Lemma startswith_space_head (w s p : str) (c x : N) :
  all_space w -> py_isspace x = false -> c <> x ->
  startswith (w ++ c :: s) (x :: p) = false.
Proof.
  intros Hw Hx Hc. destruct Hw as [|a w Ha _]; cbn [app].
  - now apply startswith_head.
  - apply startswith_head. intros ->. congruence.
Qed.

Lemma startswith_app_both (p s q : str) :
  startswith (p ++ s) (p ++ q) = startswith s q.
Proof.
  induction p as [|c p IH]; [reflexivity|]. cbn [app startswith].
  now rewrite N.eqb_refl.
Qed.

(** The cleaning of a bare object text. *)
Lemma clean_bare (j body w1 w2 : str) :
  j = w1 ++ (123 :: body ++ [125]) ++ w2 ->
  all_space w1 -> all_space w2 ->
  clean_response (PStr j) = inr (123 :: body ++ [125]).
Proof.
  intros -> H1 H2. unfold clean_response, py_strip_method. cbn [and_then].
  rewrite py_strip_object by assumption.
  change (lit "```json") with [96; 96; 96; 106; 115; 111; 110].
  change (lit "```") with [96; 96; 96].
  rewrite !startswith_head by discriminate.
  change [96; 96; 96] with ([96; 96] ++ [96]).
  change (123 :: body ++ [125]) with ((123 :: body) ++ [125]).
  rewrite endswith_last by discriminate.
  change ((123 :: body) ++ [125]) with (123 :: body ++ [125]).
  now rewrite py_strip_object_only.
Qed.

Lemma slice_from_fence (s : str) : slice_from 3 (lit "```" ++ s) = s.
Proof. reflexivity. Qed.

Lemma slice_from_tagged_fence (s : str) : slice_from 7 (lit "```json" ++ s) = s.
Proof. reflexivity. Qed.

Lemma slice_drop_last_fence (s : str) : slice_drop_last 3 (s ++ lit "```") = s.
Proof. exact (slice_drop_last_app s (lit "```")). Qed.

(** The cleaning of an object text between a fence [tag] and the closing
    fence. *)
Lemma clean_fenced (tag j body w1 w2 p1 p2 : str) :
  j = w1 ++ (123 :: body ++ [125]) ++ w2 ->
  all_space w1 -> all_space w2 -> all_space p1 -> all_space p2 ->
  tag = lit "```json" \/ tag = lit "```" ->
  clean_response (PStr (tag ++ p1 ++ j ++ p2 ++ lit "```"))
  = inr (123 :: body ++ [125]).
Proof.
  intros -> H1 H2 Hp1 Hp2 Htag.
  set (inner := p1 ++ (w1 ++ (123 :: body ++ [125]) ++ w2) ++ p2).
  assert (Hinner : py_strip inner = 123 :: body ++ [125]).
  { subst inner. rewrite <- !app_assoc. rewrite (app_assoc p1 w1).
    rewrite (app_assoc (123 :: body ++ [125])).
    rewrite <- (app_assoc _ w2 p2).
    apply py_strip_object; now apply all_space_app. }
  assert (Hstart : startswith (inner ++ lit "```") (lit "json") = false).
  { subst inner. rewrite <- !app_assoc. rewrite (app_assoc p1 w1).
    change (lit "json") with [106; 115; 111; 110].
    cbn [app]. apply startswith_space_head;
      [now apply all_space_app|reflexivity|discriminate]. }
  replace (tag ++ p1 ++ (w1 ++ (123 :: body ++ [125]) ++ w2) ++ p2 ++ lit "```")
    with (tag ++ inner ++ lit "```")
    by (subst inner; now rewrite <- !app_assoc).
  unfold clean_response, py_strip_method. cbn [and_then].
  assert (Hstrip : py_strip (tag ++ inner ++ lit "```") = tag ++ inner ++ lit "```").
  { unfold py_strip.
    assert (Hl : lstrip (tag ++ inner ++ lit "```") = tag ++ inner ++ lit "```").
    { destruct Htag as [-> | ->]; reflexivity. }
    rewrite Hl. change (lit "```") with ([96; 96] ++ [96]).
    rewrite !app_assoc. now apply rstrip_last. }
  rewrite Hstrip.
  destruct Htag as [-> | ->].
  - rewrite startswith_app, !slice_from_tagged_fence, endswith_app.
    now rewrite slice_drop_last_fence, Hinner.
  - assert (Htagged : startswith (lit "```" ++ inner ++ lit "```")
                                   (lit "```json") = false).
    { change (lit "```json") with (lit "```" ++ lit "json").
      now rewrite startswith_app_both, Hstart. }
    rewrite Htagged, startswith_app, !slice_from_fence, endswith_app.
    now rewrite slice_drop_last_fence, Hinner.
Qed.

(** C4.  For a text [j] that [json.loads] reads as an object, the
    response [j] itself, [j] between a fence with the [json] tag and a
    closing fence, and [j] between a bare fence and a closing fence (in
    both cases with any white space, such as a line break, around [j])
    are cleaned to the same text, the object from its opening to its
    closing brace without fences, so [critic_evaluate] makes the same
    verdict of all three. *)
Theorem fences_are_stripped (j : str) (d : dict) (p1 p2 p3 p4 : str) :
  json_loads j = inr (PDict d) ->
  all_space p1 -> all_space p2 -> all_space p3 -> all_space p4 ->
  let bare := PStr j in
  let tagged := PStr (lit "```json" ++ p1 ++ j ++ p2 ++ lit "```") in
  let fenced := PStr (lit "```" ++ p3 ++ j ++ p4 ++ lit "```") in
  (exists body,
     clean_response bare = inr (123 :: body ++ [125])
     /\ clean_response tagged = inr (123 :: body ++ [125])
     /\ clean_response fenced = inr (123 :: body ++ [125]))
  /\ critic_verdict tagged = critic_verdict bare
  /\ critic_verdict fenced = critic_verdict bare.
Proof.
  intros Hjson H1 H2 H3 H4 bare tagged fenced.
  destruct (json_object_shape _ _ Hjson)
    as (lead & body & trail & Hj & Hlead & Htrail).
  apply json_space_all_space in Hlead, Htrail.
  pose proof (clean_bare j body lead trail Hj Hlead Htrail) as Hbare.
  pose proof (clean_fenced (lit "```json") j body lead trail p1 p2
                Hj Hlead Htrail H1 H2 (or_introl eq_refl)) as Htagged.
  pose proof (clean_fenced (lit "```") j body lead trail p3 p4
                Hj Hlead Htrail H3 H4 (or_intror eq_refl)) as Hfenced.
  split; [now exists body|].
  unfold critic_verdict, critic_try. subst bare tagged fenced.
  now rewrite Hbare, Htagged, Hfenced.
Qed.

Lemma fences_are_stripped_witness :
  let j := jq "{'decision': 'insufficient', 'reasoning': 'off topic', 'refined_query': null}" in
  critic_verdict (PStr (lit "```json" ++ [10] ++ j ++ [10] ++ lit "```"))
  = critic_verdict (PStr j)
  /\ critic_verdict (PStr (lit "```" ++ [10] ++ j ++ [10] ++ lit "```"))
     = critic_verdict (PStr j)
  /\ critic_verdict (PStr j)
     = inr (PDict [(lit "decision", PStr (lit "insufficient"));
                   (lit "reasoning", PStr (lit "off topic"));
                   (lit "refined_query", PNone)]).
Proof.
  intros j.
  destruct (fences_are_stripped j _ [10] [10] [10] [10]
              ltac:(vm_compute; reflexivity)
              ltac:(repeat constructor) ltac:(repeat constructor)
              ltac:(repeat constructor) ltac:(repeat constructor))
    as (_ & Htagged & Hfenced).
  split; [exact Htagged|]. split; [exact Hfenced|].
  vm_compute. reflexivity.
Defined.

(** * Further properties of the program *)

Section Cache.
Context {E : Externals}.

(** X1.  [get_index] loads the index at most once: with the module
    globals set it returns them without touching the files; with the
    globals unset it reads the files exactly once, and either returns
    the loaded pair and stores it, so that a second call answers from
    the globals without reading, or raises and leaves the globals
    unset. *)
Theorem get_index_caches (s : state) r s' t :
  get_index s = (r, s', t) ->
  (forall im, st_index s = Some im -> r = inr im /\ s' = s /\ t = [])
  /\ (st_index s = None ->
      exists loaded, t = [EvReadIndex loaded]
                     /\ (loaded = true <-> exists im, r = inr im))
  /\ (forall im, r = inr im ->
        st_index s' = Some im /\ get_index s' = (inr im, s', []))
  /\ (forall e, r = inl e -> st_index s = None /\ st_index s' = None).
Proof.
  unfold get_index, bind, get_global_index, load_index, call, set_global_index,
    ret.
  destruct s as [w [im0|]]; simpl.
  - intros [= <- <- <-]. split; [|split; [|split]].
    + now intros x [= ->].
    + discriminate.
    + now intros x [= ->].
    + discriminate.
  - destruct (read_index_files w) as [[e|im] w']; simpl; intros [= <- <- <-].
    + split; [|split; [|split]]; try discriminate.
      * intros _. exists false. split; [reflexivity|].
        split; [discriminate|]. now intros [im [=]].
      * now intros e0 _.
    + split; [|split; [|split]]; try discriminate.
      * intros _. exists true. split; [reflexivity|]. split; eauto.
      * now intros x [= ->].
Qed.
End Cache.

Lemma get_index_caches_witness :
  exists s',
    @get_index scripted (start (sample_script []))
    = (inr (tt, sample_metadata), s', [EvReadIndex true])
    /\ @get_index scripted s' = (inr (tt, sample_metadata), s', []).
Proof.
  eexists. split; [vm_compute; reflexivity|].
  destruct (@get_index_caches scripted (start (sample_script [])) _ _ _
              ltac:(vm_compute; reflexivity)) as (_ & _ & Hagain & _).
  exact (proj2 (Hagain _ eq_refl)).
Defined.


Section Warm.
Context {E : Externals}.

Lemma warm_stable (s s' : state) : st_index s' = st_index s -> warm s -> warm s'.
Proof. intros Heq (i & md & Hs & Hmd). exists i, md. now rewrite Heq. Qed.

Lemma keeps_ret {A} Q (a : A) : keeps warm Q (ret a).
Proof. intros s r s' t _ [= <- <- <-]. now split. Qed.

Lemma keeps_lift {A} Q (x : res A) : keeps warm Q (lift x).
Proof. intros s r s' t _ [= <- <- <-]. now split. Qed.

Lemma keeps_bind {A B} Q (m : M A) (f : A -> M B) :
  keeps warm Q m -> (forall a, keeps warm Q (f a)) -> keeps warm Q (bind m f).
Proof.
  intros Hm Hf s r s' t Hs Hrun.
  apply bind_inv in Hrun as [(e & Hms & _)|(a & s1 & t1 & t2 & Hms & Hfs & ->)].
  - eapply Hm; eauto.
  - destruct (Hm _ _ _ _ Hs Hms) as [Hi1 Hq1].
    destruct (Hf a _ _ _ _ (warm_stable _ _ Hi1 Hs) Hfs) as [Hi2 Hq2].
    split; [congruence|]. apply Forall_app. now split.
Qed.

Lemma keeps_call {A} Q (f : world -> res A * world) (ev : res A -> event) :
  (forall r, Q (ev r)) -> keeps warm Q (call f ev).
Proof.
  intros Hev s r s' t _. unfold call.
  destruct (f (st_world s)) as [r0 w']. intros [= <- <- <-].
  split; [reflexivity|]. constructor; [apply Hev|constructor].
Qed.

Lemma get_index_warm (s : state) :
  warm s ->
  exists index metadata,
    metadata <> PNone /\ get_index s = (inr (index, metadata), s, []).
Proof.
  intros (i & md & Hs & Hmd). exists i, md. split; [assumption|].
  unfold get_index, bind, get_global_index. now rewrite Hs.
Qed.

Lemma keeps_collect_results Q metadata rows results :
  keeps warm Q (collect_results metadata rows results).
Proof.
  revert results. induction rows as [|[idx distance] rows IH]; intros results;
    simpl; [apply keeps_ret|].
  apply keeps_bind.
  - destruct (idx <? 0)%Z; [apply keeps_ret|].
    apply keeps_bind; [apply keeps_lift|intros ?; apply keeps_ret].
  - intros [|]; [apply IH|].
    do 5 (apply keeps_bind; [apply keeps_lift|intros ?]). apply IH.
Qed.

Lemma keeps_retrieve query top_k index metadata :
  metadata <> PNone ->
  keeps warm quiet_index (retrieve query top_k (Some index) metadata).
Proof.
  intros Hmd. unfold retrieve. apply keeps_bind.
  - destruct metadata; try apply keeps_ret. contradiction.
  - intros [i m]. apply keeps_bind.
    + unfold azure_embed. apply keeps_bind; [|intros ?; apply keeps_lift].
      apply keeps_call. now intros r.
    + intros emb. apply keeps_bind; [|intros ?; apply keeps_collect_results].
      apply keeps_call. now intros r.
Qed.

Lemma keeps_execute_tool tool_name arguments :
  keeps warm quiet_index (execute_tool tool_name arguments).
Proof.
  unfold execute_tool. destruct (py_eq_str _ _); [|apply keeps_ret].
  apply keeps_bind; [apply keeps_lift|intros query].
  apply keeps_bind; [apply keeps_lift|intros top_k].
  intros s r s' t Hs Hrun.
  destruct (get_index_warm s Hs) as (index & metadata & Hmd & Hget).
  unfold bind at 1 in Hrun. rewrite Hget in Hrun. cbn [app] in Hrun.
  assert (Hrest : (results <- retrieve query top_k (Some index) metadata ;;
                   lift (format_context results)) s = (r, s', t)).
  { destruct ((results <- retrieve query top_k (Some index) metadata ;;
               lift (format_context results)) s) as [[r0 s0] t0].
    exact Hrun. }
  revert Hrest. revert s r s' t Hs Hrun Hget.
  intros s r s' t Hs _ _.
  apply (keeps_bind quiet_index (retrieve query top_k (Some index) metadata)
           (fun results => lift (format_context results))); auto.
  - now apply keeps_retrieve.
  - intros ?; apply keeps_lift.
Qed.

Lemma keeps_run_tool_calls calls messages context :
  keeps warm quiet_index (run_tool_calls calls messages context).
Proof.
  revert messages context.
  induction calls as [|tool_call rest IH]; intros messages context; simpl;
    [apply keeps_ret|].
  do 4 (apply keeps_bind; [apply keeps_lift|intros ?]).
  apply keeps_bind; [apply keeps_execute_tool|intros tool_result].
  apply keeps_bind; [apply keeps_lift|intros tool_call_id].
  apply IH.
Qed.

Lemma keeps_azure_chat_with_tools messages tools system_prompt :
  keeps warm quiet_index (azure_chat_with_tools messages tools system_prompt).
Proof.
  unfold azure_chat_with_tools. apply keeps_bind; [|intros ?; apply keeps_lift].
  apply keeps_call. now intros r.
Qed.

Lemma keeps_critic_evaluate query context :
  keeps warm quiet_index (critic_evaluate query context).
Proof.
  unfold critic_evaluate, azure_chat.
  apply keeps_bind; [|intros ?; apply keeps_lift].
  apply keeps_bind; [|intros ?; apply keeps_lift].
  apply keeps_call. now intros r.
Qed.

Lemma keeps_agent_round user_query messages context :
  keeps warm quiet_index (agent_round user_query messages context).
Proof.
  unfold agent_round.
  apply keeps_bind; [apply keeps_azure_chat_with_tools|intros response].
  apply keeps_bind; [apply keeps_lift|intros tool_calls].
  destruct (py_truthy tool_calls).
  2:{ apply keeps_bind; [apply keeps_lift|intros ?; apply keeps_ret]. }
  apply keeps_bind; [apply keeps_lift|intros calls].
  apply keeps_bind; [apply keeps_run_tool_calls|intros [msgs ctx]].
  destruct ctx as [[|c cs]|]; try apply keeps_ret.
  apply keeps_bind; [apply keeps_critic_evaluate|intros critic_result].
  apply keeps_bind; [apply keeps_lift|intros decision].
  destruct (py_eq_str decision (lit "sufficient")); [apply keeps_ret|].
  apply keeps_bind.
  - destruct (py_eq_str decision (lit "needs_refinement")); [|apply keeps_ret].
    apply keeps_bind; [apply keeps_lift|intros ?; apply keeps_ret].
  - intros [|]; [|apply keeps_ret].
    apply keeps_bind; [apply keeps_lift|intros ?; apply keeps_ret].
Qed.

Lemma keeps_agent_loop n user_query iteration messages context :
  keeps warm quiet_index (agent_loop n user_query iteration messages context).
Proof.
  revert iteration messages context.
  induction n as [|n IH]; intros iteration messages context; simpl;
    [apply keeps_ret|].
  apply keeps_bind; [apply keeps_agent_round|].
  intros [m c|m c|v]; [apply IH|apply keeps_ret..].
Qed.

(** X2.  A run of [agentic_rag] that starts with the index and its
    metadata already in the module globals never reads the index files,
    however many searches it makes, and leaves the globals as they
    were. *)
Theorem warm_run_reads_no_index
  (user_query : str) (max_iterations : Z) (s : state) r s' t :
  warm s ->
  agentic_rag user_query max_iterations s = (r, s', t) ->
  st_index s' = st_index s
  /\ Forall (fun ev => reads_index ev = false) t.
Proof.
  revert s r s' t.
  change (keeps warm quiet_index (agentic_rag user_query max_iterations)).
  unfold agentic_rag.
  apply keeps_bind; [apply keeps_agent_loop|].
  intros [m c|v]; [|apply keeps_ret].
  apply keeps_bind; [apply keeps_azure_chat_with_tools|intros ?; apply keeps_lift].
Qed.
End Warm.

Lemma warm_run_reads_no_index_witness :
  exists r s' t,
    @agentic_rag scripted (lit "What is zero trust?") 3
      (warmed [asks_tools [search_call (lit "call_1")]; verdict_sufficient;
               says (lit "Zero trust means ...")]) = (r, s', t)
    /\ length t = 5%nat
    /\ Forall (fun ev => reads_index ev = false) t.
Proof.
  destruct (@agentic_rag scripted (lit "What is zero trust?") 3
              (warmed [asks_tools [search_call (lit "call_1")];
                       verdict_sufficient; says (lit "Zero trust means ...")]))
    as [[r s'] t] eqn:Hrun.
  exists r, s', t. split; [reflexivity|].
  split; [vm_compute in Hrun; now injection Hrun as <- <- <-|].
  refine (proj2 (warm_run_reads_no_index _ _ _ _ _ _ _ Hrun)).
  exists tt, sample_metadata. split; [reflexivity|discriminate].
Defined.


Section FailStop.
Context {E : Externals}.

Lemma fail_stop_silent {A} (m : M A) :
  (forall s, exists r s', m s = (r, s', [])) -> fail_stop m.
Proof.
  intros Hm s r s' t Hrun. destruct (Hm s) as (r0 & s0 & Hs). rewrite Hs in Hrun.
  injection Hrun as <- <- <-. split; [constructor|]. split; [constructor|].
  intros before ev Hnil. now destruct before.
Qed.

Lemma fail_stop_ret {A} (a : A) : fail_stop (ret a).
Proof. apply fail_stop_silent. intros s. now do 2 eexists. Qed.

Lemma fail_stop_lift {A} (x : res A) : fail_stop (lift x).
Proof. apply fail_stop_silent. intros s. now do 2 eexists. Qed.

Lemma fail_stop_bind {A B} (m : M A) (f : A -> M B) :
  fail_stop m -> (forall a, fail_stop (f a)) -> fail_stop (bind m f).
Proof.
  intros Hm Hf s r s' t Hrun.
  apply bind_inv in Hrun as [(e & Hms & ->)|(a & s1 & t1 & t2 & Hms & Hfs & ->)].
  - destruct (Hm _ _ _ _ Hms) as (H1 & H2 & H3). split; [assumption|].
    split; [discriminate|]. intros before ev Ht Hev.
    destruct (H3 _ _ Ht Hev) as (e0 & [= <-] & He). eauto.
  - destruct (Hm _ _ _ _ Hms) as (_ & H2 & _).
    specialize (H2 a eq_refl).
    destruct (Hf a _ _ _ _ Hfs) as (F1 & F2 & F3).
    split; [|split].
    + destruct t2 as [|ev2 t2].
      * rewrite app_nil_r. clear -H2. induction t1 as [|x [|y t1] IH];
          try constructor.
        -- now inversion H2.
        -- apply IH. now inversion H2.
      * rewrite removelast_app by discriminate. apply Forall_app. now split.
    + intros b ->. apply Forall_app. split; [assumption|]. exact (F2 b eq_refl).
    + intros before ev Ht Hev.
      destruct t2 as [|ev2 t2].
      * rewrite app_nil_r in Ht. subst t1.
        apply Forall_app in H2 as [_ H2]. inversion H2; congruence.
      * destruct (@exists_last _ (ev2 :: t2)) as (front & lst & Hlast);
          [discriminate|].
        rewrite Hlast, app_assoc in Ht.
        apply app_inj_tail in Ht as [_ <-].
        exact (F3 _ _ Hlast Hev).
Qed.

Lemma fail_stop_call {A} (f : world -> res A * world) (ev : res A -> event) :
  (forall a, failed_event (ev (inr a)) = false) ->
  (forall e e', event_error (ev (inl e)) = Some e' -> e' = e) ->
  fail_stop (call f ev).
Proof.
  intros Hok Herr s r s' t. unfold call.
  destruct (f (st_world s)) as [r0 w']. intros [= <- <- <-].
  split; [constructor|]. split.
  - intros a ->. constructor; [apply Hok|constructor].
  - intros before ev0 Ht Hev.
    destruct before as [|x [|y before]]; try discriminate.
    injection Ht as <-. destruct r0 as [e|a].
    + exists e. split; [reflexivity|]. apply Herr.
    + now rewrite Hok in Hev.
Qed.

Ltac fail_stop_steps :=
  repeat first
    [ apply fail_stop_ret
    | apply fail_stop_lift
    | apply fail_stop_call; [now intros ?|now intros ? ? [= ->]]
    | apply fail_stop_call; [now intros ?|discriminate]
    | apply fail_stop_bind; [|intros ?] ].

Lemma fail_stop_load_index : fail_stop load_index.
Proof. unfold load_index. fail_stop_steps. Qed.

Lemma fail_stop_get_index : fail_stop get_index.
Proof.
  unfold get_index. apply fail_stop_bind.
  - apply fail_stop_silent. intros s. now do 2 eexists.
  - intros [im|]; [apply fail_stop_ret|].
    apply fail_stop_bind; [apply fail_stop_load_index|intros im].
    apply fail_stop_bind; [|intros ?; apply fail_stop_ret].
    apply fail_stop_silent. intros s. now do 2 eexists.
Qed.

Lemma fail_stop_collect_results metadata rows results :
  fail_stop (collect_results metadata rows results).
Proof.
  revert results. induction rows as [|[idx distance] rows IH]; intros results;
    simpl; [apply fail_stop_ret|].
  apply fail_stop_bind.
  - destruct (idx <? 0)%Z; fail_stop_steps.
  - intros [|]; [apply IH|].
    do 5 (apply fail_stop_bind; [apply fail_stop_lift|intros ?]). apply IH.
Qed.

Lemma fail_stop_retrieve query top_k index metadata :
  fail_stop (retrieve query top_k index metadata).
Proof.
  unfold retrieve. apply fail_stop_bind.
  - destruct index, metadata;
      first [apply fail_stop_load_index | apply fail_stop_ret].
  - intros [i m]. unfold azure_embed.
    apply fail_stop_bind; [fail_stop_steps|intros emb].
    apply fail_stop_bind; [fail_stop_steps|intros rows].
    apply fail_stop_collect_results.
Qed.

Lemma fail_stop_execute_tool tool_name arguments :
  fail_stop (execute_tool tool_name arguments).
Proof.
  unfold execute_tool. destruct (py_eq_str _ _); [|apply fail_stop_ret].
  apply fail_stop_bind; [apply fail_stop_lift|intros query].
  apply fail_stop_bind; [apply fail_stop_lift|intros top_k].
  apply fail_stop_bind; [apply fail_stop_get_index|intros [index metadata]].
  apply fail_stop_bind; [apply fail_stop_retrieve|intros results].
  apply fail_stop_lift.
Qed.

Lemma fail_stop_run_tool_calls calls messages context :
  fail_stop (run_tool_calls calls messages context).
Proof.
  revert messages context.
  induction calls as [|tool_call rest IH]; intros messages context; simpl;
    [apply fail_stop_ret|].
  do 4 (apply fail_stop_bind; [apply fail_stop_lift|intros ?]).
  apply fail_stop_bind; [apply fail_stop_execute_tool|intros tool_result].
  apply fail_stop_bind; [apply fail_stop_lift|intros tool_call_id].
  apply IH.
Qed.

Lemma fail_stop_azure_chat_with_tools messages tools system_prompt :
  fail_stop (azure_chat_with_tools messages tools system_prompt).
Proof. unfold azure_chat_with_tools. fail_stop_steps. Qed.

Lemma fail_stop_critic_evaluate query context :
  fail_stop (critic_evaluate query context).
Proof. unfold critic_evaluate, azure_chat. fail_stop_steps. Qed.

Lemma fail_stop_agent_round user_query messages context :
  fail_stop (agent_round user_query messages context).
Proof.
  unfold agent_round.
  apply fail_stop_bind; [apply fail_stop_azure_chat_with_tools|intros response].
  apply fail_stop_bind; [apply fail_stop_lift|intros tool_calls].
  destruct (py_truthy tool_calls); [|fail_stop_steps].
  apply fail_stop_bind; [apply fail_stop_lift|intros calls].
  apply fail_stop_bind; [apply fail_stop_run_tool_calls|intros [msgs ctx]].
  destruct ctx as [[|c cs]|]; try apply fail_stop_ret.
  apply fail_stop_bind; [apply fail_stop_critic_evaluate|intros critic_result].
  apply fail_stop_bind; [apply fail_stop_lift|intros decision].
  destruct (py_eq_str decision (lit "sufficient")); [apply fail_stop_ret|].
  apply fail_stop_bind.
  - destruct (py_eq_str decision (lit "needs_refinement")); fail_stop_steps.
  - intros [|]; fail_stop_steps.
Qed.

Lemma fail_stop_agent_loop n user_query iteration messages context :
  fail_stop (agent_loop n user_query iteration messages context).
Proof.
  revert iteration messages context.
  induction n as [|n IH]; intros iteration messages context; simpl;
    [apply fail_stop_ret|].
  apply fail_stop_bind; [apply fail_stop_agent_round|].
  intros [m c|m c|v]; [apply IH|apply fail_stop_ret..].
Qed.

Lemma fail_stop_agentic_rag user_query max_iterations :
  fail_stop (agentic_rag user_query max_iterations).
Proof.
  unfold agentic_rag.
  apply fail_stop_bind; [apply fail_stop_agent_loop|].
  intros [m c|v]; [|apply fail_stop_ret].
  apply fail_stop_bind;
    [apply fail_stop_azure_chat_with_tools|intros ?; apply fail_stop_lift].
Qed.

Lemma removelast_middle {A} (before after : list A) (x y : A) :
  removelast (before ++ x :: y :: after)
  = before ++ x :: removelast (y :: after).
Proof. rewrite removelast_app by discriminate. reflexivity. Qed.

(** X3.  In a run of [agentic_rag] a failed call to a collaborator (the
    chat endpoint, the embedding endpoint, the index search, the reading
    of the index files) is the last thing the run does: no call follows
    it, the run raises, and it raises the very exception the call
    raised; nothing is retried or swallowed.  A run that returns an
    answer has seen no failed call. *)
Theorem collaborator_failure_is_final
  (user_query : str) (max_iterations : Z) (s : state) r s' t :
  agentic_rag user_query max_iterations s = (r, s', t) ->
  (forall before ev after,
     t = before ++ ev :: after ->
     failed_event ev = true ->
     after = []
     /\ exists e, r = inl e
                  /\ (forall e', event_error ev = Some e' -> e' = e))
  /\ (forall answer,
        r = inr answer -> Forall (fun ev => failed_event ev = false) t).
Proof.
  intros Hrun.
  destruct (fail_stop_agentic_rag _ _ _ _ _ _ Hrun) as (H1 & H2 & H3).
  split; [|exact H2].
  intros before ev after -> Hev.
  destruct after as [|y after].
  - split; [reflexivity|]. exact (H3 before ev eq_refl Hev).
  - rewrite removelast_middle in H1.
    apply Forall_app in H1 as [_ H1]. inversion H1; congruence.
Qed.
End FailStop.

Lemma collaborator_failure_is_final_witness :
  exists s' t ev,
    @agentic_rag scripted (lit "What is zero trust?") 3
      (start (sample_script [asks_tools [search_call (lit "call_1")]]))
    = (inl (ExternalError 500), s', t)
    /\ nth_error t 4 = Some ev
    /\ length t = 5%nat
    /\ event_error ev = Some (ExternalError 500).
Proof.
  destruct (@agentic_rag scripted (lit "What is zero trust?") 3
              (start (sample_script [asks_tools [search_call (lit "call_1")]])))
    as [[r s'] t] eqn:Hrun.
  pose proof (collaborator_failure_is_final _ _ _ _ _ _ Hrun) as [Hlast _].
  vm_compute in Hrun. injection Hrun as <- <- <-.
  eexists _, _, _. split; [reflexivity|]. split; [reflexivity|].
  split; [reflexivity|].
  match type of Hlast with
  | forall before ev after, ?t = _ -> _ =>
      destruct (Hlast (firstn 4 t) _ [] eq_refl eq_refl)
        as (_ & e & He & Hsame)
  end.
  injection He as <-. reflexivity.
Defined.

Section CallBound.
Context {E : Externals}.

Lemma agent_loop_calls n user_query iteration messages context
  (s : state) r s' t :
  agent_loop n user_query iteration messages context s = (r, s', t) ->
  exists j,
    j = List.length (critic_outcomes t)
    /\ ((chat_kinds t = rounds j /\ (j <= n)%nat
         /\ ((exists m c, r = inr (LoopDone m c)) \/ (exists e, r = inl e)))
        \/ (chat_kinds t = rounds j ++ [ToolRound] /\ (j < n)%nat
            /\ ((exists v, r = inr (LoopReturn v)) \/ (exists e, r = inl e)))).
Proof.
  revert iteration messages context s t.
  induction n as [|n IH]; intros iteration messages context s t; simpl.
  { intros [= <- <- <-]. exists 0%nat. split; [reflexivity|]. left. eauto 6. }
  intros H.
  apply bind_inv in H as [(e & H & ->)|(out & s1 & t1 & t2 & H1 & H & ->)].
  - apply agent_round_cases in H as [(Hk & Ho & _)|(o & Hk & Ho & Hr)];
      rewrite Hk, Ho.
    + exists 0%nat. split; [reflexivity|]. right.
      split; [reflexivity|]. split; [lia|]. eauto.
    + exists 1%nat. split; [reflexivity|]. left.
      split; [reflexivity|]. split; [lia|]. eauto.
  - rewrite chat_kinds_app, critic_outcomes_app, length_app.
    apply agent_round_cases in H1 as [(Hk & Ho & Hr)|(o & Hk & Ho & Hr)];
      rewrite Hk, Ho.
    + destruct Hr as [[e [=]]|[v [= ->]]]. injection H as <- _ <-.
      exists 0%nat. split; [reflexivity|]. right.
      split; [reflexivity|]. split; [lia|]. eauto.
    + destruct o as [e|v]; [discriminate|].
      destruct (approves v).
      * destruct Hr as (m & c & [= ->]). injection H as <- _ <-.
        exists 1%nat. split; [reflexivity|]. left.
        split; [reflexivity|]. split; [lia|]. eauto.
      * destruct Hr as (m & c & [= ->]).
        apply IH in H as (j & -> & Hj). exists (S (List.length (critic_outcomes t2))).
        split; [reflexivity|].
        destruct Hj as [(-> & Hle & Hr)|(-> & Hlt & Hr)].
        -- left. split; [reflexivity|]. split; [lia|assumption].
        -- right. split; [reflexivity|]. split; [lia|assumption].
Qed.

Lemma chat_kinds_length (t : list event) :
  List.length (chat_kinds t) = List.length (chat_posts t).
Proof. unfold chat_kinds. apply length_map. Qed.

Lemma rounds_length (n : nat) : List.length (rounds n) = (2 * n)%nat.
Proof. induction n; simpl; lia. Qed.

(** X4.  Every run of [agentic_rag] posts to the chat endpoint one
    tool-augmented call and one critic call per critic evaluation, and
    then at most one more call: nothing (the critic raised), one
    tool-augmented call (a direct answer, or a round that raised before
    the critic), or the synthesis call.  There are at most
    [max_iterations] critic evaluations, strictly fewer when the run
    ends on a tool-augmented call, so a run makes at most
    [2 * max_iterations + 1] chat calls. *)
Theorem chat_calls_bounded
  (user_query : str) (max_iterations : Z) (s : state) r s' t :
  agentic_rag user_query max_iterations s = (r, s', t) ->
  exists closing,
    chat_kinds t = rounds (List.length (critic_outcomes t)) ++ closing
    /\ (List.length (critic_outcomes t) <= Z.to_nat max_iterations)%nat
    /\ (closing = [] /\ (exists e, r = inl e)
        \/ closing = [ToolRound]
           /\ (List.length (critic_outcomes t) < Z.to_nat max_iterations)%nat
        \/ closing = [SynthesisCall])
    /\ (List.length (chat_posts t) <= 2 * Z.to_nat max_iterations + 1)%nat.
Proof.
  intros H.
  apply agentic_rag_split in H as (r1 & s1 & t1 & Hloop & Hrest).
  pose proof (run_critic_outcomes _ _ _ _ _ Hrest) as Ht.
  rewrite <- chat_kinds_length, Ht.
  apply agent_loop_calls in Hloop as (j & <- & Hj).
  destruct Hj as [(Hk & Hle & [(m & c & ->)|(e & ->)])
                 |(Hk & Hlt & [(v & ->)|(e & ->)])].
  - destruct Hrest as (reply & -> & _). rewrite chat_kinds_app, Hk.
    destruct (synthesis_post (m ++
      [message "user" (PStr (final_prompt user_query c))]) reply) as [-> _].
    exists [SynthesisCall]. split; [reflexivity|]. split; [assumption|].
    split; [auto|]. rewrite length_app, rounds_length. simpl. lia.
  - destruct Hrest as [-> ->]. rewrite Hk. exists [].
    split; [now rewrite app_nil_r|]. split; [assumption|].
    split; [eauto|]. rewrite rounds_length. lia.
  - destruct Hrest as [-> ->]. rewrite Hk. exists [ToolRound].
    split; [reflexivity|]. split; [lia|]. split; [auto|].
    rewrite length_app, rounds_length. simpl. lia.
  - destruct Hrest as [-> ->]. rewrite Hk. exists [ToolRound].
    split; [reflexivity|]. split; [lia|]. split; [auto|].
    rewrite length_app, rounds_length. simpl. lia.
Qed.
End CallBound.

Lemma chat_calls_bounded_witness :
  exists r s' t,
    @agentic_rag scripted (lit "What is zero trust?") 2 never_approved
    = (r, s', t)
    /\ List.length (chat_posts t) = 5%nat
    /\ (List.length (chat_posts t) <= 2 * Z.to_nat 2 + 1)%nat.
Proof.
  destruct (@agentic_rag scripted (lit "What is zero trust?") 2 never_approved)
    as [[r s'] t] eqn:Hrun.
  exists r, s', t. split; [reflexivity|].
  destruct (chat_calls_bounded _ _ _ _ _ _ Hrun) as (closing & _ & _ & _ & Hb).
  split; [|exact Hb].
  vm_compute in Hrun. now injection Hrun as <- <- <-.
Defined.
Section NoBudget.
Context {E : Externals}.

(** X5.  With [max_iterations <= 0] the loop body never runs:
    [agentic_rag] makes exactly one call, the synthesis call, whose
    conversation is the question followed by the final prompt with
    ["No context retrieved."] in place of a context; it searches
    nothing, leaves the index globals alone and returns what the
    synthesis yields. *)
Theorem no_budget_no_search
  (user_query : str) (max_iterations : Z) (s : state) r s' t :
  (max_iterations <= 0)%Z ->
  agentic_rag user_query max_iterations s = (r, s', t) ->
  exists reply,
    t = [EvChatPost
           (tools_body
              [message "user" (PStr user_query);
               message "user"
                 (PStr (lit "Based on the retrieved information, provide a comprehensive answer to the user's question."
                        ++ [10] ++ lit "    " ++ [10]
                        ++ lit "User Question: " ++ user_query ++ [10; 10]
                        ++ lit "Retrieved Context:" ++ [10]
                        ++ lit "No context retrieved."
                        ++ [10; 10]
                        ++ lit "Provide a detailed answer with proper citations."))]
              PNone AGENT_SYSTEM_PROMPT) reply]
    /\ r = synthesis_result reply
    /\ st_index s' = st_index s.
Proof.
  intros Hle H.
  assert (Hs : st_index s' = st_index s).
  { revert H. unfold agentic_rag. rewrite Z.sub_0_r.
    replace (Z.to_nat max_iterations) with 0%nat by lia. cbn [agent_loop].
    rewrite bind_ret. unfold bind, azure_chat_with_tools, bind, call, lift.
    destruct (post_chat _ _) as [[e|data] w']; simpl.
    - now intros [= _ <- _].
    - destruct (chat_message data) as [e|m]; simpl; [now intros [= _ <- _]|].
      destruct (py_get m _ _); now intros [= _ <- _]. }
  apply agentic_rag_split in H as (r1 & s1 & t1 & Hloop & Hrest).
  replace (Z.to_nat max_iterations) with 0%nat in Hloop by lia.
  injection Hloop as <- <- <-.
  destruct Hrest as (reply & -> & ->). exists reply. auto.
Qed.
End NoBudget.

Lemma no_budget_no_search_witness :
  exists s' t,
    @agentic_rag scripted (lit "What is zero trust?") (-1)
      (start (sample_script [says (lit "I cannot tell.")]))
    = (inr (PStr (lit "I cannot tell.")), s', t)
    /\ List.length t = 1%nat.
Proof.
  destruct (@agentic_rag scripted (lit "What is zero trust?") (-1)
              (start (sample_script [says (lit "I cannot tell.")])))
    as [[r s'] t] eqn:Hrun.
  destruct (no_budget_no_search _ (-1)%Z _ _ _ _ ltac:(lia) Hrun)
    as (reply & Ht & Hr & _).
  exists s', t. split; [|now rewrite Ht].
  vm_compute in Hrun. now injection Hrun as <- <- <-.
Defined.
Section Hits.
Context {E : Externals}.



End Hits.

Section NothingFound.
Context {E : Externals}.

Lemma collect_results_padding metadata rows results (s : state) :
  Forall (fun row : Z * pyfloat => (fst row < 0)%Z) rows ->
  collect_results metadata rows results s = (inr results, s, []).
Proof.
  induction 1 as [|[idx distance] rows Hneg _ IH]; [reflexivity|].
  cbn [collect_results]. cbn [fst] in Hneg.
  replace (idx <? 0)%Z with true by lia. now rewrite bind_ret.
Qed.

Lemma get_index_events (s : state) r s' t :
  get_index s = (r, s', t) -> t = [] \/ exists loaded, t = [EvReadIndex loaded].
Proof.
  unfold get_index, bind, get_global_index, load_index, call, set_global_index,
    ret.
  destruct (st_index s) as [im|]; [intros [= _ _ <-]; now left|].
  destruct (read_index_files _) as [[e|im] w']; intros [= _ _ <-]; eauto.
Qed.

Lemma retrieve_search_rows query top_k index metadata (s : state) r s' t
  embedding k rows :
  retrieve query top_k index metadata s = (r, s', t) ->
  In (EvSearch embedding k (inr rows)) t ->
  exists metadata' s1 s2 t1 t2,
    t = t1 ++ t2
    /\ collect_results metadata' rows [] s1 = (r, s2, t2)
    /\ s' = s2.
Proof.
  unfold retrieve. intros Hrun Hin.
  assert (Hno_load : forall (m : M (faiss_index * pyval)) x y z,
            (m = load_index \/ exists im, m = ret im) ->
            m s = (x, y, z) -> ~ In (EvSearch embedding k (inr rows)) z).
  { intros m x y z [->|[im ->]] Hm.
    - unfold load_index, call in Hm. destruct (read_index_files _) as [r0 w'].
      injection Hm as _ _ <-. now intros [[=]|[]].
    - injection Hm as _ _ <-. now intros []. }
  assert (Hno_embed : forall text (s0 : state) x y z,
            azure_embed text s0 = (x, y, z) ->
            ~ In (EvSearch embedding k (inr rows)) z).
  { intros text s0 x y z Hm. unfold azure_embed in Hm.
    apply bind_inv in Hm as [(e & Hm & _)|(d & s1 & t1 & t2 & Hc & Hl & ->)].
    - unfold call in Hm. destruct (post_embed _ _) as [r0 w'].
      injection Hm as _ _ <-. now intros [[=]|[]].
    - unfold call in Hc. destruct (post_embed _ _) as [r0 w'].
      injection Hc as _ _ <-. apply lift_inv in Hl as (_ & _ & ->).
      now intros [[=]|[]]. }
  apply bind_inv in Hrun
    as [(e & Hrun & ->)|([i m] & s1 & t1 & t2 & Hload & Hrun & ->)].
  { exfalso. revert Hin. eapply Hno_load; [|exact Hrun].
    destruct index, metadata; eauto. }
  assert (H1 : ~ In (EvSearch embedding k (inr rows)) t1).
  { eapply Hno_load; [|exact Hload]. destruct index, metadata; eauto. }
  apply bind_inv in Hrun
    as [(e & Hrun & ->)|(emb & s2 & t3 & t4 & Hemb & Hrun & ->)].
  { exfalso. apply in_app_or in Hin as [Hin|Hin]; [now apply H1|].
    revert Hin. eapply Hno_embed; exact Hrun. }
  apply Hno_embed in Hemb.
  apply bind_inv in Hrun
    as [(e & Hrun & ->)|(rows0 & s3 & t5 & t6 & Hc & Hrun & ->)].
  { exfalso. unfold call in Hrun. destruct (index_search _ _ _ _) as [r0 w'].
    injection Hrun as -> _ <-.
    apply in_app_or in Hin as [Hin|Hin]; [now apply H1|].
    apply in_app_or in Hin as [Hin|Hin]; [now apply Hemb|].
    now destruct Hin as [[=]|[]]. }
  unfold call in Hc. destruct (index_search _ _ _ _) as [r0 w'].
  injection Hc as -> <- <-.
  pose proof (emits_collect_results
                (fun ev => forall a b c, ev <> EvSearch a b c)
                _ _ _ _ _ _ _ Hrun) as Hq.
  assert (rows0 = rows) as ->.
  { apply in_app_or in Hin as [Hin|Hin]; [now destruct (H1 Hin)|].
    apply in_app_or in Hin as [Hin|Hin]; [now destruct (Hemb Hin)|].
    destruct Hin as [[= _ _ ->]|Hin]; [reflexivity|].
    rewrite Forall_forall in Hq. now destruct (Hq _ Hin embedding k (inr rows)). }
  exists m, (with_world s2 w'), s', (t1 ++ t3 ++ [EvSearch emb top_k (inr rows)]), t6.
  split; [now rewrite <- !app_assoc|]. split; [assumption|reflexivity].
Qed.

(** X7.  When the index search of a ["search_nist_knowledge"] call
    returns only negative labels, the tool result is the sentinel
    ["No relevant information found."], whatever the metadata holds; the
    call does not raise. *)
Theorem nothing_found_sentinel
  (arguments : pyval) (s : state) r s' t embedding top_k rows :
  execute_tool (PStr (lit "search_nist_knowledge")) arguments s = (r, s', t) ->
  In (EvSearch embedding top_k (inr rows)) t ->
  Forall (fun row : Z * pyfloat => (fst row < 0)%Z) rows ->
  r = inr (lit "No relevant information found.").
Proof.
  unfold execute_tool.
  replace (py_eq_str (PStr (lit "search_nist_knowledge"))
                     (lit "search_nist_knowledge")) with true
    by (vm_compute; reflexivity).
  intros Hrun Hin Hneg.
  apply bind_inv in Hrun
    as [(e & Hrun & ->)|(query & s1 & t1 & t2 & H1 & Hrun & ->)].
  { apply lift_inv in Hrun as (_ & _ & ->). destruct Hin. }
  apply lift_inv in H1 as (_ & -> & ->).
  apply bind_inv in Hrun
    as [(e & Hrun & ->)|(k & s1 & t1 & t3 & H1 & Hrun & ->)].
  { apply lift_inv in Hrun as (_ & _ & ->). destruct Hin. }
  apply lift_inv in H1 as (_ & -> & ->).
  cbn [app] in Hin.
  apply bind_inv in Hrun
    as [(e & Hrun & ->)|([index metadata] & s1 & t1 & t2 & H1 & Hrun & ->)].
  { apply get_index_events in Hrun as [->|[loaded ->]];
      [destruct Hin|now destruct Hin as [[=]|[]]]. }
  apply in_app_or in Hin as [Hin|Hin].
  { apply get_index_events in H1 as [->|[loaded ->]];
      [destruct Hin|now destruct Hin as [[=]|[]]]. }
  apply bind_inv in Hrun
    as [(e & Hrun & ->)|(results & s2 & t3 & t4 & Hret & Hrun & ->)].
  - destruct (retrieve_search_rows _ _ _ _ _ _ _ _ _ _ _ Hrun Hin)
      as (md & s3 & s4 & t5 & t6 & _ & Hcollect & _).
    rewrite collect_results_padding in Hcollect by assumption. discriminate.
  - apply lift_inv in Hrun as (-> & _ & ->). rewrite app_nil_r in Hin.
    destruct (retrieve_search_rows _ _ _ _ _ _ _ _ _ _ _ Hret Hin)
      as (md & s3 & s4 & t5 & t6 & _ & Hcollect & _).
    rewrite collect_results_padding in Hcollect by assumption.
    now injection Hcollect as <- _ _.
Qed.
End NothingFound.

Lemma nothing_found_sentinel_witness :
  exists s' t,
    @execute_tool scripted (PStr (lit "search_nist_knowledge"))
      (PDict [(lit "query", PStr (lit "quantum"))]) (start finds_nothing)
    = (inr (lit "No relevant information found."), s', t)
    /\ List.length t = 3%nat.
Proof.
  destruct (@execute_tool scripted (PStr (lit "search_nist_knowledge"))
              (PDict [(lit "query", PStr (lit "quantum"))])
              (start finds_nothing)) as [[r s'] t] eqn:Hrun.
  pose proof (fun embedding top_k rows =>
                @nothing_found_sentinel scripted _ _ _ _ _
                  embedding top_k rows Hrun) as Hnone.
  vm_compute in Hrun. injection Hrun as _ _ Ht. rewrite <- Ht in Hnone.
  exists s', t. split; [|now rewrite <- Ht].
  rewrite (Hnone _ _ _ (or_intror (or_intror (or_introl eq_refl))))
    by (repeat constructor; simpl; lia).
  reflexivity.
Defined.
Section CriticFailures.
Context {E : Externals}.

(** X8.  A critic verdict that is a JSON object whose ["reasoning"] is
    present and is neither a string nor a list (a number, a boolean,
    [null], an object) makes [critic_evaluate] raise [TypeError] from
    the slice on line 111, whatever the decision is; the handler for
    [JSONDecodeError] does not catch it, and a run of [agentic_rag] in
    which this happens ends with that exception, without a synthesis
    call. *)
Theorem critic_log_line_raises
  (query context : str) (s : state) data w' response cleaned
  (d : dict) (reasoning : pyval) :
  post_chat (chat_body (critic_prompt query context) CRITIC_SYSTEM_PROMPT)
            (st_world s) = (inr data, w') ->
  chat_content data = inr response ->
  clean_response response = inr cleaned ->
  json_loads cleaned = inr (PDict d) ->
  dict_lookup (lit "reasoning") d = Some reasoning ->
  (forall text, reasoning <> PStr text) ->
  (forall items, reasoning <> PList items) ->
  critic_evaluate query context s
  = (inl TypeError, with_world s w',
     [EvChatPost (chat_body (critic_prompt query context) CRITIC_SYSTEM_PROMPT)
                 (inr data)])
  /\ forall user_query max_iterations (s0 : state) r s1 t k,
       agentic_rag user_query max_iterations s0 = (r, s1, t) ->
       nth_error (critic_replies t) k = Some (inr data) ->
       r = inl TypeError /\ chat_kinds t = rounds (S k).
Proof.
  intros Hpost Hcontent Hclean Hjson Hreasoning Hstr Hlist.
  assert (Hout : critic_outcome (inr data) = inl TypeError).
  { unfold critic_outcome, critic_verdict, critic_try, critic_log_record; simpl.
    rewrite Hcontent; simpl. rewrite Hclean; simpl. rewrite Hjson; simpl.
    rewrite Hreasoning.
    destruct (dict_lookup (lit "decision") d); simpl;
      destruct reasoning; try reflexivity;
      first [now destruct (Hstr s2) | now destruct (Hlist l)
            | now destruct (Hstr s3) | now destruct (Hstr s0)
            | now destruct (Hstr s1) ]. }
  split.
  - rewrite critic_evaluate_run. cbv zeta. now rewrite Hpost, Hout.
  - intros user_query max_iterations s0 r s1 t k Hrun Hnth.
    apply nth_critic_outcome in Hnth. rewrite Hout in Hnth.
    destruct (run_critic_raises _ _ _ _ _ _ _ _ Hrun Hnth) as (Hkinds & Hr).
    now split.
Qed.

(** X9.  When the critic's reply carries a [content] that is not a
    string (for instance [null]), [critic_evaluate] raises
    [AttributeError] from [response.strip()] on line 96; the handler
    does not catch it, and a run of [agentic_rag] in which this happens
    ends with that exception, without a synthesis call. *)
Theorem critic_reply_without_text
  (query context : str) (s : state) data w' response :
  post_chat (chat_body (critic_prompt query context) CRITIC_SYSTEM_PROMPT)
            (st_world s) = (inr data, w') ->
  chat_content data = inr response ->
  (forall text, response <> PStr text) ->
  critic_evaluate query context s
  = (inl AttributeError, with_world s w',
     [EvChatPost (chat_body (critic_prompt query context) CRITIC_SYSTEM_PROMPT)
                 (inr data)])
  /\ forall user_query max_iterations (s0 : state) r s1 t k,
       agentic_rag user_query max_iterations s0 = (r, s1, t) ->
       nth_error (critic_replies t) k = Some (inr data) ->
       r = inl AttributeError /\ chat_kinds t = rounds (S k).
Proof.
  intros Hpost Hcontent Hshape.
  assert (Hout : critic_outcome (inr data) = inl AttributeError).
  { unfold critic_outcome, critic_verdict, critic_try, clean_response; simpl.
    rewrite Hcontent; simpl.
    destruct response; try reflexivity. now destruct (Hshape s0). }
  split.
  - rewrite critic_evaluate_run. cbv zeta. now rewrite Hpost, Hout.
  - intros user_query max_iterations s0 r s1 t k Hrun Hnth.
    apply nth_critic_outcome in Hnth. rewrite Hout in Hnth.
    destruct (run_critic_raises _ _ _ _ _ _ _ _ Hrun Hnth) as (Hkinds & Hr).
    now split.
Qed.
End CriticFailures.

Lemma critic_log_line_raises_witness :
  (exists s' t,
     @critic_evaluate scripted (lit "What is zero trust?") (lit "some context")
       (start (sample_script
                 [says (jq "{'decision': 'sufficient', 'reasoning': null}")]))
     = (inl TypeError, s', t))
  /\ (exists s' t,
        @agentic_rag scripted (lit "What is zero trust?") 3
          (judged (jq "{'decision': 'sufficient', 'reasoning': null}"))
        = (inl TypeError, s', t)).
Proof.
  destruct (@critic_log_line_raises scripted
              (lit "What is zero trust?") (lit "some context")
              (start (sample_script
                 [says (jq "{'decision': 'sufficient', 'reasoning': null}")]))
              _ _ _ _ _ PNone
              ltac:(vm_compute; reflexivity) ltac:(vm_compute; reflexivity)
              ltac:(vm_compute; reflexivity) ltac:(vm_compute; reflexivity)
              ltac:(vm_compute; reflexivity)
              ltac:(discriminate) ltac:(discriminate))
    as [Hcritic Hrun].
  split.
  - eexists _, _. exact Hcritic.
  - destruct (@agentic_rag scripted (lit "What is zero trust?") 3
                (judged (jq "{'decision': 'sufficient', 'reasoning': null}")))
      as [[r s'] t] eqn:Hrag.
    destruct (Hrun _ _ _ _ _ _ 0%nat Hrag) as [-> _].
    + vm_compute in Hrag. injection Hrag as _ _ <-. reflexivity.
    + now exists s', t.
Defined.

Lemma critic_reply_without_text_witness :
  (exists s' t,
     @critic_evaluate scripted (lit "What is zero trust?") (lit "some context")
       (start (sample_script [asks_tools [search_call (lit "call_9")]]))
     = (inl AttributeError, s', t))
  /\ (exists s' t,
        @agentic_rag scripted (lit "What is zero trust?") 3
          (start (sample_script
                    [asks_tools [search_call (lit "call_1")];
                     asks_tools [search_call (lit "call_9")]]))
        = (inl AttributeError, s', t)).
Proof.
  destruct (@critic_reply_without_text scripted
              (lit "What is zero trust?") (lit "some context")
              (start (sample_script [asks_tools [search_call (lit "call_9")]]))
              _ _ PNone
              ltac:(vm_compute; reflexivity) ltac:(vm_compute; reflexivity)
              ltac:(discriminate))
    as [Hcritic Hrun].
  split.
  - eexists _, _. exact Hcritic.
  - destruct (@agentic_rag scripted (lit "What is zero trust?") 3
                (start (sample_script
                          [asks_tools [search_call (lit "call_1")];
                           asks_tools [search_call (lit "call_9")]])))
      as [[r s'] t] eqn:Hrag.
    destruct (Hrun _ _ _ _ _ _ 0%nat Hrag) as [-> _].
    + vm_compute in Hrag. injection Hrag as _ _ <-. reflexivity.
    + now exists s', t.
Defined.
Section Feedback.
Context {E : Externals}.

Lemma run_tool_calls_extends calls messages context (s : state)
  messages' context' s' t :
  run_tool_calls calls messages context s
    = (inr (messages', context'), s', t) ->
  extends messages messages'.
Proof.
  revert messages context s t.
  induction calls as [|tool_call rest IH]; intros messages context s t.
  - intros [= <- <- <- <-]. exists []. now rewrite app_nil_r.
  - cbn [run_tool_calls]. intros H.
    apply bind_inv in H as [(e & _ & [=])|(fn & s1 & t1 & t2 & _ & H & _)].
    apply bind_inv in H as [(e & _ & [=])|(name & s2 & t3 & t4 & _ & H & _)].
    apply bind_inv in H as [(e & _ & [=])|(payload & s3 & t5 & t6 & _ & H & _)].
    apply bind_inv in H as [(e & _ & [=])|(arguments & s4 & t7 & t8 & _ & H & _)].
    apply bind_inv in H as [(e & _ & [=])|(tool_result & s5 & t9 & t10 & _ & H & _)].
    apply bind_inv in H as [(e & _ & [=])|(id & s6 & t11 & t12 & _ & H & _)].
    apply IH in H as [more ->]. eexists. now rewrite <- !app_assoc.
Qed.

Lemma agent_round_outcome user_query messages context (s : state)
  out s' t :
  agent_round user_query messages context s = (inr out, s', t) ->
  (exists v reply0,
     out = Return v
     /\ t = [EvChatPost (tools_body messages TOOLS AGENT_SYSTEM_PROMPT) reply0])
  \/ (exists reply0 w' calls messages1 latest s1 t1 reply d,
        run_tool_calls calls messages context (with_world s w')
        = (inr (messages1, Some latest), s1, t1)
        /\ t = EvChatPost (tools_body messages TOOLS AGENT_SYSTEM_PROMPT) reply0
               :: t1
               ++ [EvChatPost (chat_body (critic_prompt user_query latest)
                                         CRITIC_SYSTEM_PROMPT) reply]
        /\ critic_outcome reply = inr (PDict d)
        /\ out
           = if py_eq_str (decision_of d) (lit "sufficient")
             then Break messages1 (Some latest)
             else
               Continue
                 (messages1 ++ [message "user" (PStr (
                    match dict_lookup (lit "refined_query") d with
                    | Some refined =>
                        if py_eq_str (decision_of d) (lit "needs_refinement")
                           && py_truthy refined
                        then lit "The previous search wasn't quite right. Please search again with this refined query: "
                             ++ py_str refined
                        else lit "The retrieved information wasn't sufficient. Please try a broader or different search."
                    | None => lit "The retrieved information wasn't sufficient. Please try a broader or different search."
                    end))])
                 (Some latest)).
Proof.
  unfold agent_round. intros H.
  apply bind_inv in H as [(e & _ & [=])|(response & s1 & t1 & t2 & H1 & H & ->)].
  rewrite azure_chat_with_tools_run in H1. simpl in H1.
  destruct (post_chat _ _) as [reply0 w'] eqn:Hpost. injection H1 as _ <- <-.
  apply bind_inv in H as [(e & _ & [=])|(tool_calls & s2 & t3 & t4 & H2 & H & ->)].
  injection H2 as _ <- <-. rewrite app_nil_l.
  destruct (py_truthy tool_calls) eqn:Htruthy.
  2:{ left.
      apply bind_inv in H as [(e & _ & [=])|(v & s3 & t5 & t6 & H3 & H & ->)].
      injection H3 as _ _ <-. injection H as <- _ <-. cbn [app]. eauto. }
  apply bind_inv in H as [(e & _ & [=])|(calls & s3 & t5 & t6 & H3 & H & ->)].
  injection H3 as Hiter <- <-. rewrite app_nil_l.
  pose proof (py_iter_truthy _ _ Htruthy Hiter) as Hne.
  apply bind_inv in H as [(e & _ & [=])|([msgs ctx] & s4 & t7 & t8 & H4 & H & ->)].
  destruct (run_tool_calls_context _ _ _ _ _ _ _ _ H4) as [[-> _]|(c & cs & ->)];
    [contradiction|].
  right.
  apply bind_inv in H as [(e & _ & [=])|(verdict & s5 & t9 & t10 & H5 & H & ->)].
  rewrite critic_evaluate_run in H5. simpl in H5.
  destruct (post_chat _ (st_world s4)) as [reply w'']. injection H5 as Ho _ <-.
  destruct (critic_outcome_dict _ _ Ho) as [d ->].
  exists reply0, w', calls, msgs, (c :: cs), s4, t7, reply, d.
  split; [assumption|].
  rewrite py_get_dict, bind_lift_ok in H. fold (decision_of d) in H.
  destruct (py_eq_str (decision_of d) (lit "sufficient")).
  { injection H as <- _ <-. rewrite app_nil_r. auto. }
  destruct (py_eq_str (decision_of d) (lit "needs_refinement")).
  - rewrite bind_assoc, py_get_dict, bind_lift_ok, bind_ret in H.
    unfold py_getitem in H.
    destruct (dict_lookup (lit "refined_query") d) as [x|]; simpl in H.
    + destruct (py_truthy x).
      * rewrite bind_lift_ok in H. injection H as <- _ <-.
        rewrite app_nil_r. auto.
      * injection H as <- _ <-. rewrite app_nil_r. auto.
    + injection H as <- _ <-. rewrite app_nil_r. auto.
  - rewrite bind_ret in H. injection H as <- _ <-. rewrite app_nil_r.
    split; [reflexivity|]. split; [assumption|].
    now destruct (dict_lookup (lit "refined_query") d).
Qed.

Lemma critic_outcomes_round user_query messages reply0 (t1 : list event)
  latest reply :
  chat_posts t1 = [] ->
  critic_outcomes
    (EvChatPost (tools_body messages TOOLS AGENT_SYSTEM_PROMPT) reply0
     :: t1 ++ [EvChatPost (chat_body (critic_prompt user_query latest)
                                     CRITIC_SYSTEM_PROMPT) reply])
  = [critic_outcome reply].
Proof.
  intros Hq. unfold critic_outcomes.
  now rewrite critic_replies_round, critic_replies_app,
    (critic_replies_quiet _ Hq), critic_replies_critic.
Qed.

(** X10.  A round of the loop goes on to another round only after the
    critic returned a verdict whose decision is not ["sufficient"].  It
    then appends exactly one user message to the conversation left by
    the tool calls: the request to search again with the refined query
    when the decision is ["needs_refinement"] and [refined_query] is
    truthy, and the request for a broader search in every other case
    (any other decision, a missing, null or empty [refined_query]). *)
Theorem rejection_feedback
  (user_query : str) (messages : list pyval) (context : option str)
  (s : state) m c s' t :
  agent_round user_query messages context s = (inr (Continue m c), s', t) ->
  exists verdict earlier feedback,
    critic_outcomes t = [inr (PDict verdict)]
    /\ py_eq_str (decision_of verdict) (lit "sufficient") = false
    /\ extends messages earlier
    /\ m = earlier ++ [message "user" (PStr feedback)]
    /\ ((exists refined,
           py_eq_str (decision_of verdict) (lit "needs_refinement") = true
           /\ dict_lookup (lit "refined_query") verdict = Some refined
           /\ py_truthy refined = true
           /\ feedback
              = lit "The previous search wasn't quite right. Please search again with this refined query: "
                ++ py_str refined)
        \/ ((py_eq_str (decision_of verdict) (lit "needs_refinement") = false
             \/ dict_lookup (lit "refined_query") verdict = None
             \/ exists refined,
                  dict_lookup (lit "refined_query") verdict = Some refined
                  /\ py_truthy refined = false)
            /\ feedback
               = lit "The retrieved information wasn't sufficient. Please try a broader or different search.")).
Proof.
  intros H.
  apply agent_round_outcome in H
    as [(v & reply0 & [=] & _)
       |(reply0 & w' & calls & messages1 & latest & s1 & t1 & reply & d
         & Hcalls & -> & Ho & Hout)].
  pose proof (quiet_run_tool_calls _ _ _ _ _ _ _ Hcalls) as Hq.
  rewrite (critic_outcomes_round _ _ _ _ _ _ Hq), Ho.
  destruct (py_eq_str (decision_of d) (lit "sufficient")) eqn:Hs;
    [discriminate|].
  injection Hout as -> ->.
  exists d, messages1. eexists. split; [reflexivity|]. split; [assumption|].
  split; [eapply run_tool_calls_extends; eassumption|].
  split; [reflexivity|].
  destruct (dict_lookup (lit "refined_query") d) as [refined|]; [|auto].
  destruct (py_eq_str (decision_of d) (lit "needs_refinement")); [|auto].
  destruct (py_truthy refined) eqn:Ht; cbn [andb]; [left|right]; eauto 7.
Qed.
End Feedback.

Lemma rejection_feedback_witness :
  exists m c s' t,
    @agent_round scripted (lit "What is zero trust?")
      [message "user" (PStr (lit "What is zero trust?"))] None
      (start (sample_script
                [asks_tools [search_call (lit "call_1")];
                 says (jq "{'decision': 'needs_refinement', 'reasoning': 'too broad', 'refined_query': ''}")]))
    = (inr (Continue m c), s', t)
    /\ exists earlier,
         m = earlier ++ [message "user" (PStr (lit "The retrieved information wasn't sufficient. Please try a broader or different search."))].
Proof.
  destruct (@agent_round scripted (lit "What is zero trust?")
      [message "user" (PStr (lit "What is zero trust?"))] None
      (start (sample_script
                [asks_tools [search_call (lit "call_1")];
                 says (jq "{'decision': 'needs_refinement', 'reasoning': 'too broad', 'refined_query': ''}")])))
    as [[r s'] t] eqn:Hrun.
  assert (Hr : exists m c, r = inr (Continue m c)).
  { vm_compute in Hrun. injection Hrun as <- _ _. now do 2 eexists. }
  destruct Hr as (m & c & ->).
  destruct (rejection_feedback _ _ _ _ _ _ _ _ Hrun)
    as (verdict & earlier & feedback & Ho & _ & _ & Hm & Hcases).
  exists m, c, s', t. split; [reflexivity|]. exists earlier.
  destruct Hcases as [(refined & _ & Hl & Ht & _)|[_ ->]]; [|exact Hm].
  exfalso. vm_compute in Hrun. injection Hrun as _ _ _ Het.
  rewrite <- Het in Ho. vm_compute in Ho. injection Ho as <-.
  vm_compute in Hl. injection Hl as <-. discriminate.
Defined.
Section Conversation.
Context {E : Externals}.

(** X11.  When the loop over the tool calls of a response completes,
    the conversation has grown by exactly two messages per call, in the
    order of the calls: an assistant message that carries that call
    alone, and the tool message with that call's own id and the result
    of executing it. *)
Theorem every_tool_call_is_answered
  (calls messages : list pyval) (context : option str) (s : state)
  messages' context' s' t :
  run_tool_calls calls messages context s
    = (inr (messages', context'), s', t) ->
  exists pairs,
    messages' = messages ++ concat pairs
    /\ Forall2 answers_call calls pairs
    /\ List.length messages' = (List.length messages + 2 * List.length calls)%nat.
Proof.
  revert messages context s t.
  induction calls as [|tool_call rest IH]; intros messages context s t.
  - intros [= <- <- <- <-]. exists []. simpl.
    rewrite app_nil_r. repeat split; [constructor|lia].
  - cbn [run_tool_calls]. intros H.
    apply bind_inv in H as [(e & _ & [=])|(fn & s1 & t1 & t2 & H1 & H & _)].
    apply lift_inv in H1 as (H1 & -> & _).
    apply bind_inv in H as [(e & _ & [=])|(name & s2 & t3 & t4 & H2 & H & _)].
    apply lift_inv in H2 as (H2 & -> & _).
    apply bind_inv in H as [(e & _ & [=])|(payload & s3 & t5 & t6 & H3 & H & _)].
    apply lift_inv in H3 as (H3 & -> & _).
    apply bind_inv in H as [(e & _ & [=])|(arguments & s4 & t7 & t8 & H4 & H & _)].
    apply lift_inv in H4 as (H4 & -> & _).
    apply bind_inv in H as [(e & _ & [=])|(tool_result & s5 & t9 & t10 & Hx & H & _)].
    apply bind_inv in H as [(e & _ & [=])|(id & s6 & t11 & t12 & H5 & H & _)].
    apply lift_inv in H5 as (H5 & -> & _).
    apply IH in H as (pairs & -> & Hall & Hlen).
    exists (call_messages tool_call id tool_result :: pairs).
    split; [|split].
    + cbn [concat call_messages tool_message app]. now rewrite <- !app_assoc.
    + constructor; [|assumption]. exists id, tool_result.
      split; [now symmetry|]. split; [|reflexivity].
      now exists fn, name, payload, arguments, s, s5, t9.
    + rewrite Hlen, !length_app. simpl. lia.
Qed.
End Conversation.

Lemma every_tool_call_is_answered_witness :
  exists messages' context' s' t,
    @run_tool_calls scripted
      [search_call (lit "call_1"); search_call (lit "call_2")]
      [message "user" (PStr (lit "What is zero trust?"))] None
      (start (sample_script []))
    = (inr (messages', context'), s', t)
    /\ List.length messages' = 5%nat.
Proof.
  destruct (@run_tool_calls scripted
              [search_call (lit "call_1"); search_call (lit "call_2")]
              [message "user" (PStr (lit "What is zero trust?"))] None
              (start (sample_script []))) as [[r s'] t] eqn:Hrun.
  assert (Hr : exists mc, r = inr mc).
  { vm_compute in Hrun. injection Hrun as <- _ _. now eexists. }
  destruct Hr as [[messages' context'] ->].
  destruct (every_tool_call_is_answered _ _ _ _ _ _ _ _ Hrun)
    as (pairs & _ & _ & Hlen).
  exists messages', context', s', t. split; [reflexivity|exact Hlen].
Defined.
Section History.
Context {E : Externals}.

Lemma extends_refl {A} (l : list A) : extends l l.
Proof. exists []. now rewrite app_nil_r. Qed.

Lemma extends_trans {A} (a b c : list A) :
  extends a b -> extends b c -> extends a c.
Proof. intros [x ->] [y ->]. exists (x ++ y). now rewrite app_assoc. Qed.

Lemma extends_app {A} (l more : list A) : extends l (l ++ more).
Proof. now exists more. Qed.

Lemma conversations_app (t1 t2 : list event) :
  conversations (t1 ++ t2) = conversations t1 ++ conversations t2.
Proof.
  unfold conversations. now rewrite chat_posts_app, filter_app, map_app.
Qed.

Lemma conversations_quiet (t : list event) :
  chat_posts t = [] -> conversations t = [].
Proof. unfold conversations. now intros ->. Qed.

Lemma conversations_round messages reply (t : list event) :
  conversations
    (EvChatPost (tools_body messages TOOLS AGENT_SYSTEM_PROMPT) reply :: t)
  = messages :: conversations t.
Proof. reflexivity. Qed.

Lemma conversations_critic prompt reply :
  conversations [EvChatPost (chat_body prompt CRITIC_SYSTEM_PROMPT) reply] = [].
Proof.
  unfold conversations. cbn [chat_posts filter fst]. unfold is_critic_call.
  now rewrite kind_of_critic_body.
Qed.

Lemma conversations_synthesis messages reply :
  conversations
    [EvChatPost (tools_body messages PNone AGENT_SYSTEM_PROMPT) reply]
  = [messages].
Proof.
  unfold conversations. cbn [chat_posts filter fst]. unfold is_critic_call.
  now rewrite kind_of_synthesis_body.
Qed.

Lemma agent_round_conversation user_query messages context (s : state)
  r s' t :
  agent_round user_query messages context s = (r, s', t) ->
  conversations t = [messages]
  /\ forall m c,
       r = inr (Continue m c) \/ r = inr (Break m c) -> extends messages m.
Proof.
  intros H. destruct r as [e|out].
  - split; [|now intros m c [[=]|[=]]]. revert H. unfold agent_round. intros H.
    apply bind_inv in H as [(e0 & H & _)|(response & s1 & t1 & t2 & H1 & H & ->)].
    { rewrite azure_chat_with_tools_run in H. simpl in H.
      destruct (post_chat _ _) as [reply w']. now injection H as _ _ <-. }
    rewrite azure_chat_with_tools_run in H1. simpl in H1.
    destruct (post_chat _ _) as [reply0 w']. injection H1 as _ _ <-.
    cbn [app]. rewrite conversations_round. f_equal.
    apply bind_inv in H as [(e0 & H & _)|(tool_calls & s2 & t3 & t4 & H2 & H & ->)].
    { now injection H as _ _ <-. }
    injection H2 as _ _ <-. rewrite app_nil_l.
    destruct (py_truthy tool_calls).
    2:{ apply bind_inv in H as [(e0 & H & _)|(v & s3 & t5 & t6 & H3 & H & ->)].
        - now injection H as _ _ <-.
        - injection H3 as _ _ <-. now injection H as _ _ <-. }
    apply bind_inv in H as [(e0 & H & _)|(calls & s3 & t5 & t6 & H3 & H & ->)].
    { now injection H as _ _ <-. }
    injection H3 as _ _ <-. rewrite app_nil_l.
    apply bind_inv in H as [(e0 & H & _)|([msgs ctx] & s4 & t7 & t8 & H4 & H & ->)].
    { apply quiet_run_tool_calls in H. now apply conversations_quiet. }
    apply quiet_run_tool_calls in H4.
    rewrite conversations_app, (conversations_quiet _ H4). cbn [app].
    destruct ctx as [[|c cs]|]; try now injection H as _ _ <-.
    apply bind_inv in H as [(e0 & H & _)|(verdict & s5 & t9 & t10 & H5 & H & ->)].
    { rewrite critic_evaluate_run in H. simpl in H.
      destruct (post_chat _ _) as [reply w'']. injection H as _ _ <-.
      apply conversations_critic. }
    rewrite critic_evaluate_run in H5. simpl in H5.
    destruct (post_chat _ _) as [reply w'']. injection H5 as _ _ <-.
    rewrite conversations_app, conversations_critic. cbn [app].
    apply conversations_quiet.
    apply bind_inv in H as [(e0 & H & _)|(decision & s6 & t11 & t12 & H6 & H & ->)].
    { now injection H as _ _ <-. }
    injection H6 as _ _ <-. cbn [app].
    destruct (py_eq_str decision (lit "sufficient")); [now injection H as _ _ <-|].
    apply bind_inv in H as [(e0 & H & _)|(refine & s7 & t13 & t14 & H7 & H & ->)].
    { destruct (py_eq_str decision (lit "needs_refinement")); [|discriminate].
      apply bind_inv in H as [(e1 & H & _)|(x & s8 & t15 & t16 & H8 & H & ->)].
      - now injection H as _ _ <-.
      - injection H8 as _ _ <-. now injection H as _ _ <-. }
    assert (t13 = []) as ->.
    { destruct (py_eq_str decision (lit "needs_refinement")).
      - apply bind_inv in H7 as [(e1 & _ & [=])|(x & s8 & t15 & t16 & H8 & H7 & ->)].
        injection H8 as _ _ <-. now injection H7 as _ _ <-.
      - now injection H7 as _ _ <-. }
    destruct refine.
    + apply bind_inv in H as [(e1 & H & _)|(x & s8 & t15 & t16 & H8 & H & ->)].
      * now injection H as _ _ <-.
      * injection H8 as _ _ <-. now injection H as _ _ <-.
    + now injection H as _ _ <-.
  - apply agent_round_outcome in H
      as [(v & reply0 & -> & ->)
         |(reply0 & w' & calls & messages1 & latest & s1 & t1 & reply & d
           & Hcalls & -> & Ho & ->)].
    { split; [reflexivity|]. now intros m c [[=]|[=]]. }
    pose proof (quiet_run_tool_calls _ _ _ _ _ _ _ Hcalls) as Hq.
    apply run_tool_calls_extends in Hcalls.
    split.
    + now rewrite conversations_round, conversations_app,
        (conversations_quiet _ Hq), conversations_critic.
    + intros m c. destruct (py_eq_str _ _).
      * now intros [[=]|[= <- _]].
      * intros [[= <- _]|[=]]. eapply extends_trans; [eassumption|].
        apply extends_app.
Qed.

Lemma agent_loop_conversation n user_query iteration messages context
  (s : state) r s' t :
  agent_loop n user_query iteration messages context s = (r, s', t) ->
  StronglySorted extends (conversations t)
  /\ Forall (extends messages) (conversations t)
  /\ forall m c,
       r = inr (LoopDone m c) ->
       extends messages m /\ Forall (fun sent => extends sent m) (conversations t).
Proof.
  revert iteration messages context s t.
  induction n as [|n IH]; intros iteration messages context s t; simpl.
  { intros [= <- <- <-]. split; [constructor|]. split; [constructor|].
    intros m c [= <- <-]. split; [apply extends_refl|constructor]. }
  intros H.
  apply bind_inv in H as [(e & H & ->)|(out & s1 & t1 & t2 & H1 & H & ->)].
  - apply agent_round_conversation in H as [-> _].
    split; [repeat constructor|]. split; [|discriminate].
    constructor; [apply extends_refl|constructor].
  - apply agent_round_conversation in H1 as [Hc Hext].
    rewrite conversations_app, Hc. cbn [app].
    destruct out as [m1 c1|m1 c1|v].
    + specialize (Hext m1 c1 (or_introl eq_refl)).
      apply IH in H as (Hsorted & Hall & Hdone).
      assert (Hall' : Forall (extends messages) (conversations t2)).
      { eapply Forall_impl; [|exact Hall].
        intros sent Hs. eapply extends_trans; eassumption. }
      split; [now constructor|].
      split; [constructor; [apply extends_refl|assumption]|].
      intros m c Hr. destruct (Hdone m c Hr) as [Hm Hsent].
      split; [eapply extends_trans; eassumption|].
      constructor; [eapply extends_trans; eassumption|assumption].
    + specialize (Hext m1 c1 (or_intror eq_refl)).
      injection H as <- _ <-. cbn [conversations chat_posts filter map].
      split; [repeat constructor|].
      split; [constructor; [apply extends_refl|constructor]|].
      intros m c [= <- <-]. split; [assumption|]. now constructor.
    + injection H as <- _ <-. cbn [conversations chat_posts filter map].
      split; [repeat constructor|].
      split; [constructor; [apply extends_refl|constructor]|]. discriminate.
Qed.

Lemma agent_loop_posts n user_query iteration messages context
  (s : state) r s' t :
  agent_loop n user_query iteration messages context s = (r, s', t) ->
  conversations t = [] -> r = inr (LoopDone messages context).
Proof.
  destruct n as [|n]; simpl; [now intros [= <- _ _]|].
  intros H Hnone. exfalso.
  apply bind_inv in H as [(e & H & ->)|(out & s1 & t1 & t2 & H1 & H & ->)].
  - apply agent_round_conversation in H as [Hc _]. congruence.
  - apply agent_round_conversation in H1 as [Hc _].
    rewrite conversations_app, Hc in Hnone. discriminate.
Qed.

(** X12.  The conversations a run of [agentic_rag] sends to the model
    (in its rounds and in the synthesis call) only grow: each one
    extends every one sent before it, and all of them start with the
    user's question.  Nothing is dropped or rewritten, and a run sends
    at least one. *)
Theorem conversation_only_grows
  (user_query : str) (max_iterations : Z) (s : state) r s' t :
  agentic_rag user_query max_iterations s = (r, s', t) ->
  StronglySorted extends (conversations t)
  /\ Forall (extends [message "user" (PStr user_query)]) (conversations t)
  /\ conversations t <> [].
Proof.
  intros H.
  apply agentic_rag_split in H as (r1 & s1 & t1 & Hloop & Hrest).
  pose proof (agent_loop_posts _ _ _ _ _ _ _ _ _ Hloop) as Hne.
  apply agent_loop_conversation in Hloop as (Hsorted & Hall & Hdone).
  destruct r1 as [e|[messages context|value]].
  - destruct Hrest as [_ ->]. split; [assumption|]. split; [assumption|].
    intros Hnone. now apply Hne in Hnone.
  - destruct Hrest as (reply & -> & _).
    destruct (Hdone _ _ eq_refl) as [Hm Hsent].
    rewrite conversations_app, conversations_synthesis.
    split; [|split].
    + clear Hne Hdone Hall. induction Hsorted as [|sent sents Hs IH Hhd].
      * repeat constructor.
      * inversion Hsent as [|? ? Hx Hxs]; subst. cbn [app].
        constructor; [now apply IH|].
        apply Forall_app. split; [assumption|].
        constructor; [|constructor].
        eapply extends_trans; [eassumption|apply extends_app].
    + apply Forall_app. split; [assumption|].
      constructor; [|constructor].
      eapply extends_trans; [eassumption|apply extends_app].
    + now destruct (conversations t1).
  - destruct Hrest as [_ ->]. split; [assumption|]. split; [assumption|].
    intros Hnone. now apply Hne in Hnone.
Qed.
End History.

Lemma conversation_only_grows_witness :
  exists r s' t,
    @agentic_rag scripted (lit "What is zero trust?") 2 never_approved
    = (r, s', t)
    /\ List.length (conversations t) = 3%nat
    /\ StronglySorted extends (conversations t).
Proof.
  destruct (@agentic_rag scripted (lit "What is zero trust?") 2 never_approved)
    as [[r s'] t] eqn:Hrun.
  exists r, s', t. split; [reflexivity|].
  destruct (conversation_only_grows _ _ _ _ _ _ Hrun) as (Hsorted & _ & _).
  split; [|exact Hsorted].
  vm_compute in Hrun. now injection Hrun as <- <- <-.
Defined.
Section Chunking.
Context {D : Documents}.

Lemma py_slice_window {A} (l : list A) (start size : nat) :
  (start < List.length l)%nat -> (0 < size)%nat ->
  py_slice l (Z.of_nat start)
    (Z.min (Z.of_nat start + Z.of_nat size) (Z.of_nat (List.length l)))
  = firstn size (skipn start l).
Proof.
  intros Hstart Hsize. unfold py_slice. cbv zeta.
  set (n := Z.of_nat (List.length l)).
  assert (Hn : n = Z.of_nat (List.length l)) by reflexivity.
  assert (H1 : (Z.of_nat start <? 0)%Z = false) by (apply Z.ltb_ge; lia).
  assert (H2 : (n <? Z.of_nat start)%Z = false) by (apply Z.ltb_ge; lia).
  rewrite !H1, !H2.
  destruct (Z.min_spec (Z.of_nat start + Z.of_nat size) n) as [[Hlt ->]|[Hge ->]].
  - assert (H3 : (Z.of_nat start + Z.of_nat size <? 0)%Z = false)
      by (apply Z.ltb_ge; lia).
    assert (H4 : (n <? Z.of_nat start + Z.of_nat size)%Z = false)
      by (apply Z.ltb_ge; lia).
    rewrite !H3, !H4, Nat2Z.id. f_equal. lia.
  - assert (H3 : (n <? 0)%Z = false) by (apply Z.ltb_ge; lia).
    rewrite !H3, Z.ltb_irrefl, Nat2Z.id.
    rewrite !firstn_all2; try reflexivity; rewrite length_skipn; lia.
Qed.

Lemma ceil_div_spec (len step k : nat) :
  (0 < step)%nat ->
  (k < Nat.div (len + step - 1) step)%nat <-> (k * step < len)%nat.
Proof.
  intros Hstep. split; intros H.
  - assert (Hle : (step * (k + 1) <= len + step - 1)%nat).
    { etransitivity; [|apply (Nat.Div0.mul_div_le _ step)].
      apply Nat.mul_le_mono_l. lia. }
    nia.
  - apply Nat.lt_le_trans with (m := ((k + 1) * step / step)%nat).
    + rewrite Nat.div_mul by lia. lia.
    + apply Nat.Div0.div_le_mono. nia.
Qed.

Lemma chunk_loop_windows (fuel : nat) (tokens : list token) (size step k : nat)
  (chunk_size overlap : Z) (chunks : list str) :
  chunk_size = Z.of_nat size ->
  (chunk_size - overlap)%Z = Z.of_nat step ->
  (0 < size)%nat -> (0 < step)%nat ->
  (k * step < List.length tokens)%nat ->
  (Nat.div (List.length tokens + step - 1) step - k <= fuel)%nat ->
  chunk_loop fuel tokens chunk_size overlap (Z.of_nat (k * step)) chunks
  = Some (chunks
          ++ map (fun j => decode (firstn size (skipn (j * step) tokens)))
               (seq k (Nat.div (List.length tokens + step - 1) step - k))).
Proof.
  intros Hsize Hstepz Hs Hst. revert k chunks.
  induction fuel as [|fuel IH]; intros k chunks Hk Hfuel.
  - apply (ceil_div_spec _ _ _ Hst) in Hk. lia.
  - cbn [chunk_loop]. cbv zeta.
    rewrite (proj2 (Z.ltb_lt _ _)) by lia.
    rewrite Hsize, py_slice_window by assumption. rewrite <- Hsize, Hstepz.
    replace (Z.of_nat (k * step) + Z.of_nat step)%Z
      with (Z.of_nat (S k * step)) by lia.
    pose proof (ceil_div_spec (List.length tokens) step k Hst) as Hck.
    pose proof (ceil_div_spec (List.length tokens) step (S k) Hst) as Hck1.
    set (count := Nat.div (List.length tokens + step - 1) step) in *.
    apply Hck in Hk.
    destruct (Z.leb_spec (Z.of_nat (List.length tokens)) (Z.of_nat (S k * step)))
      as [Hdone|Hmore].
    + assert (count = S k) as -> by lia.
      replace (S k - k)%nat with 1%nat by lia. reflexivity.
    + rewrite IH by lia.
      replace (count - k)%nat with (S (count - S k)) by lia.
      cbn [seq map]. now rewrite <- app_assoc.
Qed.

Lemma chunk_text_windows
  (fuel : nat) (text : str) (tokens : list token) (chunk_size overlap : Z) :
  encode text = inr tokens ->
  (0 < chunk_size < Z.of_nat (List.length tokens))%Z ->
  (overlap < chunk_size)%Z ->
  (List.length tokens <= fuel)%nat ->
  chunk_text fuel text chunk_size overlap
  = Some (inr (map decode
                 (windows tokens (Z.to_nat chunk_size)
                    (Z.to_nat (chunk_size - overlap))))).
Proof.
  intros Henc Hsize Hoverlap Hfuel. unfold chunk_text. rewrite Henc.
  rewrite (proj2 (Z.leb_gt _ _)) by lia.
  pose proof (chunk_loop_windows fuel tokens (Z.to_nat chunk_size)
                (Z.to_nat (chunk_size - overlap)) 0 chunk_size overlap [])
    as Hloop.
  cbn [Nat.mul Z.of_nat] in Hloop. rewrite Hloop; try lia.
  - rewrite Nat.sub_0_r. unfold windows. now rewrite map_map.
  - rewrite Nat.sub_0_r.
    etransitivity; [|exact Hfuel].
    apply Nat.Div0.div_le_upper_bound. nia.
Qed.

Lemma windows_nth {A} (l : list A) (size step k : nat) :
  (0 < step)%nat -> (k * step < List.length l)%nat ->
  nth_error (windows l size step) k = Some (firstn size (skipn (k * step) l)).
Proof.
  intros Hstep Hk. unfold windows.
  rewrite nth_error_map, nth_error_seq.
  apply (ceil_div_spec _ _ _ Hstep) in Hk.
  now rewrite (proj2 (Nat.ltb_lt _ _)) by assumption.
Qed.

(** X13.  For [0 < chunk_size], [overlap < chunk_size] and a text of
    more than [chunk_size] tokens, [chunk_text] returns (with fuel for
    one round per token) the decoded windows of the token sequence:
    window [k] starts at token [k * (chunk_size - overlap)] and holds
    at most [chunk_size] tokens; there are
    [ceil(len / (chunk_size - overlap))] windows, none of them empty. *)
Theorem chunk_text_sliding_windows
  (fuel : nat) (text : str) (tokens : list token) (chunk_size overlap : Z) :
  encode text = inr tokens ->
  (0 < chunk_size < Z.of_nat (List.length tokens))%Z ->
  (overlap < chunk_size)%Z ->
  (List.length tokens <= fuel)%nat ->
  let size := Z.to_nat chunk_size in
  let step := Z.to_nat (chunk_size - overlap) in
  exists chunk_tokens,
    chunk_text fuel text chunk_size overlap
    = Some (inr (map decode chunk_tokens))
    /\ List.length chunk_tokens
       = Nat.div (List.length tokens + step - 1) step
    /\ (forall k,
          (k < List.length chunk_tokens)%nat ->
          nth_error chunk_tokens k
          = Some (firstn size (skipn (k * step) tokens)))
    /\ Forall (fun w => (0 < List.length w <= size)%nat) chunk_tokens.
Proof.
  intros Henc Hsize Hoverlap Hfuel size step.
  exists (windows tokens size step).
  assert (Hstep : (0 < step)%nat) by (subst step; lia).
  assert (Hlen : List.length (windows tokens size step)
                 = Nat.div (List.length tokens + step - 1) step).
  { unfold windows. now rewrite length_map, length_seq. }
  split; [now apply chunk_text_windows|]. split; [assumption|]. split.
  - intros k Hk. rewrite Hlen in Hk.
    apply (ceil_div_spec _ _ _ Hstep) in Hk. now apply windows_nth.
  - apply Forall_forall. intros w Hin. unfold windows in Hin.
    apply in_map_iff in Hin as (k & <- & Hk). apply in_seq in Hk.
    destruct Hk as [_ Hk]. cbn [Nat.add] in Hk.
    apply (ceil_div_spec _ _ _ Hstep) in Hk.
    rewrite length_firstn, length_skipn. subst size. lia.
Qed.

(** X14.  For [0 <= overlap < chunk_size] the chunks of [chunk_text]
    cover the text: every token of the text, at its position, is in one
    of the windows the chunks are decoded from. *)
Theorem chunk_text_covers
  (fuel : nat) (text : str) (tokens : list token) (chunk_size overlap : Z) :
  encode text = inr tokens ->
  (0 <= overlap < chunk_size)%Z ->
  (chunk_size < Z.of_nat (List.length tokens))%Z ->
  (List.length tokens <= fuel)%nat ->
  exists chunk_tokens,
    chunk_text fuel text chunk_size overlap
    = Some (inr (map decode chunk_tokens))
    /\ forall i tok,
         nth_error tokens i = Some tok ->
         exists k w j,
           nth_error chunk_tokens k = Some w
           /\ nth_error w j = Some tok
           /\ i = (k * Z.to_nat (chunk_size - overlap) + j)%nat.
Proof.
  intros Henc Hoverlap Hsize Hfuel.
  set (size := Z.to_nat chunk_size).
  set (step := Z.to_nat (chunk_size - overlap)).
  exists (windows tokens size step).
  assert (Hstep : (0 < step)%nat) by (subst step; lia).
  split; [apply chunk_text_windows; auto; lia|].
  intros i tok Hi.
  assert (Hlt : (i < List.length tokens)%nat).
  { apply nth_error_Some. congruence. }
  pose proof (Nat.div_mod_eq i step) as Hdm.
  pose proof (Nat.mod_upper_bound i step ltac:(lia)) as Hmod.
  exists (Nat.div i step), (firstn size (skipn (Nat.div i step * step) tokens)),
    (Nat.modulo i step).
  split; [apply windows_nth; [assumption|nia]|]. split; [|nia].
  rewrite nth_error_firstn, nth_error_skipn.
  rewrite (proj2 (Nat.ltb_lt _ _)) by (subst size step; lia).
  rewrite <- Hi. f_equal. nia.
Qed.

(** X15.  For [overlap >= chunk_size] and a text of more tokens than
    [chunk_size], the loop of [chunk_text] never ends: [start] does not
    advance, so no amount of fuel makes [chunk_text] return. *)
Theorem chunk_text_never_returns
  (text : str) (tokens : list token) (chunk_size overlap : Z) :
  encode text = inr tokens ->
  tokens <> [] ->
  (chunk_size < Z.of_nat (List.length tokens))%Z ->
  (chunk_size <= overlap)%Z ->
  forall fuel, chunk_text fuel text chunk_size overlap = None.
Proof.
  intros Henc Hne Hsize Hoverlap fuel. unfold chunk_text. rewrite Henc.
  rewrite (proj2 (Z.leb_gt _ _)) by lia.
  assert (Hlen : (0 < Z.of_nat (List.length tokens))%Z).
  { destruct tokens; [contradiction|simpl; lia]. }
  assert (Hloop : forall start chunks,
            (start <= 0)%Z ->
            chunk_loop fuel tokens chunk_size overlap start chunks = None).
  { induction fuel as [|fuel IH]; intros start chunks Hstart; [reflexivity|].
    cbn [chunk_loop]. cbv zeta.
    rewrite (proj2 (Z.ltb_lt _ _)) by lia.
    rewrite (proj2 (Z.leb_gt _ _)) by lia.
    apply IH. lia. }
  now rewrite Hloop.
Qed.
End Chunking.

Lemma chunk_text_sliding_windows_witness :
  @chunk_text sample_documents 10 (lit "abcdefghij") 4 1
  = Some (inr [lit "abcd"; lit "defg"; lit "ghij"; lit "j"]).
Proof.
  destruct (@chunk_text_sliding_windows sample_documents 10 (lit "abcdefghij")
              (lit "abcdefghij") 4 1 eq_refl ltac:(simpl; lia) ltac:(lia)
              ltac:(simpl; lia))
    as (chunk_tokens & -> & Hlen & Hnth & _).
  destruct chunk_tokens as [|w0 [|w1 [|w2 [|w3 [|w4 ws]]]]]; try discriminate.
  pose proof (Hnth 0%nat ltac:(simpl; lia)) as H0.
  pose proof (Hnth 1%nat ltac:(simpl; lia)) as H1.
  pose proof (Hnth 2%nat ltac:(simpl; lia)) as H2.
  pose proof (Hnth 3%nat ltac:(simpl; lia)) as H3.
  injection H0 as ->. injection H1 as ->. injection H2 as ->. injection H3 as ->.
  reflexivity.
Defined.

Lemma chunk_text_covers_witness :
  exists chunk_tokens,
    @chunk_text sample_documents 10 (lit "abcdefghij") 4 1
    = Some (inr chunk_tokens)
    /\ exists k w j,
         nth_error chunk_tokens k = Some w /\ nth_error w j = Some 104
         /\ 7%nat = (k * 3 + j)%nat.
Proof.
  destruct (@chunk_text_covers sample_documents 10 (lit "abcdefghij")
              (lit "abcdefghij") 4 1 eq_refl ltac:(lia) ltac:(simpl; lia)
              ltac:(simpl; lia))
    as (chunk_tokens & Hrun & Hcover).
  exists chunk_tokens. rewrite Hrun. split; [now rewrite map_id|].
  exact (Hcover 7%nat 104 eq_refl).
Defined.

Lemma chunk_text_never_returns_witness :
  @chunk_text sample_documents 1000 (lit "abcdefghij") 4 4 = None.
Proof.
  apply (@chunk_text_never_returns sample_documents (lit "abcdefghij")
           (lit "abcdefghij") 4 4 eq_refl);
    [discriminate|simpl; lia|lia].
Defined.
Section Pages.
Context {D : Documents}.

Lemma extract_pages_positions (name : str) (texts : list (res str)) :
  forall (k : nat) (acc pages : list pyval),
  extract_pages name (Z.of_nat k) texts acc = inr pages ->
  exists positions found,
    pages = acc ++ found
    /\ StronglySorted lt positions
    /\ Forall (fun i => (k <= i)%nat) positions
    /\ Forall2 (fun i page =>
                  exists text,
                    nth_error texts (i - k) = Some (inr text)
                    /\ py_strip text <> []
                    /\ page = page_record name i text) positions found
    /\ (forall j text,
          nth_error texts j = Some (inr text) -> py_strip text <> [] ->
          In (k + j)%nat positions).
Proof.
  induction texts as [|[e|text] texts IH]; intros k acc pages H.
  - injection H as <-. exists [], []. rewrite app_nil_r.
    repeat split; try constructor. intros [|j] text [=].
  - discriminate.
  - cbn [extract_pages] in H.
    replace (Z.of_nat k + 1)%Z with (Z.of_nat (S k)) in H by lia.
    apply IH in H as (positions & found & -> & Hsorted & Hge & Hall & Hin).
    assert (Hshift : Forall2 (fun i page =>
                        exists text0,
                          nth_error (inr text :: texts) (i - k) = Some (inr text0)
                          /\ py_strip text0 <> []
                          /\ page = page_record name i text0) positions found).
    { clear -Hall Hge. induction Hall as [|i page ps fs Hhd _ IHall];
        [constructor|].
      inversion Hge as [|? ? Hi Hge']; subst. constructor; [|now apply IHall].
      destruct Hhd as (text0 & Hnth & Hne & ->). exists text0.
      replace (i - k)%nat with (S (i - S k)) by lia. auto. }
    assert (Hge' : Forall (fun i => (k <= i)%nat) positions).
    { eapply Forall_impl; [|exact Hge]. intros; simpl in *; lia. }
    destruct (py_strip text) as [|c cs] eqn:Hstrip; cbn [py_truthy].
    + exists positions, found. repeat split; try assumption.
      intros [|j] text0 Hnth Hne.
      * injection Hnth as <-. congruence.
      * replace (k + S j)%nat with (S k + j)%nat by lia. eapply Hin; eauto.
    + exists (k :: positions), (page_record name k text :: found).
      split; [|split; [|split; [|split]]].
      * unfold page_record. rewrite Hstrip, <- app_assoc.
        replace (Z.of_nat (S k)) with (Z.of_nat k + 1)%Z by lia. reflexivity.
      * constructor; [assumption|].
        eapply Forall_impl; [|exact Hge]. intros; simpl in *; lia.
      * constructor; [lia|assumption].
      * constructor; [|assumption]. exists text.
        rewrite Nat.sub_diag, Hstrip. repeat split. discriminate.
      * intros [|j] text0 Hnth Hne.
        -- left. lia.
        -- right. replace (k + S j)%nat with (S k + j)%nat by lia.
           eapply Hin; eauto.
Qed.

(** X16.  [extract_text_from_pdf] returns exactly the pages whose text
    is not blank, in document order, each stripped and numbered by its
    position in the document counted from 1: a blank page leaves a gap
    in the numbers instead of shifting them. *)
Theorem extract_text_keeps_page_numbers
  (path : pdf_path) (texts : list (res str)) (pages : list pyval) :
  read_pages path = inr texts ->
  extract_text_from_pdf path = inr pages ->
  exists positions,
    StronglySorted lt positions
    /\ Forall2 (fun i page =>
                  exists text,
                    nth_error texts i = Some (inr text)
                    /\ py_strip text <> []
                    /\ page = page_record (path_name path) i text)
         positions pages
    /\ (forall i text,
          nth_error texts i = Some (inr text) -> py_strip text <> [] ->
          In i positions).
Proof.
  intros Hread H. unfold extract_text_from_pdf in H. rewrite Hread in H.
  cbn [and_then] in H.
  apply (extract_pages_positions _ _ 0%nat) in H
    as (positions & found & -> & Hsorted & _ & Hall & Hin).
  exists positions. split; [assumption|]. split; [|exact Hin].
  cbn [app]. eapply Forall2_impl; [|exact Hall].
  intros i page (text & Hnth & Hrest). exists text.
  now rewrite Nat.sub_0_r in Hnth.
Qed.
End Pages.

Lemma extract_text_keeps_page_numbers_witness :
  @extract_text_from_pdf sample_documents sample_pdf
  = inr [page_record (lit "sp800-207.pdf") 0 (lit "Zero trust");
         page_record (lit "sp800-207.pdf") 2 (lit "Tenets")]
  /\ exists positions, StronglySorted lt positions /\ In 2%nat positions.
Proof.
  split; [vm_compute; reflexivity|].
  destruct (@extract_text_keeps_page_numbers sample_documents sample_pdf
              _ _ eq_refl ltac:(vm_compute; reflexivity))
    as (positions & Hsorted & _ & Hin).
  exists positions. split; [assumption|].
  apply (Hin 2%nat (lit "Tenets")); [reflexivity|vm_compute; discriminate].
Defined.
Lemma lit_inj (a b : string) : lit a = lit b -> a = b.
Proof.
  unfold lit. intros H.
  rewrite <- (string_of_list_ascii_of_string a),
          <- (string_of_list_ascii_of_string b).
  f_equal. revert H.
  generalize (list_ascii_of_string a) (list_ascii_of_string b).
  induction l as [|x l IH]; intros [|y l'] H; try discriminate;
    [reflexivity|].
  injection H as Hxy Hl. f_equal; [|now apply IH].
  now rewrite <- (ascii_N_embedding x), <- (ascii_N_embedding y), Hxy.
Qed.

Lemma str_of_Z_inj (a b : Z) : str_of_Z a = str_of_Z b -> a = b.
Proof.
  unfold str_of_Z. intros H. apply lit_inj in H.
  assert (Hok : forall z, Z.to_int z <> Decimal.Pos Decimal.Nil
                          /\ Z.to_int z <> Decimal.Neg Decimal.Nil).
  { intros [|p|p]; simpl; split; try discriminate;
      intros [= Hp]; now apply DecimalPos.Unsigned.to_uint_nonnil in Hp. }
  assert (Hint : Z.to_int a = Z.to_int b).
  { destruct (Hok a) as [Ha1 Ha2], (Hok b) as [Hb1 Hb2].
    pose proof (DecimalString.NilZero.isi _ Ha1 Ha2) as Ia.
    pose proof (DecimalString.NilZero.isi _ Hb1 Hb2) as Ib.
    rewrite H in Ia. congruence. }
  rewrite <- (DecimalZ.of_to a), <- (DecimalZ.of_to b). now f_equal.
Qed.

Section Chunks.
Context {D : Documents}.

Lemma add_chunks_numbered stem name (i : nat) text page_chunks :
  forall (k : nat) (acc acc' : list pyval) (next : Z),
  add_chunks stem (page_record name i text) page_chunks (Z.of_nat k) acc
    = inr (acc', next) ->
  exists new,
    acc' = acc ++ new
    /\ next = Z.of_nat (k + List.length new)
    /\ forall j chunk,
         nth_error new j = Some chunk ->
         chunk_numbered stem name (k + j) chunk.
Proof.
  induction page_chunks as [|content rest IH]; intros k acc acc' next H.
  - injection H as <- <-. exists []. rewrite app_nil_r, Nat.add_0_r.
    repeat split. intros [|j] chunk [=].
  - cbn [add_chunks] in H.
    change (py_getitem (page_record name i text) (lit "filename"))
      with (@inr exn _ (PStr name)) in H.
    change (py_getitem (page_record name i text) (lit "page_num"))
      with (@inr exn _ (PInt (Z.of_nat i + 1))) in H.
    cbn [and_then] in H.
    destruct (count_tokens content) as [e|token_count] eqn:Hcount;
      [discriminate|].
    cbn [and_then] in H.
    replace (Z.of_nat k + 1)%Z with (Z.of_nat (S k)) in H by lia.
    apply IH in H as (new & -> & -> & Hnew).
    eexists (_ :: new). split; [now rewrite <- app_assoc|].
    split; [cbn [List.length]; f_equal; lia|].
    intros [|j] chunk Hj.
    + injection Hj as <-. rewrite Nat.add_0_r.
      exists (Z.of_nat i + 1)%Z, content, token_count.
      repeat split; [lia|assumption].
    + replace (k + S j)%nat with (S k + j)%nat by lia. now apply Hnew.
Qed.

Lemma chunk_pages_numbered fuel stem name pages :
  Forall (is_page name) pages ->
  forall (k : nat) (acc chunks : list pyval),
  chunk_pages fuel stem pages (Z.of_nat k) acc = Some (inr chunks) ->
  exists new,
    chunks = acc ++ new
    /\ forall j chunk,
         nth_error new j = Some chunk ->
         chunk_numbered stem name (k + j) chunk.
Proof.
  induction 1 as [|page pages (i & text & ->) _ IH]; intros k acc chunks H.
  - injection H as <-. exists []. rewrite app_nil_r.
    split; [reflexivity|]. intros [|j] chunk [=].
  - cbn [chunk_pages] in H.
    change (py_getitem (page_record name i text) (lit "text"))
      with (@inr exn _ (PStr (py_strip text))) in H.
    cbv beta iota in H.
    destruct (chunk_text fuel (py_strip text) CHUNK_SIZE CHUNK_OVERLAP)
      as [[e|page_chunks]|]; try discriminate.
    destruct (add_chunks _ _ _ _ _) as [e|[acc1 next]] eqn:Hadd;
      [discriminate|].
    apply add_chunks_numbered in Hadd as (new1 & -> & -> & Hnew1).
    apply IH in H as (new2 & -> & Hnew2).
    exists (new1 ++ new2). split; [now rewrite app_assoc|].
    intros j chunk Hj.
    destruct (Nat.lt_ge_cases j (List.length new1)) as [Hlt|Hge].
    + rewrite nth_error_app1 in Hj by assumption. now apply Hnew1.
    + rewrite nth_error_app2 in Hj by assumption.
      apply Hnew2 in Hj.
      now replace (k + List.length new1 + (j - List.length new1))%nat
        with (k + j)%nat in Hj by lia.
Qed.

Lemma extract_text_pages (path : pdf_path) (pages : list pyval) :
  extract_text_from_pdf path = inr pages ->
  Forall (is_page (path_name path)) pages.
Proof.
  unfold extract_text_from_pdf.
  destruct (read_pages path) as [e|texts]; [discriminate|]. cbn [and_then].
  intros H.
  apply (extract_pages_positions _ _ 0%nat) in H
    as (positions & found & -> & _ & _ & Hall & _).
  cbn [app]. clear -Hall.
  induction Hall as [|i page ps fs (text & _ & _ & ->) _ IH]; constructor;
    [now exists i, text|assumption].
Qed.

Lemma chunk_id_inj stem (a b : nat) :
  stem ++ lit "_chunk_" ++ str_of_Z (Z.of_nat a)
  = stem ++ lit "_chunk_" ++ str_of_Z (Z.of_nat b) ->
  a = b.
Proof.
  intros H. apply app_inv_head in H. apply app_inv_head in H.
  apply str_of_Z_inj in H. lia.
Qed.

(** X17.  In what [process_pdf] returns, the chunk at position [n]
    (from 0) has the id ["<stem>_chunk_<n>"], the file's name, a page
    number of at least 1 and the token count of its own text: the
    counter runs on across the pages, and the ids of the chunks of one
    file are pairwise distinct. *)
Theorem process_pdf_numbers_chunks
  (fuel : nat) (path : pdf_path) (chunks : list pyval) :
  process_pdf fuel path = Some (inr chunks) ->
  (forall n chunk,
     nth_error chunks n = Some chunk ->
     chunk_numbered (path_stem path) (path_name path) n chunk)
  /\ NoDup (chunk_ids chunks).
Proof.
  unfold process_pdf.
  destruct (extract_text_from_pdf path) as [e|pages] eqn:Hpages;
    [discriminate|].
  intros H. apply extract_text_pages in Hpages.
  apply (chunk_pages_numbered _ _ _ _ Hpages 0%nat) in H
    as (new & -> & Hnew).
  cbn [app Nat.add] in *. split; [exact Hnew|].
  apply NoDup_nth_error. intros a b Ha Hab. unfold chunk_ids in *.
  rewrite length_map in Ha. rewrite !nth_error_map in Hab.
  destruct (nth_error new a) as [ca|] eqn:Hca;
    [|apply nth_error_None in Hca; lia].
  destruct (nth_error new b) as [cb|] eqn:Hcb; [|discriminate].
  destruct (Hnew _ _ Hca) as (p1 & t1 & c1 & -> & _).
  destruct (Hnew _ _ Hcb) as (p2 & t2 & c2 & -> & _).
  cbn in Hab. injection Hab as Hab. now apply chunk_id_inj in Hab.
Qed.
End Chunks.

Lemma process_pdf_numbers_chunks_witness :
  exists c0 c1,
    @process_pdf sample_documents 1 sample_pdf = Some (inr [c0; c1])
    /\ @chunk_numbered sample_documents (lit "sp800-207")
         (lit "sp800-207.pdf") 1 c1.
Proof.
  destruct (@process_pdf sample_documents 1 sample_pdf) as [[e|chunks]|] eqn:Hrun;
    try (vm_compute in Hrun; discriminate).
  destruct (@process_pdf_numbers_chunks sample_documents _ _ _ Hrun)
    as [Hnum _].
  vm_compute in Hrun. injection Hrun as <-.
  do 2 eexists. split; [reflexivity|].
  exact (Hnum 1%nat _ eq_refl).
Defined.
Section AllPdfs.
Context {D : Documents}.

Lemma process_files_per_file fuel pdf_files :
  forall acc all_chunks,
  process_files fuel pdf_files acc = Some all_chunks ->
  exists per_file,
    all_chunks = acc ++ concat per_file
    /\ Forall2 (file_chunks fuel) pdf_files per_file.
Proof.
  induction pdf_files as [|path rest IH]; intros acc all_chunks H.
  - injection H as <-. exists []. now rewrite app_nil_r.
  - cbn [process_files] in H.
    destruct (process_pdf fuel path) as [[e|chunks]|] eqn:Hpdf;
      [| |discriminate].
    + apply IH in H as (per_file & -> & Hall). exists ([] :: per_file).
      split; [reflexivity|]. constructor; [|assumption]. right. eauto.
    + apply IH in H as (per_file & -> & Hall). exists (chunks :: per_file).
      split; [now rewrite <- app_assoc|]. constructor; [now left|assumption].
Qed.

(** X18.  [process_all_pdfs] returns the chunks of the files of the
    directory in sorted order; a file on which [process_pdf] raises
    contributes nothing (not even the chunks of its pages before the
    failure) and does not stop the others. *)
Theorem process_all_pdfs_skips_failures
  (fuel : nat) (dir : pdf_dir) (all_chunks : list pyval) :
  process_all_pdfs fuel dir = Some all_chunks ->
  exists per_file,
    all_chunks = concat per_file
    /\ Forall2 (file_chunks fuel) (sorted_pdfs dir) per_file.
Proof.
  unfold process_all_pdfs. intros H.
  apply process_files_per_file in H as (per_file & -> & Hall).
  now exists per_file.
Qed.

Lemma chunk_loop_more fuel tokens chunk_size overlap :
  forall start chunks r extra,
  chunk_loop fuel tokens chunk_size overlap start chunks = Some r ->
  chunk_loop (fuel + extra) tokens chunk_size overlap start chunks = Some r.
Proof.
  induction fuel as [|fuel IH]; intros start chunks r extra H; [discriminate|].
  cbn [chunk_loop Nat.add] in *. cbv zeta in *.
  destruct (start <? _)%Z; [|assumption].
  destruct (_ <=? _)%Z; [assumption|]. now apply IH.
Qed.

Lemma chunk_text_more fuel text chunk_size overlap r extra :
  chunk_text fuel text chunk_size overlap = Some r ->
  chunk_text (fuel + extra) text chunk_size overlap = Some r.
Proof.
  unfold chunk_text. destruct (encode text) as [e|tokens]; [auto|].
  destruct (_ <=? _)%Z; [auto|].
  destruct (chunk_loop fuel _ _ _ _ _) as [chunks|] eqn:Hloop; [|discriminate].
  intros [= <-]. now rewrite (chunk_loop_more _ _ _ _ _ _ _ extra Hloop).
Qed.

Lemma chunk_pages_more fuel stem pages extra :
  forall chunk_id chunks r,
  chunk_pages fuel stem pages chunk_id chunks = Some r ->
  chunk_pages (fuel + extra) stem pages chunk_id chunks = Some r.
Proof.
  induction pages as [|page rest IH]; intros chunk_id chunks r H; [exact H|].
  cbn [chunk_pages] in *.
  destruct (py_getitem page (lit "text")) as [e|[| | | |text| |]]; try exact H.
  destruct (chunk_text fuel text CHUNK_SIZE CHUNK_OVERLAP) as [c|] eqn:Hc;
    [|discriminate].
  rewrite (chunk_text_more _ _ _ _ _ extra Hc).
  destruct c as [e|page_chunks]; [exact H|].
  destruct (add_chunks _ _ _ _ _) as [e|[acc next]]; [exact H|].
  now apply IH.
Qed.

Lemma process_pdf_more fuel path r extra :
  process_pdf fuel path = Some r -> process_pdf (fuel + extra) path = Some r.
Proof.
  unfold process_pdf. destruct (extract_text_from_pdf path); [auto|].
  apply chunk_pages_more.
Qed.

Lemma process_files_more fuel pdf_files extra :
  forall acc r,
  process_files fuel pdf_files acc = Some r ->
  process_files (fuel + extra) pdf_files acc = Some r.
Proof.
  induction pdf_files as [|path rest IH]; intros acc r H; [exact H|].
  cbn [process_files] in *.
  destruct (process_pdf fuel path) as [c|] eqn:Hc; [|discriminate].
  rewrite (process_pdf_more _ _ _ extra Hc).
  destruct c; now apply IH.
Qed.

Lemma chunk_text_default_returns (text : str) :
  exists fuel r, chunk_text fuel text CHUNK_SIZE CHUNK_OVERLAP = Some r.
Proof.
  destruct (encode text) as [e|tokens] eqn:Henc.
  - exists 0%nat, (inl e). unfold chunk_text. now rewrite Henc.
  - destruct (Z.leb_spec (Z.of_nat (List.length tokens)) CHUNK_SIZE) as [Hle|Hgt].
    + exists 0%nat, (inr [text]). unfold chunk_text. rewrite Henc.
      now rewrite (proj2 (Z.leb_le _ _)) by assumption.
    + exists (List.length tokens). eexists.
      apply (chunk_text_windows _ _ tokens); [assumption|..];
        unfold CHUNK_SIZE, CHUNK_OVERLAP in *; lia.
Qed.

Lemma chunk_pages_returns stem pages :
  forall chunk_id chunks,
  exists fuel r, chunk_pages fuel stem pages chunk_id chunks = Some r.
Proof.
  induction pages as [|page rest IH]; intros chunk_id chunks.
  - now exists 0%nat, (inr chunks).
  - cbn [chunk_pages].
    destruct (py_getitem page (lit "text")) as [e|[| | | |text| |]];
      try (now exists 0%nat; eexists).
    destruct (chunk_text_default_returns text) as (fuel1 & c & Hc).
    destruct c as [e|page_chunks].
    { exists fuel1. eexists. now rewrite Hc. }
    destruct (add_chunks stem page page_chunks chunk_id chunks)
      as [e|[acc next]] eqn:Hadd.
    { exists fuel1. eexists. now rewrite Hc, Hadd. }
    destruct (IH next acc) as (fuel2 & r & Hr).
    exists (fuel1 + fuel2)%nat, r.
    rewrite (chunk_text_more _ _ _ _ _ fuel2 Hc), Hadd.
    rewrite Nat.add_comm. now apply chunk_pages_more.
Qed.

Lemma process_pdf_returns path :
  exists fuel r, process_pdf fuel path = Some r.
Proof.
  unfold process_pdf. destruct (extract_text_from_pdf path) as [e|pages].
  - now exists 0%nat, (inl e).
  - apply chunk_pages_returns.
Qed.

Lemma process_files_returns pdf_files :
  forall acc, exists fuel r, process_files fuel pdf_files acc = Some r.
Proof.
  induction pdf_files as [|path rest IH]; intros acc.
  - now exists 0%nat, acc.
  - destruct (process_pdf_returns path) as (fuel1 & c & Hc).
    destruct (IH (match c with inl _ => acc | inr chunks => acc ++ chunks end))
      as (fuel2 & r & Hr).
    exists (fuel1 + fuel2)%nat, r. cbn [process_files].
    rewrite (process_pdf_more _ _ _ fuel2 Hc).
    rewrite Nat.add_comm. destruct c; now apply process_files_more.
Qed.

(** X19.  With the default chunk size and overlap [process_all_pdfs]
    always returns, on every directory: there is an amount of fuel from
    which on it yields one and the same list of chunks. *)
Theorem process_all_pdfs_returns (dir : pdf_dir) :
  exists fuel all_chunks,
    forall more,
      process_all_pdfs (fuel + more) dir = Some all_chunks.
Proof.
  destruct (process_files_returns (sorted_pdfs dir) []) as (fuel & r & Hr).
  exists fuel, r. intros more. now apply process_files_more.
Qed.
End AllPdfs.

Lemma process_all_pdfs_skips_failures_witness :
  exists chunks,
    @process_pdf sample_documents 1 sample_pdf = Some (inr chunks)
    /\ @process_all_pdfs sample_documents 1 [broken_pdf; sample_pdf]
       = Some chunks.
Proof.
  destruct (@process_all_pdfs sample_documents 1 [broken_pdf; sample_pdf])
    as [all_chunks|] eqn:Hrun; [|vm_compute in Hrun; discriminate].
  destruct (@process_all_pdfs_skips_failures sample_documents _ _ _ Hrun)
    as (per_file & -> & Hall).
  inversion Hall as [|p1 c1 ps1 cs1 H1 Hrest]; subst.
  inversion Hrest as [|p2 c2 ps2 cs2 H2 Hnil]; subst.
  inversion Hnil; subst.
  destruct H1 as [H1|[_ ->]]; [vm_compute in H1; discriminate|].
  destruct H2 as [H2|[[e H2] _]]; [|vm_compute in H2; discriminate].
  exists c2. split; [exact H2|]. cbn [concat app]. now rewrite app_nil_r.
Defined.
Section Retry.
Context {E : Externals} {BE : Builder}.

Lemma azure_embed_run (text : pyval) (s : state) :
  azure_embed text s =
  let body := PDict [(lit "input", text)] in
  let '(reply, w') := post_embed body (st_world s) in
  (embedding_of reply, with_world s w', [EvEmbedPost body reply]).
Proof.
  unfold azure_embed, bind, call, lift, embedding_of; simpl.
  now destruct (post_embed _ _) as [[e|data] w'].
Qed.

Lemma embed_posts_app (t1 t2 : list build_event) :
  embed_posts (t1 ++ t2) = embed_posts t1 ++ embed_posts t2.
Proof.
  induction t1 as [|ev t1 IH]; [reflexivity|].
  destruct ev as [[]| |]; simpl; now rewrite ?IH.
Qed.

Lemma sleeps_of_app (t1 t2 : list build_event) :
  sleeps_of (t1 ++ t2) = sleeps_of t1 ++ sleeps_of t2.
Proof.
  induction t1 as [|ev t1 IH]; [reflexivity|].
  destruct ev; simpl; now rewrite ?IH.
Qed.

Lemma embed_attempts_trace (text : pyval) (max_retries : Z) :
  forall (remaining : nat) (attempt : Z) (s : state) r s' t,
  embed_attempts remaining attempt text max_retries s = (r, s', t) ->
  (0 <= attempt)%Z ->
  remaining = Z.to_nat (max_retries - attempt) ->
  let posts := embed_posts t in
  (List.length posts <= remaining)%nat
  /\ Forall (fun p => fst p = PDict [(lit "input", text)]) posts
  /\ sleeps_of t
     = map (fun i => FDec false (2 ^ (Z.to_N attempt + N.of_nat i)) 0)
         (seq 0 (List.length (sleeps_of t)))
  /\ (List.length (sleeps_of t) <= List.length posts)%nat
  /\ (forall v, r = inr v ->
        List.length (sleeps_of t) = (List.length posts - 1)%nat)
  /\ Forall attempt_failed (removelast posts)
  /\ match r with
     | inr v =>
         (exists front post,
            posts = front ++ [post] /\ embedding_of (snd post) = inr v)
         \/ (v = PNone /\ Forall attempt_failed posts
             /\ List.length posts = remaining)
     | inl x =>
         Forall attempt_failed posts
         /\ (x = OverflowError
             \/ exists e seconds t0,
                  x = Raised e /\ t = t0 ++ [Slept seconds (inl e)])
     end.
Proof.
  induction remaining as [|remaining IH]; intros attempt s r s' t H Hpos Hrem.
  { injection H as <- <- <-. cbn.
    split; [lia|]. split; [constructor|]. split; [reflexivity|].
    split; [lia|]. split; [reflexivity|]. split; [constructor|].
    right. split; [reflexivity|]. split; [constructor|reflexivity]. }
  cbn [embed_attempts] in H. rewrite azure_embed_run in H. cbv zeta in H.
  destruct (post_embed _ _) as [reply w'].
  destruct (embedding_of reply) as [e|embedding] eqn:Hreply.
  2:{ injection H as <- <- <-. cbn.
      split; [lia|]. split; [now repeat constructor|]. split; [reflexivity|].
      split; [lia|]. split; [reflexivity|]. split; [constructor|].
      left. exists [], (PDict [(lit "input", text)], reply). now split. }
  assert (Hfailed : attempt_failed (PDict [(lit "input", text)], reply)).
  { now exists e. }
  destruct (Z.ltb_spec attempt (max_retries - 1)) as [Hlt|Hge].
  2:{ injection H as <- <- <-. cbn.
      split; [lia|]. split; [now repeat constructor|]. split; [reflexivity|].
      split; [lia|]. split; [reflexivity|]. split; [constructor|].
      right. split; [reflexivity|]. split; [now repeat constructor|lia]. }
  unfold backoff in H. destruct (Z.ltb_spec attempt 1024) as [Hsmall|Hbig].
  2:{ injection H as <- <- <-. cbn.
      split; [lia|]. split; [now repeat constructor|]. split; [reflexivity|].
      split; [lia|]. split; [discriminate|]. split; [constructor|].
      split; [now repeat constructor|now left]. }
  unfold bbind, bcall in H.
  destruct (sleep _ _) as [[e1|[]] w''].
  { injection H as <- <- <-. cbn.
    split; [lia|]. split; [now repeat constructor|].
    split; [now rewrite N.add_0_r|].
    split; [lia|]. split; [discriminate|]. split; [constructor|].
    split; [now repeat constructor|]. right.
    match goal with
    | |- context [[?g; Slept ?w _]] => exists e1, w, [g]
    end.
    split; reflexivity. }
  destruct (embed_attempts remaining _ _ _ _) as [[r1 s1] t1] eqn:Hrec.
  injection H as <- <- <-.
  apply IH in Hrec as (Hn & Hbody & Hsl & Hle & Hlast & Hfront & Hr);
    [|lia|lia].
  cbn [map app embed_posts sleeps_of List.length].
  set (posts := embed_posts t1) in *. set (sl := sleeps_of t1) in *.
  split; [lia|]. split; [constructor; [reflexivity|assumption]|].
  split.
  { cbn [seq map]. rewrite N.add_0_r. f_equal.
    rewrite Hsl at 1. rewrite <- seq_shift, map_map.
    apply map_ext. intros i. do 2 f_equal. lia. }
  split; [lia|]. split.
  { intros v ->. specialize (Hlast v eq_refl).
    destruct Hr as [(front & post & Hp & _)|(_ & _ & Hp)].
    - rewrite Hp, length_app in *. simpl in *. lia.
    - assert (remaining <> 0%nat) by lia. lia. }
  split.
  { destruct posts as [|p ps] eqn:Hposts; [constructor|].
    change (removelast (?x :: p :: ps)) with (x :: removelast (p :: ps)).
    now constructor. }
  destruct r1 as [x|v].
  - destruct Hr as [Hall Hx]. split; [now constructor|].
    destruct Hx as [->|(e2 & seconds & t0 & -> & ->)]; [now left|].
    right. exists e2, seconds. eexists. split; [reflexivity|].
    now rewrite !app_comm_cons.
  - destruct Hr as [(front & post & Hp & Hv)|(-> & Hall & Hlen)].
    + left. exists ((PDict [(lit "input", text)], reply) :: front), post.
      now rewrite Hp.
    + right. repeat split; [now constructor|lia].
Qed.
End Retry.

Section RetryTheorems.
Context {E : Externals} {BE : Builder}.

(** X20.  [embed_with_retry] asks the embedding endpoint at most
    [max_retries] times, each time for the text it was given, and the
    sleeps between the attempts last 1, 2, 4, ... seconds in this
    order.  It never sleeps more often than it asks, and when it returns
    it has slept exactly once between two attempts and not after the
    last one. *)
Theorem embed_with_retry_backoff
  (text : pyval) (max_retries : Z) (s : state) r s' t :
  embed_with_retry text max_retries s = (r, s', t) ->
  (List.length (embed_posts t) <= Z.to_nat max_retries)%nat
  /\ Forall (fun p => fst p = PDict [(lit "input", text)]) (embed_posts t)
  /\ sleeps_of t
     = map (fun i => FDec false (2 ^ N.of_nat i) 0)
         (seq 0 (List.length (sleeps_of t)))
  /\ (List.length (sleeps_of t) <= List.length (embed_posts t))%nat
  /\ (forall v,
        r = inr v ->
        List.length (sleeps_of t) = (List.length (embed_posts t) - 1)%nat).
Proof.
  intros H. unfold embed_with_retry in H.
  apply embed_attempts_trace in H
    as (Hn & Hbody & Hsl & Hle & Hlast & _); [|lia|f_equal; lia].
  repeat split; assumption.
Qed.

(** X21.  [embed_with_retry] stops at the first attempt that
    succeeds, and no failure of the embedding endpoint leaves it: when
    it returns, it returns either the embedding of a last, successful
    attempt, or [None] after [max_retries] failed attempts; when it
    raises, every attempt had failed and the exception comes from the
    handler itself (a failed [time.sleep], or the overflow of the
    backoff). *)
Theorem embed_with_retry_swallows_errors
  (text : pyval) (max_retries : Z) (s : state) r s' t :
  embed_with_retry text max_retries s = (r, s', t) ->
  Forall attempt_failed (removelast (embed_posts t))
  /\ match r with
     | inr v =>
         (exists front post,
            embed_posts t = front ++ [post]
            /\ embedding_of (snd post) = inr v)
         \/ (v = PNone
             /\ Forall attempt_failed (embed_posts t)
             /\ List.length (embed_posts t) = Z.to_nat max_retries)
     | inl x =>
         Forall attempt_failed (embed_posts t)
         /\ (x = OverflowError
             \/ exists e seconds t0,
                  x = Raised e /\ t = t0 ++ [Slept seconds (inl e)])
     end.
Proof.
  intros H. unfold embed_with_retry in H.
  apply embed_attempts_trace in H
    as (_ & _ & _ & _ & _ & Hfront & Hr); [|lia|f_equal; lia].
  split; assumption.
Qed.
End RetryTheorems.

Lemma embed_with_retry_backoff_witness :
  exists v s' t,
    @embed_with_retry scripted scripted_builder (PStr (lit "zero trust")) 3
      (start flaky_script) = (inr v, s', t)
    /\ sleeps_of t = [FDec false 1 0; FDec false 2 0]
    /\ List.length (embed_posts t) = 3%nat.
Proof.
  destruct (@embed_with_retry scripted scripted_builder
              (PStr (lit "zero trust")) 3 (start flaky_script))
    as [[r s'] t] eqn:Hrun.
  destruct (embed_with_retry_backoff _ _ _ _ _ _ Hrun)
    as (_ & _ & Hsl & _ & Hlast).
  assert (Hr : exists v, r = inr v
                         /\ List.length (embed_posts t) = 3%nat).
  { vm_compute in Hrun. injection Hrun as <- _ <-. now eexists. }
  destruct Hr as (v & -> & Hposts).
  specialize (Hlast v eq_refl). rewrite Hposts in Hlast.
  rewrite Hlast in Hsl. exists v, s', t. auto.
Defined.

Lemma embed_with_retry_swallows_errors_witness :
  exists s' t,
    @embed_with_retry scripted scripted_builder (PStr (lit "zero trust")) 3
      (start down_script) = (inr PNone, s', t)
    /\ Forall attempt_failed (embed_posts t).
Proof.
  destruct (@embed_with_retry scripted scripted_builder
              (PStr (lit "zero trust")) 3 (start down_script))
    as [[r s'] t] eqn:Hrun.
  destruct (embed_with_retry_swallows_errors _ _ _ _ _ _ Hrun) as [_ Hr].
  assert (Hv : r = inr PNone /\ List.length (embed_posts t) = 3%nat).
  { vm_compute in Hrun. now injection Hrun as <- _ <-. }
  destruct Hv as [-> Hlen].
  exists s', t. split; [reflexivity|].
  destruct Hr as [(front & post & Hp & Hv)|(_ & Hall & _)]; [|exact Hall].
  exfalso. vm_compute in Hrun. injection Hrun as _ <-.
  cbn in Hp. destruct front as [|p0 [|p1 [|p2 [|p3 front]]]]; try discriminate.
  injection Hp as _ _ <-. discriminate.
Defined.
Section Alignment.
Context {E : Externals} {BE : Builder}.

Lemma bbind_inv {A C} (m : B A) (f : A -> B C) (s : state) r s' t :
  bbind m f s = (r, s', t) ->
  (exists e, m s = (inl e, s', t) /\ r = inl e)
  \/ (exists a s1 t1 t2,
        m s = (inr a, s1, t1) /\ f a s1 = (r, s', t2) /\ t = t1 ++ t2).
Proof.
  unfold bbind. destruct (m s) as [[[e|a] s1] t1].
  - intros [= <- <- <-]. left. eauto.
  - destruct (f a s1) as [[r2 s2] t2] eqn:Hf. intros [= <- <- <-].
    right. exists a, s1, t1, t2. auto.
Qed.

Lemma blift_inv {A} (x : res A) (s : state) (a : A) s' t :
  blift x s = (inr a, s', t) -> x = inr a /\ s' = s /\ t = [].
Proof. unfold blift. destruct x; now intros [= <- <- <-]. Qed.

Lemma embed_posts_In (t : list build_event) body reply :
  In (body, reply) (embed_posts t) -> In (Gateway (EvEmbedPost body reply)) t.
Proof.
  induction t as [|ev t IH]; [intros []|].
  destruct ev as [[]| |]; simpl; try (intros H; right; now apply IH).
  intros [[= -> ->]|H]; [now left|right; now apply IH].
Qed.

Lemma aligned_more t1 t2 t3 chunks1 chunks2 embedding record :
  aligned t2 chunks2 embedding record ->
  aligned (t1 ++ t2 ++ t3) (chunks1 ++ chunks2) embedding record.
Proof.
  intros (Hrec & (text & reply & Ht & Hin & Hemb) & (chunk & Hchunk)).
  split; [assumption|]. split.
  - exists text, reply. repeat split; try assumption.
    apply in_or_app. right. apply in_or_app. now left.
  - exists chunk. destruct Hchunk as (a & b & c & d & Hc & Hrest).
    exists a, b, c, d. split; [|assumption]. apply in_or_app. now right.
Qed.

Lemma embed_chunks_aligned (chunks : list pyval) :
  forall embeddings metadata (s : state) embeddings' metadata' s' t,
  embed_chunks chunks embeddings metadata s
    = (inr (embeddings', metadata'), s', t) ->
  exists vectors records,
    embeddings' = embeddings ++ vectors
    /\ metadata' = metadata ++ records
    /\ Forall2 (aligned t chunks) vectors records.
Proof.
  induction chunks as [|chunk rest IH];
    intros embeddings metadata s embeddings' metadata' s' t H.
  { injection H as <- <- <- <-. exists [], []. rewrite !app_nil_r.
    repeat split. constructor. }
  cbn [embed_chunks] in H.
  apply bbind_inv in H as [(e & _ & [=])|(text & s1 & t1 & t2 & H1 & H & ->)].
  apply blift_inv in H1 as (Htext & -> & ->).
  apply bbind_inv in H as [(e & _ & [=])|(embedding & s1 & t1 & t3 & Hemb & H & ->)].
  assert (Hshift : forall t0 vectors records,
            Forall2 (aligned t0 rest) vectors records ->
            Forall2 (aligned ([] ++ t1 ++ t0) (chunk :: rest)) vectors records).
  { intros t0 vectors records Hall. eapply Forall2_impl; [|exact Hall].
    intros v rcd Ha.
    apply (aligned_more t1 t0 [] [chunk] rest) in Ha.
    now rewrite app_nil_r in Ha. }
  destruct embedding as [| | | | | |] eqn:Hv.
  1:{ apply IH in H as (vectors & records & -> & -> & Hall).
      exists vectors, records. auto. }
  all: rewrite <- Hv in *;
    assert (Hne : embedding <> PNone) by (rewrite Hv; discriminate); clear Hv.
  all: apply bbind_inv in H as [(e & _ & [=])|(chunk_id & s2 & t4 & t5 & H2 & H & ->)];
    apply blift_inv in H2 as (Hid & -> & ->);
    apply bbind_inv in H as [(e & _ & [=])|(filename & s2 & t4 & t6 & H2 & H & ->)];
    apply blift_inv in H2 as (Hname & -> & ->);
    apply bbind_inv in H as [(e & _ & [=])|(page_num & s2 & t4 & t7 & H2 & H & ->)];
    apply blift_inv in H2 as (Hpage & -> & ->);
    apply bbind_inv in H as [(e & _ & [=])|(text' & s2 & t4 & t8 & H2 & H & ->)];
    apply blift_inv in H2 as (Htext' & -> & ->);
    apply bbind_inv in H as [(e & _ & [=])|(u & s2 & t4 & t9 & H2 & H & ->)];
    apply IH in H as (vectors & records & -> & -> & Hall);
    cbn [app];
    exists (embedding :: vectors);
    eexists (_ :: records);
    (split; [now rewrite <- app_assoc|]);
    (split; [now rewrite <- app_assoc|]);
    (constructor;
     [|specialize (Hshift (t4 ++ t9) vectors records);
       cbn [app] in Hshift; apply Hshift;
       eapply Forall2_impl; [|exact Hall];
       intros v rcd Ha;
       apply (aligned_more t4 t9 [] [] rest) in Ha;
       now rewrite app_nil_r in Ha]).
  all: assert (Htxt : text' = text) by congruence; subst text'.
  all: unfold embed_with_retry in Hemb;
    apply embed_attempts_trace in Hemb
      as (_ & Hbody & _ & _ & _ & _ & Hr); [|lia|reflexivity];
    destruct Hr as [(front & [body reply] & Hp & Hreply)|(Hnone & _)];
      [|contradiction].
  all: assert (Hin : In (body, reply) (embed_posts t1))
    by (rewrite Hp; apply in_or_app; right; now left).
  all: assert (Hb : body = PDict [(lit "input", text)])
    by (rewrite Forall_forall in Hbody; exact (Hbody _ Hin)).
  all: subst body; apply embed_posts_In in Hin.
  all: split;
    [exists [(lit "chunk_id", chunk_id); (lit "filename", filename);
             (lit "page_num", page_num); (lit "text", text)],
       chunk_id, filename, page_num, text; repeat split
    |split;
     [exists text, reply; repeat split;
      [apply in_or_app; now left|assumption]
     |exists chunk, chunk_id, filename, page_num, text;
      repeat split; try assumption; now left]].
Qed.

(** X22.  When [build_index] returns, the index was built last, from
    vectors that line up with the metadata: vector [i] is the embedding
    the endpoint returned for the text of record [i], and record [i]
    copies the four fields of one of the chunks.  Every record is a
    chunk record as [retrieve] reads it; chunks whose embedding failed
    are in neither list. *)
Theorem build_index_aligned
  (chunks : list pyval) (s : state) index metadata s' t :
  build_index chunks s = (inr (index, metadata), s', t) ->
  exists embeddings front,
    t = front ++ [IndexBuilt embeddings true]
    /\ Forall2 (aligned t chunks) embeddings metadata
    /\ Forall chunk_record metadata.
Proof.
  unfold build_index. intros H.
  apply bbind_inv in H as [(e & _ & [=])|([em md] & s1 & t1 & t2 & H1 & H & ->)].
  apply bbind_inv in H as [(e & _ & [=])|(ix & s2 & t3 & t4 & H2 & H & ->)].
  injection H as <- <- <- <-. cbn [fst snd] in *.
  unfold bcall in H2. destruct (new_index _ _) as [[e|ix'] w']; [discriminate|].
  injection H2 as <- <- <-. rewrite app_nil_r.
  apply embed_chunks_aligned in H1 as (vectors & records & -> & -> & Hall).
  cbn [app] in *. exists vectors, t1. split; [reflexivity|].
  assert (Hall' : Forall2 (aligned (t1 ++ [IndexBuilt vectors true]) chunks)
                    vectors records).
  { eapply Forall2_impl; [|exact Hall]. intros v rcd Ha.
    apply (aligned_more [] t1 [IndexBuilt vectors true] [] chunks) in Ha.
    exact Ha. }
  split; [assumption|].
  clear -Hall. induction Hall as [|v rcd vs rs [Hrec _] _ IH]; constructor;
    assumption.
Qed.
End Alignment.

Lemma build_index_aligned_witness :
  exists index metadata s' t,
    @build_index scripted scripted_builder
      [chunk (lit "c0") (lit "sp800-207.pdf") 3
         (lit "Zero trust assumes no implicit trust.");
       chunk (lit "c1") (lit "sp800-207.pdf") 7
         (lit "Access is granted per session.")]
      (start flaky_script)
    = (inr (index, metadata), s', t)
    /\ List.length metadata = 1%nat
    /\ Forall chunk_record metadata.
Proof.
  destruct (@build_index scripted scripted_builder
      [chunk (lit "c0") (lit "sp800-207.pdf") 3
         (lit "Zero trust assumes no implicit trust.");
       chunk (lit "c1") (lit "sp800-207.pdf") 7
         (lit "Access is granted per session.")]
      (start flaky_script)) as [[r s'] t] eqn:Hrun.
  assert (Hr : exists index metadata,
            r = inr (index, metadata) /\ List.length metadata = 1%nat).
  { vm_compute in Hrun. injection Hrun as <- _ _. now do 2 eexists. }
  destruct Hr as (index & metadata & -> & Hlen).
  destruct (build_index_aligned _ _ _ _ _ _ Hrun)
    as (embeddings & front & _ & _ & Hrec).
  exists index, metadata, s', t. auto.
Defined.
Section Session.
Context {E : Externals} {C : Console}.



Lemma agent_events_app (t1 t2 : list chat_event) :
  agent_events (t1 ++ t2) = agent_events t1 ++ agent_events t2.
Proof.
  induction t1 as [|ev t1 IH]; [reflexivity|].
  destruct ev; simpl; now rewrite ?IH.
Qed.



Lemma agent_events_agent (t : list event) : agent_events (map Agent t) = t.
Proof. induction t; simpl; congruence. Qed.




Lemma keeps_agentic_rag user_query max_iterations :
  keeps warm quiet_index (agentic_rag user_query max_iterations).
Proof.
  unfold agentic_rag.
  apply keeps_bind; [apply keeps_agent_loop|].
  intros [m c|v]; [|apply keeps_ret].
  apply keeps_bind; [apply keeps_azure_chat_with_tools|intros ?; apply keeps_lift].
Qed.

Lemma chat_turn_warm (s : state) exit s' t :
  warm s ->
  chat_turn s = (exit, s', t) ->
  warm s' /\ Forall (fun ev => reads_index ev = false) (agent_events t).
Proof.
  intros Hwarm. unfold chat_turn.
  assert (Hw : forall w, warm (with_world s w)).
  { intros w. eapply warm_stable; [|exact Hwarm]. reflexivity. }
  destruct (read_input (st_world s)) as [[line| |] w]; cbv zeta.
  - destruct (is_exit_command _).
    { intros [= <- <- <-]. split; [apply Hw|constructor]. }
    destruct (py_strip line) as [|c cs].
    { intros [= <- <- <-]. split; [apply Hw|constructor]. }
    destruct (agentic_rag _ _ _) as [[r s2] t2] eqn:Hrun.
    destruct (keeps_agentic_rag _ _ _ _ _ _ (Hw w) Hrun) as [Hidx Hq].
    assert (Hs2 : warm s2) by (eapply warm_stable; [exact Hidx|apply Hw]).
    destruct r; intros [= <- <- <-]; (split; [assumption|]);
      cbn [agent_events]; rewrite agent_events_app, agent_events_agent;
      cbn [agent_events]; now rewrite app_nil_r.
  - intros [= <- <- <-]. split; [apply Hw|constructor].
  - intros [= <- <- <-]. split; [apply Hw|constructor].
Qed.

(** X25.  In a chat session that starts with the index in the module
    globals, no round reads the index files, however many questions are
    asked, and the globals are still set at the end. *)
Theorem warm_session_reads_no_index
  (fuel : nat) (s : state) s' t :
  warm s ->
  chat_loop fuel s = Some (s', t) ->
  warm s' /\ Forall (fun ev => reads_index ev = false) (agent_events t).
Proof.
  revert s s' t. induction fuel as [|fuel IH]; intros s s' t Hwarm H;
    [discriminate|].
  cbn [chat_loop] in H.
  destruct (chat_turn s) as [[exit s1] t1] eqn:Hturn.
  apply (chat_turn_warm _ _ _ _ Hwarm) in Hturn as [Hs1 Hq1].
  destruct exit.
  - injection H as <- <-. auto.
  - destruct (chat_loop fuel s1) as [[s2 t2]|] eqn:Hloop; [|discriminate].
    injection H as <- <-.
    destruct (IH _ _ _ Hs1 Hloop) as [Hs2 Hq2].
    split; [assumption|]. rewrite agent_events_app. apply Forall_app. auto.
Qed.
End Session.



Lemma warm_session_reads_no_index_witness :
  exists s' t,
    @chat_loop session session_console 3
      (warm_session
         [asks_tools [search_call (lit "call_1")]; verdict_sufficient;
          says (lit "Zero trust means ...")]
         [Typed (lit "What is zero trust?"); Typed (lit "q")])
    = Some (s', t)
    /\ List.length (agent_events t) = 5%nat
    /\ Forall (fun ev => reads_index ev = false) (agent_events t).
Proof.
  destruct (@chat_loop session session_console 3
      (warm_session
         [asks_tools [search_call (lit "call_1")]; verdict_sufficient;
          says (lit "Zero trust means ...")]
         [Typed (lit "What is zero trust?"); Typed (lit "q")]))
    as [[s' t]|] eqn:Hrun; [|vm_compute in Hrun; discriminate].
  assert (Hwarm : @warm session
            (warm_session
               [asks_tools [search_call (lit "call_1")]; verdict_sufficient;
                says (lit "Zero trust means ...")]
               [Typed (lit "What is zero trust?"); Typed (lit "q")])).
  { exists tt, sample_metadata. split; [reflexivity|discriminate]. }
  destruct (warm_session_reads_no_index _ _ _ _ Hwarm Hrun) as [_ Hquiet].
  exists s', t. split; [reflexivity|]. split; [|exact Hquiet].
  vm_compute in Hrun. now injection Hrun as _ <-.
Defined.
Section Reload.
Context {E : Externals} {C : Console}.

Lemma loads_app (t1 t2 : list event) : loads (t1 ++ t2) = (loads t1 + loads t2)%nat.
Proof. unfold loads. now rewrite filter_app, length_app. Qed.

Lemma reloads_silent {A} (m : M A) :
  (forall s, exists r, m s = (r, s, [])) -> reloads m.
Proof.
  intros Hm s r s' t Hrun Hcold Hwhy. destruct (Hm s) as [r0 Hs].
  rewrite Hs in Hrun. injection Hrun as _ <- <-.
  destruct Hwhy as [Hwarm|Hsearch]; [contradiction|discriminate].
Qed.

Lemma reloads_ret {A} (a : A) : reloads (ret a).
Proof. apply reloads_silent. intros s. now eexists. Qed.

Lemma reloads_lift {A} (x : res A) : reloads (lift x).
Proof. apply reloads_silent. intros s. now eexists. Qed.

Lemma reloads_bind {A B} (m : M A) (f : A -> M B) :
  reloads m -> (forall a, reloads (f a)) -> reloads (bind m f).
Proof.
  intros Hm Hf s r s' t Hrun Hcold Hwhy.
  apply bind_inv in Hrun as [(e & Hms & _)|(a & s1 & t1 & t2 & Hms & Hfs & ->)].
  - eapply Hm; eauto.
  - rewrite loads_app.
    destruct (st_index s1) as [im|] eqn:Hs1.
    + assert (1 <= loads t1)%nat; [|lia].
      eapply Hm; eauto. left. congruence.
    + rewrite existsb_app in Hwhy.
      destruct (existsb searches t1) eqn:Ht1.
      * assert (1 <= loads t1)%nat; [|lia]. eapply Hm; eauto.
      * assert (1 <= loads t2)%nat; [|lia]. eapply Hf; eauto.
Qed.

Lemma reloads_call {A} (f : world -> res A * world) (ev : res A -> event) :
  (forall r, searches (ev r) = false) -> reloads (call f ev).
Proof.
  intros Hev s r s' t. unfold call.
  destruct (f (st_world s)) as [r0 w']. intros [= <- <- <-] Hcold Hwhy.
  destruct Hwhy as [Hwarm|Hsearch]; [contradiction|].
  cbn in Hsearch. now rewrite Hev in Hsearch.
Qed.

Lemma reloads_execute_tool tool_name arguments :
  reloads (execute_tool tool_name arguments).
Proof.
  unfold execute_tool. destruct (py_eq_str _ _); [|apply reloads_ret].
  apply reloads_bind; [apply reloads_lift|intros query].
  apply reloads_bind; [apply reloads_lift|intros top_k].
  intros s r s' t Hrun Hcold Hwhy.
  apply bind_inv in Hrun
    as [(e & Hget & _)|([index metadata] & s1 & t1 & t2 & Hget & _ & ->)].
  - exfalso. revert Hget. unfold get_index, bind, get_global_index, load_index,
      call, set_global_index, ret. rewrite Hcold.
    destruct (read_index_files _) as [[e0|im] w']; [|discriminate].
    intros [= _ <- <-].
    destruct Hwhy as [Hwarm|Hsearch]; [now apply Hwarm|discriminate].
  - rewrite loads_app. assert (1 <= loads t1)%nat; [|lia].
    revert Hget. unfold get_index, bind, get_global_index, load_index,
      call, set_global_index, ret. rewrite Hcold.
    destruct (read_index_files _) as [[e0|im] w']; [discriminate|].
    intros [= _ _ <-]. cbn. lia.
Qed.

Lemma reloads_run_tool_calls calls messages context :
  reloads (run_tool_calls calls messages context).
Proof.
  revert messages context.
  induction calls as [|tool_call rest IH]; intros messages context; simpl;
    [apply reloads_ret|].
  do 4 (apply reloads_bind; [apply reloads_lift|intros ?]).
  apply reloads_bind; [apply reloads_execute_tool|intros tool_result].
  apply reloads_bind; [apply reloads_lift|intros tool_call_id].
  apply IH.
Qed.

Lemma reloads_azure_chat_with_tools messages tools system_prompt :
  reloads (azure_chat_with_tools messages tools system_prompt).
Proof.
  unfold azure_chat_with_tools.
  apply reloads_bind; [|intros ?; apply reloads_lift].
  apply reloads_call. now intros r.
Qed.

Lemma reloads_critic_evaluate query context :
  reloads (critic_evaluate query context).
Proof.
  unfold critic_evaluate, azure_chat.
  apply reloads_bind; [|intros ?; apply reloads_lift].
  apply reloads_bind; [|intros ?; apply reloads_lift].
  apply reloads_call. now intros r.
Qed.

Lemma reloads_agent_round user_query messages context :
  reloads (agent_round user_query messages context).
Proof.
  unfold agent_round.
  apply reloads_bind; [apply reloads_azure_chat_with_tools|intros response].
  apply reloads_bind; [apply reloads_lift|intros tool_calls].
  destruct (py_truthy tool_calls).
  2:{ apply reloads_bind; [apply reloads_lift|intros ?; apply reloads_ret]. }
  apply reloads_bind; [apply reloads_lift|intros calls].
  apply reloads_bind; [apply reloads_run_tool_calls|intros [msgs ctx]].
  destruct ctx as [[|c cs]|]; try apply reloads_ret.
  apply reloads_bind; [apply reloads_critic_evaluate|intros critic_result].
  apply reloads_bind; [apply reloads_lift|intros decision].
  destruct (py_eq_str decision (lit "sufficient")); [apply reloads_ret|].
  apply reloads_bind.
  - destruct (py_eq_str decision (lit "needs_refinement")); [|apply reloads_ret].
    apply reloads_bind; [apply reloads_lift|intros ?; apply reloads_ret].
  - intros [|]; [|apply reloads_ret].
    apply reloads_bind; [apply reloads_lift|intros ?; apply reloads_ret].
Qed.

Lemma reloads_agent_loop n user_query iteration messages context :
  reloads (agent_loop n user_query iteration messages context).
Proof.
  revert iteration messages context.
  induction n as [|n IH]; intros iteration messages context; simpl;
    [apply reloads_ret|].
  apply reloads_bind; [apply reloads_agent_round|].
  intros [m c|m c|v]; [apply IH|apply reloads_ret..].
Qed.

Lemma reloads_agentic_rag user_query max_iterations :
  reloads (agentic_rag user_query max_iterations).
Proof.
  unfold agentic_rag.
  apply reloads_bind; [apply reloads_agent_loop|].
  intros [m c|v]; [|apply reloads_ret].
  apply reloads_bind;
    [apply reloads_azure_chat_with_tools|intros ?; apply reloads_lift].
Qed.

Lemma chat_turn_reloads (s : state) exit s' t :
  chat_turn s = (exit, s', t) ->
  st_index s = None ->
  st_index s' <> None \/ existsb searches (agent_events t) = true ->
  (1 <= loads (agent_events t))%nat.
Proof.
  unfold chat_turn.
  destruct (read_input (st_world s)) as [[line| |] w]; cbv zeta.
  - destruct (is_exit_command _).
    { intros [= _ <- <-] Hcold [Hwarm|Hsearch]; [contradiction|discriminate]. }
    destruct (py_strip line) as [|c cs].
    { intros [= _ <- <-] Hcold [Hwarm|Hsearch]; [contradiction|discriminate]. }
    destruct (agentic_rag _ _ _) as [[r s2] t2] eqn:Hrun.
    assert (Hgoal : st_index s = None ->
              st_index s2 <> None \/ existsb searches t2 = true ->
              (1 <= loads t2)%nat).
    { intros Hcold. eapply reloads_agentic_rag; eauto. }
    destruct r; intros [= _ <- <-] Hcold Hwhy;
      cbn [agent_events] in *;
      rewrite agent_events_app, agent_events_agent in *;
      cbn [agent_events] in *; rewrite app_nil_r in *; auto.
  - intros [= _ <- <-] Hcold [Hwarm|Hsearch]; [contradiction|discriminate].
  - intros [= _ <- <-] Hcold [Hwarm|Hsearch]; [contradiction|discriminate].
Qed.

Lemma chat_loop_reloads (fuel : nat) (s : state) s' t :
  chat_loop fuel s = Some (s', t) ->
  st_index s = None ->
  st_index s' <> None \/ existsb searches (agent_events t) = true ->
  (1 <= loads (agent_events t))%nat.
Proof.
  revert s s' t. induction fuel as [|fuel IH]; intros s s' t H Hcold Hwhy;
    [discriminate|].
  cbn [chat_loop] in H.
  destruct (chat_turn s) as [[exit s1] t1] eqn:Hturn.
  pose proof (chat_turn_reloads _ _ _ _ Hturn Hcold) as H1.
  destruct exit.
  - injection H as <- <-. auto.
  - destruct (chat_loop fuel s1) as [[s2 t2]|] eqn:Hloop; [|discriminate].
    injection H as <- <-. rewrite agent_events_app, loads_app.
    rewrite agent_events_app, existsb_app in Hwhy.
    destruct (st_index s1) as [im|] eqn:Hs1.
    + assert (1 <= loads (agent_events t1))%nat; [|lia].
      apply H1. left. congruence.
    + destruct (existsb searches (agent_events t1)) eqn:Ht1.
      * assert (1 <= loads (agent_events t1))%nat; [|lia]. apply H1. now right.
      * assert (1 <= loads (agent_events t2))%nat; [|lia].
        eapply IH; eauto.
Qed.

(** X26.  [main] loads the index but does not keep it where
    [get_index] looks: in a session started with the module globals
    unset, the first round that searches the index reads the index
    files again, so a session with a search has read them at least
    twice. *)
Theorem session_loads_index_twice
  (fuel : nat) (s : state) exit s' t :
  st_index s = None ->
  main fuel s = Some (exit, s', t) ->
  existsb searches (agent_events t) = true ->
  (2 <= loads (agent_events t))%nat.
Proof.
  intros Hcold. unfold main, load_index, call.
  destruct (read_index_files (st_world s)) as [[e|[index metadata]] w'].
  { intros [= _ _ <-]. discriminate. }
  destruct (py_len metadata); [intros [= _ _ <-]; discriminate|].
  destruct (chat_loop fuel _) as [[s2 t2]|] eqn:Hloop; [|discriminate].
  intros [= _ _ <-] Hsearch. cbn [map agent_events] in *.
  change (loads (EvReadIndex true :: agent_events t2))
    with (S (loads (agent_events t2))).
  assert (1 <= loads (agent_events t2))%nat; [|lia].
  eapply chat_loop_reloads; [exact Hloop|exact Hcold|now right].
Qed.
End Reload.

Lemma session_loads_index_twice_witness :
  exists exit s' t,
    @main session session_console 3
      (session_start
         [asks_tools [search_call (lit "call_1")]; verdict_sufficient;
          says (lit "Zero trust means ...")]
         [Typed (lit "What is zero trust?"); Typed (lit "q")])
    = Some (exit, s', t)
    /\ loads (agent_events t) = 2%nat.
Proof.
  destruct (@main session session_console 3
      (session_start
         [asks_tools [search_call (lit "call_1")]; verdict_sufficient;
          says (lit "Zero trust means ...")]
         [Typed (lit "What is zero trust?"); Typed (lit "q")]))
    as [[[exit s'] t]|] eqn:Hrun; [|vm_compute in Hrun; discriminate].
  pose proof (fun Hcold =>
                @session_loads_index_twice session session_console _ _ _ _ _
                  Hcold Hrun) as Htwice.
  specialize (Htwice eq_refl).
  exists exit, s', t. split; [reflexivity|].
  vm_compute in Hrun. injection Hrun as _ _ <-.
  specialize (Htwice eq_refl). vm_compute in Htwice |- *. reflexivity.
Defined.
